(** * Racer colour-sensor trainer: a shallow embedding of [scripts/trainer.py]

    The development follows the components of the script:
    - [WeightExporter]: [float_to_hex] and the C array printer (lines 103-137);
    - [FeaturePipeline]: [parse_input] and [normalize_data] (lines 80-93);
    - [LabelEncoder]: [one_hot_encode] (lines 95-101);
    - [NetworkCore]: [NeuralNetwork.forward/backward] (lines 7-51);
    - [GradientStep]: the backward step as the specification words it,
      with which [backward] is compared;
    - [TrainingController]: [NeuralNetwork.train] (lines 53-78);
    - [TrainerScript]: batches, losses, the preparation of the data and
      the predictions of the script body (lines 53-78 and 106-162).

    Python values are modelled as the script uses them: integers as [Z],
    the lines of the log as lists of Unicode code points, the text that
    is printed as lists of bytes, dictionaries as [gmap], NumPy arrays as
    shaped lists of rows, exceptions as the [Raise] branch of [result]. *)

From Stdlib Require Import ZArith QArith Qpower Qreduction Reals Lqa Lra Lia.
From Stdlib Require Import Floats Uint63 Ascii String List.
From stdpp Require Import gmap strings list.

Import ListNotations.

Local Open Scope Z_scope.

(** ** Python exceptions and results *)

Module Py.

Inductive exn : Type :=
| ValueError (msg : string)
| KeyError (key : string)
| AttributeError (attr : string)
| IndexError (msg : string)
| ZeroDivisionError (msg : string).

Inductive result (A : Type) : Type :=
| Ok (a : A)
| Raise (e : exn).

Arguments Ok {A} a.
Arguments Raise {A} e.

Definition bind {A B : Type} (r : result A) (k : A -> result B) : result B :=
  match r with
  | Ok a => k a
  | Raise e => Raise e
  end.

End Py.

Import Py.

Notation "'let*' x ':=' r 'in' k" := (Py.bind r (fun x => k))
  (at level 10, x pattern, r at level 100, k at level 200).

(** ** Text: character lists and the string operations the script uses *)

Module Text.

(** [sep.join(items)] *)
Fixpoint join (sep : list ascii) (items : list (list ascii)) : list ascii :=
  match items with
  | [] => []
  | [x] => x
  | x :: rest => x ++ sep ++ join sep rest
  end.

Definition text (s : string) : list ascii := list_ascii_of_string s.

Definition newline : ascii := ascii_of_nat 10.

Fixpoint split_on (sep : ascii) (s : list ascii) : list (list ascii) :=
  match s with
  | [] => [[]]
  | c :: s' =>
      if Ascii.eqb c sep then [] :: split_on sep s'
      else match split_on sep s' with
           | t :: ts => (c :: t) :: ts
           | [] => [[c]]
           end
  end.

Fixpoint lstrip (s : list ascii) : list ascii :=
  match s with
  | c :: s' => if Ascii.eqb c " "%char then lstrip s' else s
  | [] => []
  end.

Fixpoint strip_prefix (p s : list ascii) : option (list ascii) :=
  match p, s with
  | [], _ => Some s
  | a :: p', b :: s' => if Ascii.eqb a b then strip_prefix p' s' else None
  | _ :: _, [] => None
  end.

Definition strip_suffix (p s : list ascii) : option (list ascii) :=
  option_map (@rev ascii) (strip_prefix (rev p) (rev s)).

End Text.

Import Text.

(** ** Weight exporter: IEEE-754 bit patterns as hexadecimal literals *)

Module WeightExporter.

(** A single-precision value is its three IEEE-754 fields: the sign bit,
    the 8-bit biased exponent and the 23-bit fraction.  Two values are
    bit-for-bit identical exactly when the three fields agree. *)
Record float32 : Type := Float32 {
  f_sign : bool;
  f_exponent : Z;
  f_fraction : Z
}.

Definition float32_wf (f : float32) : Prop :=
  0 <= f_exponent f < 256 /\ 0 <= f_fraction f < 2 ^ 23.

(** The 32-bit pattern: sign in bit 31, exponent in bits 30..23, fraction
    in bits 22..0. *)
Definition float32_bits (f : float32) : Z :=
  Z.lor (Z.shiftl (Z.b2z (f_sign f)) 31)
        (Z.lor (Z.shiftl (f_exponent f) 23) (f_fraction f)).

Definition float32_of_bits (w : Z) : float32 :=
  {| f_sign := Z.testbit w 31;
     f_exponent := Z.land (Z.shiftr w 23) 255;
     f_fraction := Z.land w (Z.ones 23) |}.

(** The rational denoted by a normal or subnormal value (zeros included);
    infinities and NaNs denote none. *)
Definition float32_value (f : float32) : option Q :=
  let s := if f_sign f then (-1)%Q else 1%Q in
  if f_exponent f =? 255 then None
  else if f_exponent f =? 0 then
    Some (s * (inject_Z (f_fraction f) * Qpower 2 (-149)))%Q
  else
    Some (s * (inject_Z (2 ^ 23 + f_fraction f) * Qpower 2 (f_exponent f - 150)))%Q.

Definition one_f : float32 := Float32 false 127 0.
Definition zero_f : float32 := Float32 false 0 0.

(** [struct.pack('<f', f)]: the four bytes of the pattern, least
    significant first. *)
Definition pack_f (f : float32) : Z * Z * Z * Z :=
  let w := float32_bits f in
  (Z.land w 255,
   Z.land (Z.shiftr w 8) 255,
   Z.land (Z.shiftr w 16) 255,
   Z.land (Z.shiftr w 24) 255).

(** [struct.unpack('<I', b)[0]]: the unsigned integer of four
    little-endian bytes. *)
Definition unpack_I (b : Z * Z * Z * Z) : Z :=
  let '(b0, b1, b2, b3) := b in
  Z.lor b0 (Z.lor (Z.shiftl b1 8) (Z.lor (Z.shiftl b2 16) (Z.shiftl b3 24))).

(** Python's [hex]: the prefix [0x] (after a minus sign for a negative
    argument) and the lower-case digits, most significant first, without
    leading zeros. *)
Definition hex_alphabet : list ascii :=
  list_ascii_of_string "0123456789abcdef".

Definition hex_digit (d : Z) : ascii :=
  nth (Z.to_nat d) hex_alphabet "0"%char.

Fixpoint hex_digits (fuel : nat) (n : Z) : list ascii :=
  match fuel with
  | O => []
  | S k =>
      if n <? 16 then [hex_digit n]
      else hex_digits k (n / 16) ++ [hex_digit (n mod 16)]
  end.

Definition hex_fuel (n : Z) : nat := S (Z.to_nat (Z.log2 n)).

Definition hex (n : Z) : list ascii :=
  if n <? 0
  then list_ascii_of_string "-0x" ++ hex_digits (hex_fuel (- n)) (- n)
  else list_ascii_of_string "0x" ++ hex_digits (hex_fuel n) n.

(** trainer.py:103-104 *)
Definition float_to_hex (f : float32) : list ascii :=
  hex (unpack_I (pack_f f)).

(** The inverse transform the exported text is read with: the digits after
    [0x] give the 32-bit pattern, which is reinterpreted as a float32. *)
Definition hex_value (c : ascii) : option Z :=
  let n := Z.of_nat (nat_of_ascii c) in
  if (48 <=? n) && (n <=? 57) then Some (n - 48)
  else if (97 <=? n) && (n <=? 102) then Some (n - 87)
  else if (65 <=? n) && (n <=? 70) then Some (n - 55)
  else None.

Fixpoint parse_hex_digits (acc : Z) (s : list ascii) : option Z :=
  match s with
  | [] => Some acc
  | c :: s' =>
      match hex_value c with
      | Some d => parse_hex_digits (16 * acc + d) s'
      | None => None
      end
  end.

Definition parse_hex_literal (s : list ascii) : option Z :=
  match s with
  | "0"%char :: "x"%char :: d :: ds => parse_hex_digits 0 (d :: ds)
  | _ => None
  end.

(** Modelled from the spec: the decoder of section 4.5, which reads the
    literal back to a 32-bit pattern and reinterprets it as float32; the
    consumer of the exported arrays is not part of the Python scripts. *)
Definition hex_to_float (s : list ascii) : option float32 :=
  match parse_hex_literal s with
  | Some w => if w <? 2 ^ 32 then Some (float32_of_bits w) else None
  | None => None
  end.

(** *** The C array printer (trainer.py:118-137) *)

(** The trained parameters as the printer reads them: six float32 arrays,
    the bias vectors of shape (1, n). *)
Record parameters : Type := Parameters {
  input_weights : list (list float32);
  hidden_weights1 : list (list float32);
  hidden_weights2 : list (list float32);
  hidden_bias1 : list (list float32);
  hidden_bias2 : list (list float32);
  output_bias : list (list float32)
}.

(** [ndarray.flatten()] of a two-dimensional array: its rows, one after
    the other. *)
Definition flatten (a : list (list float32)) : list float32 := concat a.

(** One line per matrix row: [print("    {" + ", ".join(...) + "},")]. *)
Definition row_line (row : list float32) : list ascii :=
  text "    {" ++ join (text ", ") (map float_to_hex row) ++ text "},".

(** A weight matrix: the declaration, one line per row, the closing line. *)
Definition matrix_block (decl : list ascii) (m : list (list float32))
  : list (list ascii) :=
  [decl] ++ map row_line m ++ [text "};"].

(** A bias vector: one line with all its entries. *)
Definition vector_line (decl : list ascii) (v : list (list float32))
  : list ascii :=
  decl ++ join (text ", ") (map float_to_hex (flatten v)) ++ text "};".

(** The arguments of the successive [print] calls of lines 119-137. *)
Definition export (nn : parameters) : list (list ascii) :=
  [newline :: text "C-compatible array initializers:"] ++
  matrix_block (text "uint32_t input_weights[INPUT_SIZE][HIDDEN_SIZE1] = {")
    (input_weights nn) ++
  matrix_block
    (newline :: text "uint32_t hidden_weights1[HIDDEN_SIZE1][HIDDEN_SIZE2] = {")
    (hidden_weights1 nn) ++
  matrix_block
    (newline :: text "uint32_t hidden_weights2[HIDDEN_SIZE2][OUTPUT_SIZE] = {")
    (hidden_weights2 nn) ++
  [vector_line (newline :: text "uint32_t hidden_bias1[HIDDEN_SIZE1] = {")
     (hidden_bias1 nn);
   vector_line (newline :: text "uint32_t hidden_bias2[HIDDEN_SIZE2] = {")
     (hidden_bias2 nn);
   vector_line (newline :: text "uint32_t output_bias[OUTPUT_SIZE] = {")
     (output_bias nn)].

(** *** Reading the exported text back

    A reader of one row line: the entries between the braces, separated by
    commas, each read as a hexadecimal literal. *)
Fixpoint sequence {A : Type} (l : list (option A)) : option (list A) :=
  match l with
  | [] => Some []
  | Some a :: l' => option_map (cons a) (sequence l')
  | None :: _ => None
  end.

Definition read_entries (body : list ascii) : option (list float32) :=
  sequence (map (fun t => hex_to_float (lstrip t)) (split_on ","%char body)).

Definition read_row_line (line : list ascii) : option (list float32) :=
  match strip_prefix (text "    {") line with
  | Some rest =>
      match strip_suffix (text "},") rest with
      | Some body => read_entries body
      | None => None
      end
  | None => None
  end.

(** The shape section 6 of the specification gives every entry: [0x]
    followed by exactly eight hexadecimal digits. *)
Definition eight_digit_literal (s : list ascii) : Prop :=
  exists ds, s = "0"%char :: "x"%char :: ds /\
             List.length ds = 8%nat /\
             Forall (fun c => hex_value c <> None) ds.

End WeightExporter.

(** ** NumPy arrays

    A two-dimensional array is its shape and its rows.  A one-dimensional
    array of length n takes part in the operations below as one row of
    shape (1, n), which is how broadcasting reads it.  The element
    arithmetic is a parameter: the operations are the same whether the
    elements are IEEE floats, rationals or reals. *)

Module Numpy.

Class Scalar (F : Type) : Type := {
  fzero : F;
  fone : F;
  fadd : F -> F -> F;
  fsub : F -> F -> F;
  fmul : F -> F -> F;
  fdiv : F -> F -> F;
  of_int : Z -> F;
  flt : F -> F -> bool;
  fle : F -> F -> bool;
  fisnan : F -> bool
}.

Class Exponential (F : Type) : Type := {
  fexp : F -> F
}.

(** What the ReLU mask relies on: 0 is a number and is not above itself,
    and a value at most 0 is not above 0.  IEEE comparisons satisfy the
    three, NaN included. *)
Class ScalarOrder (F : Type) `{Scalar F} : Prop := {
  fisnan_zero : fisnan fzero = false;
  flt_irrefl_zero : flt fzero fzero = false;
  fle_not_flt : forall x : F, fle x fzero = true -> flt fzero x = false
}.

Inductive dtype : Type := int64 | float32 | float64.

(** The element type of [a / b], NumPy's true division: integers divide as
    float64, and only two float32 operands stay float32. *)
Definition true_divide_dtype (a b : dtype) : dtype :=
  match a, b with
  | float32, float32 => float32
  | _, _ => float64
  end.

Record ndarray (A : Type) : Type := NdArray {
  nrows : nat;
  ncols : nat;
  rows : list (list A)
}.

Arguments NdArray {A} nrows ncols rows.
Arguments nrows {A} _.
Arguments ncols {A} _.
Arguments rows {A} _.

Definition shape {A : Type} (a : ndarray A) : nat * nat := (nrows a, ncols a).

(** The array with entry [f i j] at row [i], column [j]. *)
Definition tabulate {A : Type} (n m : nat) (f : nat -> nat -> A) : ndarray A :=
  NdArray n m (map (fun i => map (fun j => f i j) (seq 0 m)) (seq 0 n)).

Definition get {A : Type} (d : A) (a : ndarray A) (i j : nat) : A :=
  nth j (nth i (rows a) []) d.

(** [np.array(l)] for a list of equally long rows; the empty list gives
    the one-dimensional array of length 0. *)
Definition np_array {A : Type} (l : list (list A)) : ndarray A :=
  match l with
  | [] => NdArray 1 0 [[]]
  | r :: _ => NdArray (List.length l) (List.length r) l
  end.

(** Broadcasting of one axis: equal lengths, or one of them 1. *)
Definition broadcast_dim (a b : nat) : option nat :=
  if (a =? b)%nat then Some a
  else if (a =? 1)%nat then Some b
  else if (b =? 1)%nat then Some a
  else None.

Definition broadcast_index (n i : nat) : nat :=
  if (n =? 1)%nat then O else i.

Definition broadcast_error : exn :=
  ValueError "operands could not be broadcast together".

Definition broadcast2 {A B C : Type} (dA : A) (dB : B) (f : A -> B -> C)
    (a : ndarray A) (b : ndarray B) : result (ndarray C) :=
  match broadcast_dim (nrows a) (nrows b), broadcast_dim (ncols a) (ncols b) with
  | Some n, Some m =>
      Ok (tabulate n m (fun i j =>
            f (get dA a (broadcast_index (nrows a) i) (broadcast_index (ncols a) j))
              (get dB b (broadcast_index (nrows b) i) (broadcast_index (ncols b) j))))
  | _, _ => Raise broadcast_error
  end.

Section Arithmetic.

Context {F : Type} `{Scalar F}.

Definition at_ (a : ndarray F) (i j : nat) : F := get fzero a i j.

(** The sum of a list, accumulated from the left. *)
Definition fsum (l : list F) : F := fold_left fadd l fzero.

(** [np.maximum(a, b)] on two elements: [a] when [a >= b] or [a] is NaN. *)
Definition fmaximum (a b : F) : F :=
  if fle b a || fisnan a then a else b.

Definition np_add : ndarray F -> ndarray F -> result (ndarray F) :=
  broadcast2 fzero fzero fadd.
Definition np_sub : ndarray F -> ndarray F -> result (ndarray F) :=
  broadcast2 fzero fzero fsub.
Definition np_mul : ndarray F -> ndarray F -> result (ndarray F) :=
  broadcast2 fzero fzero fmul.
Definition np_div : ndarray F -> ndarray F -> result (ndarray F) :=
  broadcast2 fzero fzero fdiv.

(** [c * a] for a Python float [c]. *)
Definition scale (c : F) (a : ndarray F) : ndarray F :=
  tabulate (nrows a) (ncols a) (fun i j => fmul c (at_ a i j)).

(** An elementwise function such as [np.exp]. *)
Definition amap (f : F -> F) (a : ndarray F) : ndarray F :=
  tabulate (nrows a) (ncols a) (fun i j => f (at_ a i j)).

(** [a.T] *)
Definition transpose (a : ndarray F) : ndarray F :=
  tabulate (ncols a) (nrows a) (fun i j => at_ a j i).

(** [np.dot(a, b)] of two matrices.  Each entry is the sum of the
    products, added here in index order.  NumPy hands the sum to a BLAS
    kernel, which picks the order of the additions by the shapes of the
    operands: with rounding, an entry is this one up to that order, and
    what is proved of [dot] entry by entry for float64 is limited to
    facts that hold in any order; in exact arithmetic the order does not
    matter. *)
Definition dot (a b : ndarray F) : result (ndarray F) :=
  if (ncols a =? nrows b)%nat then
    Ok (tabulate (nrows a) (ncols b) (fun i j =>
          fsum (map (fun k => fmul (at_ a i k) (at_ b k j)) (seq 0 (ncols a)))))
  else Raise (ValueError "shapes not aligned").

(** [np.sum(a, axis=0, keepdims=True)]: the column sums, as one row. *)
Definition sum_axis0 (a : ndarray F) : ndarray F :=
  tabulate 1 (ncols a) (fun _ j =>
    fsum (map (fun i => at_ a i j) (seq 0 (nrows a)))).

(** [np.sum(a, axis=1, keepdims=True)]: the row sums, as one column. *)
Definition sum_axis1 (a : ndarray F) : ndarray F :=
  tabulate (nrows a) 1 (fun i _ =>
    fsum (map (fun j => at_ a i j) (seq 0 (ncols a)))).

(** [np.max(a, axis=1, keepdims=True)]; a reduction over an axis of
    length 0 has no identity and raises. *)
Definition max_axis1 (a : ndarray F) : result (ndarray F) :=
  match ncols a with
  | O => Raise (ValueError "zero-size array to reduction operation maximum")
  | S m =>
      Ok (tabulate (nrows a) 1 (fun i _ =>
            fold_left fmaximum (map (fun j => at_ a i (S j)) (seq 0 m)) (at_ a i 0)))
  end.

(** [a += b]: [b] is broadcast to the shape of [a], which never changes.
    The sum is taken in the element type [F] of the model.  The biases
    of the script are float32 arrays, and so are the weights where NumPy
    keeps [float32 * float64 scalar] in float32: there NumPy adds in
    float64 and rounds the sum to float32 when it stores it.  That
    rounding is not modelled; what is proved of the values [iadd] stores
    is proved in exact arithmetic, or on values that float32 holds
    exactly. *)
Definition iadd (a b : ndarray F) : result (ndarray F) :=
  if ((nrows b =? nrows a)%nat || (nrows b =? 1)%nat) &&
     ((ncols b =? ncols a)%nat || (ncols b =? 1)%nat)
  then
    Ok (tabulate (nrows a) (ncols a) (fun i j =>
          fadd (at_ a i j)
               (at_ b (broadcast_index (nrows b) i) (broadcast_index (ncols b) j))))
  else Raise (ValueError "non-broadcastable output operand").

End Arithmetic.

(** *** Element arithmetics *)

(** Exact rationals, kept in lowest terms. *)
#[export] Instance Q_scalar : Scalar Q := {|
  fzero := 0%Q;
  fone := 1%Q;
  fadd x y := Qred (x + y);
  fsub x y := Qred (x - y);
  fmul x y := Qred (x * y);
  fdiv x y := Qred (x / y);
  of_int z := inject_Z z;
  flt x y := negb (Qle_bool y x);
  fle x y := Qle_bool x y;
  fisnan _ := false
|}.

(** Real numbers. *)
Definition Rltb (x y : R) : bool := if Rlt_dec x y then true else false.
Definition Rleb (x y : R) : bool := if Rle_dec x y then true else false.

#[export] Instance R_scalar : Scalar R := {|
  fzero := 0%R;
  fone := 1%R;
  fadd := Rplus;
  fsub := Rminus;
  fmul := Rmult;
  fdiv := Rdiv;
  of_int := IZR;
  flt := Rltb;
  fle := Rleb;
  fisnan _ := false
|}.

#[export] Instance R_exponential : Exponential R := {| fexp := Rtrigo_def.exp |}.

(** IEEE-754 binary64, the arithmetic of Python floats and of float64
    arrays.  The conversion of an int64 entry gives the nearest float for
    integers below 2^63 in absolute value, and is exact below 2^53;
    beyond 2^63 the machine integer wraps, and nothing is proved there:
    the float64 facts are stated for readings below 65536. *)
Definition float_of_int (z : Z) : float :=
  if z <? 0 then PrimFloat.opp (PrimFloat.of_uint63 (Uint63.of_Z (- z)))
  else PrimFloat.of_uint63 (Uint63.of_Z z).

#[export] Instance float64_scalar : Scalar float := {|
  fzero := PrimFloat.zero;
  fone := PrimFloat.one;
  fadd := PrimFloat.add;
  fsub := PrimFloat.sub;
  fmul := PrimFloat.mul;
  fdiv := PrimFloat.div;
  of_int := float_of_int;
  flt := PrimFloat.ltb;
  fle := PrimFloat.leb;
  fisnan := PrimFloat.is_nan
|}.

(** The rational a finite binary64 value denotes. *)
Definition float64_value (x : float) : option Q :=
  match Prim2SF x with
  | S754_zero _ => Some 0%Q
  | S754_finite s m e =>
      Some ((if s then -1 else 1) * (inject_Z (Z.pos m) * Qpower 2 e))%Q
  | _ => None
  end.

End Numpy.

Import Numpy.

(** ** Feature pipeline: [parse_input] and [normalize_data] *)

Module FeaturePipeline.

(** *** Text

    A line of the log is a Python [str]: a sequence of Unicode code
    points.  A literal of the script is given by its characters, which
    are all ASCII. *)
Definition char : Type := N.

Definition code (a : ascii) : char := N_of_ascii a.

Definition str (s : string) : list char := map code (text s).

(** The Unicode character database is not part of the script.  The
    tables that [re] and [int] consult are parameters:
    - [isdecimal c]: [c] is a decimal digit, of general category Nd;
    - [decimal c]: the value of the decimal digit [c];
    - [isalnum c]: [c] is alphanumeric, as for [str.isalnum]. *)
Class UnicodeData : Type := {
  isdecimal : char -> bool;
  decimal : char -> Z;
  isalnum : char -> bool
}.

(** What is used of the tables: a decimal digit has a value from 0 to 9;
    on the ASCII range the decimal digits are [0] to [9] with their
    values, and the alphanumeric characters are the digits and the
    letters. *)
Class UnicodeLaws (U : UnicodeData) : Prop := {
  decimal_range : forall c, isdecimal c = true -> 0 <= decimal c <= 9;
  ascii_isdecimal : forall c, (c < 128)%N ->
    isdecimal c = ((48 <=? c) && (c <=? 57))%N;
  ascii_decimal : forall c, (48 <= c <= 57)%N -> decimal c = Z.of_N c - 48;
  ascii_isalnum : forall c, (c < 128)%N ->
    isalnum c = ((48 <=? c) && (c <=? 57) || (65 <=? c) && (c <=? 90) ||
                 (97 <=? c) && (c <=? 122))%N
}.

Section Pattern.

Context {U : UnicodeData}.

(** *** The regular expression of line 85

    The pattern is a [str], so that its classes are those of Unicode:
    [\d] matches every decimal digit, and [\w] every alphanumeric
    character and the underscore.  The pattern uses literal characters
    and the capturing groups [(\d+)] and [(\w+)]; [re.search] tries every
    start position from the left, and a [+] is greedy: it takes the
    longest run first and gives characters back only while the rest of
    the pattern fails. *)
Definition is_digit (c : char) : bool := isdecimal c.

Definition is_word (c : char) : bool := isalnum c || (c =? 95)%N.

Inductive charclass : Type := Digit | Word.

Definition in_class (cls : charclass) (c : char) : bool :=
  match cls with
  | Digit => is_digit c
  | Word => is_word c
  end.

Inductive atom : Type :=
| Chr (c : char)
| PlusGroup (cls : charclass).

Definition regex : Type := list atom.

Definition lit (s : string) : regex := map Chr (str s).

(** [r'Red: (\d+), Green: (\d+), Blue: (\d+), Clear: (\d+), Color: (\w+)'] *)
Definition sample_pattern : regex :=
  lit "Red: " ++ [PlusGroup Digit] ++
  lit ", Green: " ++ [PlusGroup Digit] ++
  lit ", Blue: " ++ [PlusGroup Digit] ++
  lit ", Clear: " ++ [PlusGroup Digit] ++
  lit ", Color: " ++ [PlusGroup Word].

(** One or more characters of the class, the longest run first; [k] is
    the rest of the pattern, given the captured text and what follows. *)
Fixpoint plus_loop (cls : charclass)
    (k : list char -> list char -> option (list (list char)))
    (taken s : list char) : option (list (list char)) :=
  match s with
  | c :: s' =>
      if in_class cls c then
        match plus_loop cls k (taken ++ [c]) s' with
        | Some groups => Some groups
        | None => k (taken ++ [c]) s'
        end
      else None
  | [] => None
  end.

(** A match of the pattern at the start of [s]: the captured groups. *)
Fixpoint match_here (p : regex) (s : list char) : option (list (list char)) :=
  match p with
  | [] => Some []
  | Chr a :: p' =>
      match s with
      | c :: s' => if (a =? c)%N then match_here p' s' else None
      | [] => None
      end
  | PlusGroup cls :: p' =>
      plus_loop cls (fun g rest => option_map (cons g) (match_here p' rest)) [] s
  end.

(** [re.search(p, s)]: the match at the leftmost position that has one;
    [None] when no position has. *)
Fixpoint search (p : regex) (s : list char) : option (list (list char)) :=
  match match_here p s with
  | Some groups => Some groups
  | None =>
      match s with
      | _ :: s' => search p s'
      | [] => None
      end
  end.

(** [int(s)] on a string of decimal digits, of any script: each digit
    counts with its decimal value. *)
Definition digit_value (c : char) : Z := decimal c.

Definition int (s : list char) : Z :=
  fold_left (fun acc c => 10 * acc + digit_value c) s 0.

(** *** [parse_input] (trainer.py:80-90)

    The body of the loop for one line: the row appended to [data] and the
    label appended to [labels], or nothing when [match] is [None]. *)
Definition parse_line (line : list char) : option (list Z * list char) :=
  match search sample_pattern line with
  | Some [r; g; b; c; color] => Some ([int r; int g; int b; int c], color)
  | _ => None
  end.

Fixpoint parse_loop (lines : list (list char))
    (data : list (list Z)) (labels : list (list char))
  : list (list Z) * list (list char) :=
  match lines with
  | [] => (data, labels)
  | line :: rest =>
      match parse_line line with
      | Some (row, color) => parse_loop rest (data ++ [row]) (labels ++ [color])
      | None => parse_loop rest data labels
      end
  end.

(** [file] is given by its lines, as [for line in file] yields them. *)
Definition parse_input (file : list (list char))
  : list (list Z) * list (list char) :=
  parse_loop file [] [].

(** *** What a matching line is

    The text of a sample, and an occurrence of one inside a line. *)
Definition sample_text (r g b c w : list char) : list char :=
  str "Red: " ++ r ++ str ", Green: " ++ g ++ str ", Blue: " ++ b ++
  str ", Clear: " ++ c ++ str ", Color: " ++ w.

Definition all_in (cls : charclass) (s : list char) : Prop :=
  s <> [] /\ Forall (fun c => in_class cls c = true) s.

Record sample_fields (r g b c w : list char) : Prop := {
  red_digits : all_in Digit r;
  green_digits : all_in Digit g;
  blue_digits : all_in Digit b;
  clear_digits : all_in Digit c;
  color_word : all_in Word w
}.

(** [s] starts with a sample. *)
Definition starts_sample (s : list char) : Prop :=
  exists r g b c w post,
    s = sample_text r g b c w ++ post /\ sample_fields r g b c w.

(** The pattern occurs somewhere in the line. *)
Definition occurs (line : list char) : Prop :=
  exists pre s, line = pre ++ s /\ starts_sample s.

(** The longest prefix of [s] in the class. *)
Fixpoint take_class (cls : charclass) (s : list char) : list char :=
  match s with
  | c :: s' => if in_class cls c then c :: take_class cls s' else []
  | [] => []
  end.

Fixpoint drop_class (cls : charclass) (s : list char) : list char :=
  match s with
  | c :: s' => if in_class cls c then drop_class cls s' else s
  | [] => []
  end.

(** [s] does not go on with a character of the class. *)
Definition stops (cls : charclass) (s : list char) : Prop :=
  match s with
  | c :: _ => in_class cls c = false
  | [] => True
  end.

End Pattern.

(** *** Labels as dictionary keys

    The labels are looked up in a dictionary whose keys are byte
    strings: a label is taken there by its UTF-8 encoding, under which
    two labels are equal when their code points are.  A number above the
    last code point, which no [str] holds, is encoded as U+FFFD. *)
Definition byte (n : N) : ascii := ascii_of_N n.

Definition utf8 (c : char) : list ascii :=
  if (c <? 128)%N then [byte c]
  else if (c <? 2048)%N then [byte (192 + c / 64); byte (128 + c mod 64)]%N
  else if (c <? 65536)%N then
    [byte (224 + c / 4096); byte (128 + (c / 64) mod 64);
     byte (128 + c mod 64)]%N
  else if (c <? 1114112)%N then
    [byte (240 + c / 262144); byte (128 + (c / 4096) mod 64);
     byte (128 + (c / 64) mod 64); byte (128 + c mod 64)]%N
  else [byte 239; byte 191; byte 189].

Definition key_of (label : list char) : string :=
  string_of_list_ascii (flat_map utf8 label).

(** *** [normalize_data] (trainer.py:92-93) *)

Section Normalize.

Context {F : Type} `{Scalar F}.

(** A floating-point array together with its element type. *)
Record features : Type := Features {
  feat_dtype : dtype;
  feat_values : ndarray F
}.

(** [np.array([2048, 2048, 2048, 2048])] *)
Definition sensor_range : ndarray Z := np_array [[2048; 2048; 2048; 2048]].

(** [data / np.array([2048, 2048, 2048, 2048])] on the integer array of
    the parsed rows: both operands are converted and divided elementwise,
    the divisor broadcast over the rows. *)
Definition normalize_data (data : ndarray Z) : result features :=
  let* v := broadcast2 0 0 (fun x y => fdiv (of_int x) (of_int y))
              data sensor_range in
  Ok (Features (true_divide_dtype int64 int64) v).

End Normalize.

Arguments features F : clear implicits.

End FeaturePipeline.
(** ** Label encoder: [one_hot_encode] (trainer.py:95-101) *)

Module LabelEncoder.

(** [np.array(['Red', 'Black', 'Green', 'White'])] *)
Definition unique_labels : list string :=
  ["Red"; "Black"; "Green"; "White"]%string.

(** [enumerate(l)] *)
Definition enumerate {A : Type} (l : list A) : list (nat * A) :=
  zip (seq 0 (List.length l)) l.

(** [{label: i for i, label in enumerate(unique_labels)}]: the entries
    are inserted one after the other. *)
Definition label_dict : gmap string nat :=
  fold_left (fun d entry => <[snd entry := fst entry]> d)
            (enumerate unique_labels) ∅.

Section Encode.

Context {F : Type} `{Scalar F}.

(** [np.zeros((n, m))] *)
Definition zeros (n m : nat) : ndarray F := tabulate n m (fun _ _ => fzero).

(** [a[i, j] = v], in place; an index outside the array raises. *)
Definition setitem (a : ndarray F) (i j : nat) (v : F) : result (ndarray F) :=
  if (i <? nrows a)%nat && (j <? ncols a)%nat
  then Ok (NdArray (nrows a) (ncols a) (alter (fun row => <[j := v]> row) i (rows a)))
  else Raise (IndexError "index is out of bounds").

(** The loop of lines 99-100 from index [i] on; a label that is not a key
    of [label_dict] raises [KeyError] and nothing is returned. *)
Fixpoint encode_loop (i : nat) (labels : list string) (encoded : ndarray F)
  : result (ndarray F) :=
  match labels with
  | [] => Ok encoded
  | label :: rest =>
      match label_dict !! label with
      | None => Raise (KeyError label)
      | Some j =>
          let* encoded' := setitem encoded i j fone in
          encode_loop (S i) rest encoded'
      end
  end.

Definition one_hot_encode (labels : list string)
  : result (ndarray F * list string) :=
  let encoded := zeros (List.length labels) (List.length unique_labels) in
  let* encoded' := encode_loop 0 labels encoded in
  Ok (encoded', unique_labels).

(** The row with [fone] at index [j] and [fzero] elsewhere. *)
Definition one_hot (j : nat) : list F :=
  <[j := fone]> (replicate (List.length unique_labels) fzero).

End Encode.

End LabelEncoder.
(** ** Network core: [NeuralNetwork] (trainer.py:7-51) *)

Module NetworkCore.

Section Network.

Context {F : Type} `{Scalar F}.

(** The object [self]: the four sizes, the six parameter arrays, and the
    three attributes a call of [forward] creates. *)
Record NeuralNetwork : Type := Network {
  input_size : nat;
  hidden_size1 : nat;
  hidden_size2 : nat;
  output_size : nat;
  input_weights : ndarray F;
  hidden_weights1 : ndarray F;
  hidden_weights2 : ndarray F;
  hidden_bias1 : ndarray F;
  hidden_bias2 : ndarray F;
  output_bias : ndarray F;
  hidden1 : option (ndarray F);
  hidden2 : option (ndarray F);
  output : option (ndarray F)
}.

(** [__init__]: [w1], [w2], [w3] give the entries of the three scaled
    random draws; the biases are zero rows. *)
Definition init (w1 w2 w3 : nat -> nat -> F)
    (input_size hidden_size1 hidden_size2 output_size : nat) : NeuralNetwork :=
  {| input_size := input_size;
     hidden_size1 := hidden_size1;
     hidden_size2 := hidden_size2;
     output_size := output_size;
     input_weights := tabulate input_size hidden_size1 w1;
     hidden_weights1 := tabulate hidden_size1 hidden_size2 w2;
     hidden_weights2 := tabulate hidden_size2 output_size w3;
     hidden_bias1 := tabulate 1 hidden_size1 (fun _ _ => fzero);
     hidden_bias2 := tabulate 1 hidden_size2 (fun _ _ => fzero);
     output_bias := tabulate 1 output_size (fun _ _ => fzero);
     hidden1 := None;
     hidden2 := None;
     output := None |}.

(** The six trained parameters and the three cached activations. *)
Inductive param : Type :=
| InputWeights | HiddenWeights1 | HiddenWeights2
| HiddenBias1 | HiddenBias2 | OutputBias.

Inductive cache : Type := Hidden1 | Hidden2 | Output.

Definition get_param (p : param) (self : NeuralNetwork) : ndarray F :=
  match p with
  | InputWeights => input_weights self
  | HiddenWeights1 => hidden_weights1 self
  | HiddenWeights2 => hidden_weights2 self
  | HiddenBias1 => hidden_bias1 self
  | HiddenBias2 => hidden_bias2 self
  | OutputBias => output_bias self
  end.

Definition set_param (p : param) (v : ndarray F) (self : NeuralNetwork)
  : NeuralNetwork :=
  match p with
  | InputWeights =>
      Network (input_size self) (hidden_size1 self) (hidden_size2 self)
        (output_size self) v (hidden_weights1 self) (hidden_weights2 self)
        (hidden_bias1 self) (hidden_bias2 self) (output_bias self)
        (hidden1 self) (hidden2 self) (output self)
  | HiddenWeights1 =>
      Network (input_size self) (hidden_size1 self) (hidden_size2 self)
        (output_size self) (input_weights self) v (hidden_weights2 self)
        (hidden_bias1 self) (hidden_bias2 self) (output_bias self)
        (hidden1 self) (hidden2 self) (output self)
  | HiddenWeights2 =>
      Network (input_size self) (hidden_size1 self) (hidden_size2 self)
        (output_size self) (input_weights self) (hidden_weights1 self) v
        (hidden_bias1 self) (hidden_bias2 self) (output_bias self)
        (hidden1 self) (hidden2 self) (output self)
  | HiddenBias1 =>
      Network (input_size self) (hidden_size1 self) (hidden_size2 self)
        (output_size self) (input_weights self) (hidden_weights1 self)
        (hidden_weights2 self) v (hidden_bias2 self) (output_bias self)
        (hidden1 self) (hidden2 self) (output self)
  | HiddenBias2 =>
      Network (input_size self) (hidden_size1 self) (hidden_size2 self)
        (output_size self) (input_weights self) (hidden_weights1 self)
        (hidden_weights2 self) (hidden_bias1 self) v (output_bias self)
        (hidden1 self) (hidden2 self) (output self)
  | OutputBias =>
      Network (input_size self) (hidden_size1 self) (hidden_size2 self)
        (output_size self) (input_weights self) (hidden_weights1 self)
        (hidden_weights2 self) (hidden_bias1 self) (hidden_bias2 self) v
        (hidden1 self) (hidden2 self) (output self)
  end.

Definition get_cache (c : cache) (self : NeuralNetwork) : option (ndarray F) :=
  match c with
  | Hidden1 => hidden1 self
  | Hidden2 => hidden2 self
  | Output => output self
  end.

Definition set_cache (c : cache) (v : ndarray F) (self : NeuralNetwork)
  : NeuralNetwork :=
  match c with
  | Hidden1 =>
      Network (input_size self) (hidden_size1 self) (hidden_size2 self)
        (output_size self) (input_weights self) (hidden_weights1 self)
        (hidden_weights2 self) (hidden_bias1 self) (hidden_bias2 self)
        (output_bias self) (Some v) (hidden2 self) (output self)
  | Hidden2 =>
      Network (input_size self) (hidden_size1 self) (hidden_size2 self)
        (output_size self) (input_weights self) (hidden_weights1 self)
        (hidden_weights2 self) (hidden_bias1 self) (hidden_bias2 self)
        (output_bias self) (hidden1 self) (Some v) (output self)
  | Output =>
      Network (input_size self) (hidden_size1 self) (hidden_size2 self)
        (output_size self) (input_weights self) (hidden_weights1 self)
        (hidden_weights2 self) (hidden_bias1 self) (hidden_bias2 self)
        (output_bias self) (hidden1 self) (hidden2 self) (Some v)
  end.

(** The six parameter arrays of a network, and their shapes. *)
Definition all_params : list param :=
  [InputWeights; HiddenWeights1; HiddenWeights2;
   HiddenBias1; HiddenBias2; OutputBias].

Definition parameters (self : NeuralNetwork) : list (ndarray F) :=
  map (fun p => get_param p self) all_params.

Definition parameter_shapes (self : NeuralNetwork) : list (nat * nat) :=
  map shape (parameters self).

(** *** Methods run on [self]: a state and exception monad *)

Definition method (A : Type) : Type := NeuralNetwork -> result A * NeuralNetwork.

Definition ret {A : Type} (a : A) : method A := fun self => (Ok a, self).

Definition mbind {A B : Type} (m : method A) (k : A -> method B) : method B :=
  fun self =>
    match m self with
    | (Ok a, self') => k a self'
    | (Raise e, self') => (Raise e, self')
    end.

(** A NumPy call: it raises or returns, and leaves [self] alone. *)
Definition call {A : Type} (r : result A) : method A := fun self => (r, self).

(** [self.p] for a parameter. *)
Definition load (p : param) : method (ndarray F) :=
  fun self => (Ok (get_param p self), self).

(** [self.c] for a cached activation; it exists only after [forward]. *)
Definition load_cache (c : cache) : method (ndarray F) :=
  fun self =>
    match get_cache c self with
    | Some v => (Ok v, self)
    | None => (Raise (AttributeError "NeuralNetwork object has no such attribute"), self)
    end.

(** [self.c = v] *)
Definition store_cache (c : cache) (v : ndarray F) : method unit :=
  fun self => (Ok tt, set_cache c v self).

(** [self.p += delta] *)
Definition iadd_param (p : param) (delta : ndarray F) : method unit :=
  fun self =>
    match iadd (get_param p self) delta with
    | Ok v => (Ok tt, set_param p v self)
    | Raise e => (Raise e, self)
    end.

End Network.

Arguments NeuralNetwork F : clear implicits.
Arguments method F A : clear implicits.

Declare Scope method_scope.
Delimit Scope method_scope with method.

Notation "x <- m ;; k" := (mbind m (fun x => k))
  (at level 100, m at next level, right associativity) : method_scope.
Notation "m ;; k" := (mbind m (fun _ => k))
  (at level 100, right associativity) : method_scope.

Section Methods.

Context {F : Type} `{Scalar F}.

Local Open Scope method_scope.

(** [np.maximum(0, x)] *)
Definition relu (x : ndarray F) : ndarray F :=
  amap (fun v => fmaximum fzero v) x.

(** [np.where(x > 0, 1, 0)] *)
Definition relu_derivative (x : ndarray F) : ndarray F :=
  amap (fun v => if flt fzero v then fone else fzero) x.

(** [softmax] (lines 27-29) *)
Definition softmax `{Exponential F} (x : ndarray F) : result (ndarray F) :=
  let* m := max_axis1 x in
  let* shifted := np_sub x m in
  let exp_x := amap fexp shifted in
  np_div exp_x (sum_axis1 exp_x).

(** One layer: [act(np.dot(x, W) + b)]. *)
Definition affine (x W b : ndarray F) : result (ndarray F) :=
  let* z := dot x W in np_add z b.

(** [forward] (lines 31-35) *)
Definition forward `{Exponential F} (X : ndarray F) : method F (ndarray F) :=
  w_in <- load InputWeights ;;
  b1 <- load HiddenBias1 ;;
  z1 <- call (affine X w_in b1) ;;
  store_cache Hidden1 (relu z1) ;;
  h1 <- load_cache Hidden1 ;;
  w_h1 <- load HiddenWeights1 ;;
  b2 <- load HiddenBias2 ;;
  z2 <- call (affine h1 w_h1 b2) ;;
  store_cache Hidden2 (relu z2) ;;
  h2 <- load_cache Hidden2 ;;
  w_h2 <- load HiddenWeights2 ;;
  b3 <- load OutputBias ;;
  z3 <- call (affine h2 w_h2 b3) ;;
  out <- call (softmax z3) ;;
  store_cache Output out ;;
  load_cache Output.

(** [backward] (lines 37-51) *)
Definition backward (X y output : ndarray F) (learning_rate : F)
  : method F unit :=
  output_error <- call (np_sub y output) ;;
  w_h2 <- load HiddenWeights2 ;;
  hidden2_error <- call (dot output_error (transpose w_h2)) ;;
  w_h1 <- load HiddenWeights1 ;;
  hidden1_error <- call (dot hidden2_error (transpose w_h1)) ;;

  h2 <- load_cache Hidden2 ;;
  hidden2_delta <- call (np_mul hidden2_error (relu_derivative h2)) ;;
  h1 <- load_cache Hidden1 ;;
  hidden1_delta <- call (np_mul hidden1_error (relu_derivative h1)) ;;

  h2 <- load_cache Hidden2 ;;
  g2 <- call (dot (transpose h2) output_error) ;;
  iadd_param HiddenWeights2 (scale learning_rate g2) ;;
  h1 <- load_cache Hidden1 ;;
  g1 <- call (dot (transpose h1) hidden2_delta) ;;
  iadd_param HiddenWeights1 (scale learning_rate g1) ;;
  g0 <- call (dot (transpose X) hidden1_delta) ;;
  iadd_param InputWeights (scale learning_rate g0) ;;

  iadd_param OutputBias (scale learning_rate (sum_axis0 output_error)) ;;
  iadd_param HiddenBias2 (scale learning_rate (sum_axis0 hidden2_delta)) ;;
  iadd_param HiddenBias1 (scale learning_rate (sum_axis0 hidden1_delta)).

(** The shapes [forward] needs: each layer takes what the one before it
    gives, each bias is one row as wide as its layer, and there is at
    least one output. *)
Definition fits (self : NeuralNetwork F) (X : ndarray F) : Prop :=
  ncols X = nrows (input_weights self) /\
  shape (hidden_bias1 self) = (1%nat, ncols (input_weights self)) /\
  ncols (input_weights self) = nrows (hidden_weights1 self) /\
  shape (hidden_bias2 self) = (1%nat, ncols (hidden_weights1 self)) /\
  ncols (hidden_weights1 self) = nrows (hidden_weights2 self) /\
  shape (output_bias self) = (1%nat, ncols (hidden_weights2 self)) /\
  (0 < ncols (hidden_weights2 self))%nat.

(** A call made on a network, and the network a sequence of calls
    leaves; a call that raises leaves the network as it was when it
    raised. *)
Inductive step : Type :=
| Forward (X : ndarray F)
| Backward (X y output : ndarray F) (learning_rate : F).

Definition run_step `{Exponential F} (self : NeuralNetwork F) (s : step)
  : NeuralNetwork F :=
  match s with
  | Forward X => snd (forward X self)
  | Backward X y output learning_rate =>
      snd (backward X y output learning_rate self)
  end.

Definition run_steps `{Exponential F} (steps : list step)
    (self : NeuralNetwork F) : NeuralNetwork F :=
  fold_left run_step steps self.

End Methods.

End NetworkCore.
(** ** The backward step in the words of the specification

    Section 4.3 of the specification describes the backward step as
    back-propagation: the output error is target - predicted; the error
    reaches a hidden layer through the weights above it and through the
    ReLU derivative of every layer on the way, 1 where the pre-activation
    is above 0 and 0 elsewhere; every weight matrix receives
    learning_rate times (activation transposed) dot (error or delta),
    every bias vector learning_rate times the column sums, added in
    place.  [gradient_step] is that description, written on lists of rows
    with its own matrix operations; it shares nothing with the model of
    NumPy and of [backward] but the arithmetic of the elements. *)

Module GradientStep.

Section Step.

Context {F : Type} `{Scalar F}.

Definition matrix : Type := list (list F).

Definition height (a : matrix) : nat := List.length a.

Definition width (a : matrix) : nat :=
  match a with
  | row :: _ => List.length row
  | [] => 0%nat
  end.

Definition entry (a : matrix) (i j : nat) : F := nth j (nth i a []) fzero.

Definition build (n m : nat) (f : nat -> nat -> F) : matrix :=
  map (fun i => map (f i) (seq 0 m)) (seq 0 n).

Definition total (l : list F) : F := fold_right fadd fzero l.

Definition product (a b : matrix) : matrix :=
  build (height a) (width b) (fun i j =>
    total (map (fun k => fmul (entry a i k) (entry b k j)) (seq 0 (height b)))).

Definition transposed (a : matrix) : matrix :=
  build (width a) (height a) (fun i j => entry a j i).

Definition pointwise (op : F -> F -> F) (a b : matrix) : matrix :=
  build (height a) (width a) (fun i j => op (entry a i j) (entry b i j)).

Definition column_sums (a : matrix) : matrix :=
  build 1 (width a) (fun _ j =>
    total (map (fun i => entry a i j) (seq 0 (height a)))).

Definition scaled (c : F) (a : matrix) : matrix := map (map (fmul c)) a.

(** ReLU and its derivative, on a pre-activation. *)
Definition positive_part (z : F) : F := if flt fzero z then z else fzero.

Definition derivative (z : F) : F := if flt fzero z then fone else fzero.

(** The pre-activation of a layer: inputs dot weights, plus the bias. *)
Definition pre_activation (x W b : matrix) : matrix :=
  build (height x) (width W) (fun i j =>
    fadd (entry (product x W) i j) (entry b 0 j)).

(** The three weight matrices and the three bias vectors. *)
Record NetworkParameters : Type := {
  weights1 : matrix;
  weights2 : matrix;
  weights3 : matrix;
  bias1 : matrix;
  bias2 : matrix;
  bias3 : matrix
}.

Definition gradient_step (batch target predicted : matrix) (learning_rate : F)
    (p : NetworkParameters) : NetworkParameters :=
  let z1 := pre_activation batch (weights1 p) (bias1 p) in
  let a1 := map (map positive_part) z1 in
  let z2 := pre_activation a1 (weights2 p) (bias2 p) in
  let a2 := map (map positive_part) z2 in
  let error_out := pointwise fsub target predicted in
  let delta2 :=
    pointwise fmul (product error_out (transposed (weights3 p)))
      (map (map derivative) z2) in
  let delta1 :=
    pointwise fmul (product delta2 (transposed (weights2 p)))
      (map (map derivative) z1) in
  let update w gradient := pointwise fadd w (scaled learning_rate gradient) in
  {| weights3 := update (weights3 p) (product (transposed a2) error_out);
     weights2 := update (weights2 p) (product (transposed a1) delta2);
     weights1 := update (weights1 p) (product (transposed batch) delta1);
     bias3 := update (bias3 p) (column_sums error_out);
     bias2 := update (bias2 p) (column_sums delta2);
     bias1 := update (bias1 p) (column_sums delta1) |}.

End Step.

Arguments NetworkParameters F : clear implicits.

(** The parameters of a network of the core, as lists of rows. *)
Definition parameters_of {F : Type} (self : NetworkCore.NeuralNetwork F)
  : NetworkParameters F :=
  {| weights1 := rows (NetworkCore.input_weights self);
     weights2 := rows (NetworkCore.hidden_weights1 self);
     weights3 := rows (NetworkCore.hidden_weights2 self);
     bias1 := rows (NetworkCore.hidden_bias1 self);
     bias2 := rows (NetworkCore.hidden_bias2 self);
     bias3 := rows (NetworkCore.output_bias self) |}.

End GradientStep.
(** ** Training controller: [NeuralNetwork.train] (trainer.py:53-78)

    The loop is written over any network core: [forward] and [backward]
    are the two methods it calls, [mean_square] is
    [np.mean(np.square(a - b))], [slice] is [a[i:j]], and the losses are
    compared with [<], starting from [float('inf')]. *)

Module TrainingController.

Section Train.

Context {net array F : Type}.

Variable forward : array -> net -> result array * net.
Variable backward : array -> array -> array -> F -> net -> result unit * net.
Variable mean_square : array -> array -> result F.
Variable slice : array -> nat -> nat -> array.
Variable len : array -> nat.
Variable loss_add : F -> F -> F.
Variable loss_zero : F.
Variable loss_lt : F -> F -> bool.
Variable inf : F.
(** [print(f"Epoch {epoch}, Loss: {epoch_loss/len(X)}, Val Loss: {val_loss}")]:
    the arguments are the epoch, [epoch_loss], [len(X)] and [val_loss].
    The division is part of it: [TrainerScript.print_report] is the
    [report] of the script. *)
Variable report : nat -> F -> nat -> F -> result unit.

(** [range(0, n, step)] *)
Definition range_step (n step : nat) : result (list nat) :=
  match step with
  | O => Raise (ValueError "range() arg 3 must not be zero")
  | S _ => Ok (map (fun q => q * step)%nat (seq 0 ((n + step - 1) / step)))
  end.

(** Lines 59-63, for the batch that starts at [i]. *)
Definition train_batch (X y : array) (learning_rate : F) (batch_size i : nat)
    (epoch_loss : F) (self : net) : result F * net :=
  let batch_X := slice X i (i + batch_size) in
  let batch_y := slice y i (i + batch_size) in
  match forward batch_X self with
  | (Raise e, self1) => (Raise e, self1)
  | (Ok output, self1) =>
      match backward batch_X batch_y output learning_rate self1 with
      | (Raise e, self2) => (Raise e, self2)
      | (Ok _, self2) =>
          match mean_square batch_y output with
          | Raise e => (Raise e, self2)
          | Ok l => (Ok (loss_add epoch_loss l), self2)
          end
      end
  end.

(** The loop of line 58 over the batch starts. *)
Fixpoint train_batches (X y : array) (learning_rate : F) (batch_size : nat)
    (starts : list nat) (epoch_loss : F) (self : net) : result F * net :=
  match starts with
  | [] => (Ok epoch_loss, self)
  | i :: rest =>
      match train_batch X y learning_rate batch_size i epoch_loss self with
      | (Raise e, self') => (Raise e, self')
      | (Ok epoch_loss', self') =>
          train_batches X y learning_rate batch_size rest epoch_loss' self'
      end
  end.

(** Lines 57-69: one epoch up to the validation loss it ends with. *)
Definition epoch_pass (X y X_val y_val : array) (learning_rate : F)
    (batch_size epoch : nat) (self : net) : result F * net :=
  match range_step (len X) batch_size with
  | Raise e => (Raise e, self)
  | Ok starts =>
      match train_batches X y learning_rate batch_size starts loss_zero self with
      | (Raise e, self1) => (Raise e, self1)
      | (Ok epoch_loss, self1) =>
          match forward X_val self1 with
          | (Raise e, self2) => (Raise e, self2)
          | (Ok val_output, self2) =>
              match mean_square y_val val_output with
              | Raise e => (Raise e, self2)
              | Ok val_loss =>
                  if (epoch mod 100 =? 0)%nat then
                    match report epoch epoch_loss (len X) val_loss with
                    | Raise e => (Raise e, self2)
                    | Ok _ => (Ok val_loss, self2)
                    end
                  else (Ok val_loss, self2)
              end
          end
      end
  end.

(** The two local variables of the early-stopping logic. *)
Record TrainingState : Type := {
  best_val_loss : F;
  patience_counter : Z
}.

Definition initial_state : TrainingState :=
  {| best_val_loss := inf; patience_counter := 0 |}.

(** Lines 71-75: the improvement check. *)
Definition improvement_check (ts : TrainingState) (val_loss : F) : TrainingState :=
  if loss_lt val_loss (best_val_loss ts)
  then {| best_val_loss := val_loss; patience_counter := 0 |}
  else {| best_val_loss := best_val_loss ts;
          patience_counter := patience_counter ts + 1 |}.

(** Lines 76-78: [break] is reached only on the branch that has just
    incremented the counter. *)
Definition stops_here (patience : Z) (ts : TrainingState) (val_loss : F) : bool :=
  negb (loss_lt val_loss (best_val_loss ts)) &&
  (patience <=? patience_counter ts + 1).

(** How the loop ends: at the [break], with the epoch it prints, or with
    the range exhausted. *)
Inductive outcome : Type :=
| EarlyStopping (epoch : nat)
| Exhausted.

(** The loop of line 56, from [epoch] on, for [remaining] more epochs. *)
Fixpoint train_loop (X y X_val y_val : array) (learning_rate : F)
    (batch_size : nat) (patience : Z) (remaining epoch : nat)
    (ts : TrainingState) (self : net) : result outcome * net :=
  match remaining with
  | O => (Ok Exhausted, self)
  | S remaining' =>
      match epoch_pass X y X_val y_val learning_rate batch_size epoch self with
      | (Raise e, self') => (Raise e, self')
      | (Ok val_loss, self') =>
          if stops_here patience ts val_loss
          then (Ok (EarlyStopping epoch), self')
          else train_loop X y X_val y_val learning_rate batch_size patience
                 remaining' (S epoch) (improvement_check ts val_loss) self'
      end
  end.

Definition train (X y X_val y_val : array) (epochs : nat) (learning_rate : F)
    (batch_size : nat) (patience : Z) (self : net) : result outcome * net :=
  train_loop X y X_val y_val learning_rate batch_size patience epochs 0
    initial_state self.

(** *** The run without the [break]

    The network before epoch [e] and the validation loss of epoch [e],
    when the epochs up to it run without an exception. *)
Fixpoint network_before (X y X_val y_val : array) (learning_rate : F)
    (batch_size e : nat) (self : net) : option net :=
  match e with
  | O => Some self
  | S e' =>
      match network_before X y X_val y_val learning_rate batch_size e' self with
      | Some self' =>
          match epoch_pass X y X_val y_val learning_rate batch_size e' self' with
          | (Ok _, self'') => Some self''
          | (Raise _, _) => None
          end
      | None => None
      end
  end.

Definition val_loss_at (X y X_val y_val : array) (learning_rate : F)
    (batch_size e : nat) (self : net) : option F :=
  match network_before X y X_val y_val learning_rate batch_size e self with
  | Some self' =>
      match epoch_pass X y X_val y_val learning_rate batch_size e self' with
      | (Ok val_loss, _) => Some val_loss
      | (Raise _, _) => None
      end
  | None => None
  end.

(** The training state before epoch [e] for the validation losses [v]. *)
Fixpoint state_before (v : nat -> F) (e : nat) : TrainingState :=
  match e with
  | O => initial_state
  | S e' => improvement_check (state_before v e') (v e')
  end.

(** Epoch [e] improves on the best validation loss so far. *)
Definition improves_at (v : nat -> F) (e : nat) : bool :=
  loss_lt (v e) (best_val_loss (state_before v e)).

(** The loop breaks at epoch [e]. *)
Definition breaks_at (patience : Z) (v : nat -> F) (e : nat) : bool :=
  stops_here patience (state_before v e) (v e).

End Train.

Arguments TrainingState F : clear implicits.

End TrainingController.
(** ** The rest of the script: batches, losses, predictions (trainer.py:53-162) *)

Module TrainerScript.

Import FeaturePipeline LabelEncoder NetworkCore TrainingController.

(** [len(a)] and [a[i:j]] on the first axis, for indices that are not
    negative: both ends are clipped to the length. *)
Definition len {A : Type} (a : ndarray A) : nat := nrows a.

Definition slice {A : Type} (a : ndarray A) (i j : nat) : ndarray A :=
  let stop := Nat.min j (nrows a) in
  let start := Nat.min i (nrows a) in
  NdArray (stop - start) (ncols a) (firstn (stop - start) (skipn start (rows a))).

(** A NumPy array is rectangular: it has as many rows as its shape says,
    each as long as the shape says. *)
Definition rectangular {A : Type} (a : ndarray A) : Prop :=
  List.length (rows a) = nrows a /\
  Forall (fun row => List.length row = ncols a) (rows a).

Section Script.

Context {F : Type} `{Scalar F}.

(** The arrays of [self] have the shapes [__init__] gives them for the
    four sizes. *)
Definition well_shaped (self : NeuralNetwork F) : Prop :=
  parameter_shapes self =
  [(input_size self, hidden_size1 self); (hidden_size1 self, hidden_size2 self);
   (hidden_size2 self, output_size self); (1%nat, hidden_size1 self);
   (1%nat, hidden_size2 self); (1%nat, output_size self)].

(** [np.square(a)] *)
Definition square (a : ndarray F) : ndarray F :=
  amap (fun v => fmul v v) a.

(** [np.mean(a)]: the sum of all entries divided by their number; of an
    empty array it is 0 / 0.  The entries are added here in index order;
    what is proved of the mean does not depend on the order. *)
Definition mean (a : ndarray F) : F :=
  fdiv (fsum (concat (rows a))) (of_int (Z.of_nat (nrows a * ncols a))).

(** [np.mean(np.square(a - b))] (lines 63 and 66) *)
Definition mean_square (a b : ndarray F) : result F :=
  let* d := np_sub a b in Ok (mean (square d)).

(** [np.argmax(a)]: the index, in the flattened array, of the first
    largest entry; the first NaN counts as the largest.  NumPy keeps the
    current maximum [mp] and moves on only when [x <= mp] holds. *)
Fixpoint argmax_loop (mp : F) (max_ind i : nat) (l : list F) : nat :=
  match l with
  | [] => max_ind
  | x :: l' =>
      if fle x mp then argmax_loop mp max_ind (S i) l'
      else if fisnan x then i
      else argmax_loop x i (S i) l'
  end.

Definition argmax (a : ndarray F) : result nat :=
  match concat (rows a) with
  | [] => Raise (ValueError "attempt to get argmax of an empty sequence")
  | x :: l => Ok (if fisnan x then O else argmax_loop x 0 1 l)
  end.

(** [unique_labels[np.argmax(sample_output)]] (lines 145 and 162) *)
Definition predicted_label (sample_output : ndarray F) : result string :=
  let* k := argmax sample_output in
  match unique_labels !! k with
  | Some label => Ok label
  | None => Raise (IndexError "index is out of bounds")
  end.

(** Lines 142-145: the prediction for sample [i] of [X]. *)
Definition sample_prediction `{Exponential F} (X : ndarray F) (i : nat)
  : method F string :=
  (sample_output <- forward (slice X i (i + 1)) ;;
   call (predicted_label sample_output))%method.

(** Lines 141-145: the loop over [range(min(5, len(X)))]. *)
Fixpoint sample_predictions `{Exponential F} (X : ndarray F) (indices : list nat)
  : method F (list string) :=
  match indices with
  | [] => ret []
  | i :: rest =>
      (label <- sample_prediction X i ;;
       labels <- sample_predictions X rest ;;
       ret (label :: labels))%method
  end.

Definition debug_predictions `{Exponential F} (X : ndarray F)
  : method F (list string) :=
  sample_predictions X (seq 0 (Nat.min 5 (len X))).

(** Lines 156-162: the prediction for the reading of a white surface. *)
Definition test_input : ndarray Z := np_array [[1794; 2164; 1742; 1996]].

Definition test_prediction `{Exponential F} : method F string :=
  (test_input_normalized <- call (normalize_data test_input) ;;
   test_output <- forward (feat_values test_input_normalized) ;;
   call (predicted_label test_output))%method.

(** Lines 107-109: the features and the targets of the samples of a log. *)
Definition prepare `{UnicodeData} (file : list (list char))
  : result (features F * ndarray F * list string) :=
  let '(input_data, labels) := parse_input file in
  let* X := normalize_data (np_array input_data) in
  let* encoded := one_hot_encode (map key_of labels) in
  Ok (X, fst encoded, snd encoded).

(** The [print] of line 69, which formats [epoch_loss/len(X)] and the
    validation loss.  With training samples, [epoch_loss] is a NumPy
    float by then and the division returns.  Without any, no batch has
    run: [epoch_loss] is still the integer 0 of line 57, and [0/0] raises
    [ZeroDivisionError]. *)
Definition print_report (epoch : nat) (epoch_loss : F) (n : nat) (val_loss : F)
  : result unit :=
  if (n =? 0)%nat then Raise (ZeroDivisionError "division by zero") else Ok tt.

(** [NeuralNetwork.train] on the network core.  [inf] is [float('inf')];
    [report] is the [print] of line 69: [print_report] in the script. *)
Definition fit `{Exponential F} (inf : F)
    (report : nat -> F -> nat -> F -> result unit)
    (X y X_val y_val : ndarray F)
    (epochs : nat) (learning_rate : F) (batch_size : nat) (patience : Z)
  : method F outcome :=
  train forward backward mean_square slice len fadd fzero flt inf report
    X y X_val y_val epochs learning_rate batch_size patience.

End Script.

End TrainerScript.
(** * Properties of the weight exporter *)

Section ExporterFacts.

Import WeightExporter.

(** ** Bit-level facts *)

Ltac divmod_lia := Z.div_mod_to_equations; lia.

Lemma lor_low_high (a b k : Z) :
  0 <= k -> 0 <= a < 2 ^ k -> Z.lor a (b * 2 ^ k) = a + b * 2 ^ k.
Proof.
  intros Hk Ha. symmetry. apply Z.add_nocarry_lor.
  apply Z.bits_inj'. intros n Hn.
  rewrite Z.land_spec, Z.bits_0.
  destruct (Z.ltb_spec n k) as [Hlt | Hge].
  - rewrite <- Z.shiftl_mul_pow2 by lia.
    rewrite Z.shiftl_spec_low by lia. apply andb_false_r.
  - assert (Z.testbit a n = false) as ->; [|reflexivity].
    destruct (Z.eq_dec a 0) as [-> | Hne]; [apply Z.bits_0|].
    apply Z.bits_above_log2; [lia|].
    apply Z.lt_le_trans with k; [|lia].
    apply Z.log2_lt_pow2; lia.
Qed.

Lemma float32_bits_arith (f : float32) :
  float32_wf f ->
  float32_bits f =
  f_fraction f + f_exponent f * 2 ^ 23 + Z.b2z (f_sign f) * 2 ^ 31.
Proof.
  intros [He Hf]. unfold float32_bits.
  rewrite !Z.shiftl_mul_pow2 by lia.
  rewrite (Z.lor_comm (f_exponent f * 2 ^ 23)).
  rewrite (lor_low_high (f_fraction f)) by lia.
  rewrite Z.lor_comm. apply lor_low_high; [lia|].
  destruct (f_sign f); lia.
Qed.

Lemma float32_bits_range (f : float32) :
  float32_wf f -> 0 <= float32_bits f < 2 ^ 32.
Proof.
  intros Hwf. rewrite float32_bits_arith by exact Hwf.
  destruct Hwf as [He Hf]. destruct (f_sign f); simpl Z.b2z; lia.
Qed.

Lemma unpack_pack_word (w : Z) :
  0 <= w < 2 ^ 32 ->
  unpack_I (Z.land w 255, Z.land (Z.shiftr w 8) 255,
            Z.land (Z.shiftr w 16) 255, Z.land (Z.shiftr w 24) 255) = w.
Proof.
  intros Hw. unfold unpack_I.
  change 255 with (Z.ones 8).
  rewrite !Z.land_ones, !Z.shiftr_div_pow2, !Z.shiftl_mul_pow2 by lia.
  set (b0 := w mod 2 ^ 8). set (b1 := (w / 2 ^ 8) mod 2 ^ 8).
  set (b2 := (w / 2 ^ 16) mod 2 ^ 8). set (b3 := (w / 2 ^ 24) mod 2 ^ 8).
  assert (0 <= b0 < 2 ^ 8) by (apply Z.mod_pos_bound; lia).
  assert (0 <= b1 < 2 ^ 8) by (apply Z.mod_pos_bound; lia).
  assert (0 <= b2 < 2 ^ 8) by (apply Z.mod_pos_bound; lia).
  assert (0 <= b3 < 2 ^ 8) by (apply Z.mod_pos_bound; lia).
  rewrite (lor_low_high (b2 * 2 ^ 16) b3 24) by lia.
  replace (b2 * 2 ^ 16 + b3 * 2 ^ 24) with ((b2 + b3 * 2 ^ 8) * 2 ^ 16) by lia.
  rewrite (lor_low_high (b1 * 2 ^ 8) _ 16) by lia.
  replace (b1 * 2 ^ 8 + (b2 + b3 * 2 ^ 8) * 2 ^ 16)
    with ((b1 + b2 * 2 ^ 8 + b3 * 2 ^ 16) * 2 ^ 8) by lia.
  rewrite (lor_low_high b0 _ 8) by lia.
  subst b0 b1 b2 b3.
  replace (w / 2 ^ 16) with (w / 2 ^ 8 / 2 ^ 8)
    by (rewrite Z.div_div by lia; reflexivity).
  replace (w / 2 ^ 24) with (w / 2 ^ 8 / 2 ^ 8 / 2 ^ 8)
    by (rewrite !Z.div_div by lia; reflexivity).
  divmod_lia.
Qed.

Lemma unpack_pack (f : float32) :
  float32_wf f -> unpack_I (pack_f f) = float32_bits f.
Proof.
  intros Hwf. unfold pack_f. cbv zeta.
  apply unpack_pack_word, float32_bits_range, Hwf.
Qed.

Lemma float32_of_bits_bits (f : float32) :
  float32_wf f -> float32_of_bits (float32_bits f) = f.
Proof.
  intros Hwf. pose proof (float32_bits_arith f Hwf) as Hb.
  destruct f as [s e m]. destruct Hwf as [He Hm]. simpl in *.
  unfold float32_of_bits. rewrite Hb.
  change 255 with (Z.ones 8).
  rewrite !Z.land_ones, !Z.shiftr_div_pow2, Z.testbit_eqb by lia.
  f_equal.
  - destruct s; simpl Z.b2z.
    + apply Z.eqb_eq. divmod_lia.
    + apply Z.eqb_neq. divmod_lia.
  - destruct s; simpl Z.b2z; divmod_lia.
  - destruct s; simpl Z.b2z; divmod_lia.
Qed.

Lemma float32_bits_of_bits (w : Z) :
  0 <= w < 2 ^ 32 ->
  float32_wf (float32_of_bits w) /\ float32_bits (float32_of_bits w) = w.
Proof.
  intros Hw.
  assert (float32_wf (float32_of_bits w)) as Hwf.
  { unfold float32_wf, float32_of_bits. cbn [f_exponent f_fraction].
    change 255 with (Z.ones 8). rewrite !Z.land_ones by lia.
    split; apply Z.mod_pos_bound; lia. }
  split; [exact Hwf|].
  rewrite float32_bits_arith by exact Hwf.
  unfold float32_of_bits. cbn [f_sign f_exponent f_fraction].
  change 255 with (Z.ones 8).
  rewrite !Z.land_ones, !Z.shiftr_div_pow2, Z.testbit_eqb by lia.
  replace (w / 2 ^ 31) with (w / 2 ^ 23 / 2 ^ 8)
    by (rewrite Z.div_div by lia; reflexivity).
  destruct (Z.eqb_spec ((w / 2 ^ 23 / 2 ^ 8) mod 2) 1); simpl Z.b2z;
    divmod_lia.
Qed.

(** ** [hex] and its inverse *)

Lemma hex_value_hex_digit (d : Z) :
  0 <= d < 16 -> hex_value (hex_digit d) = Some d.
Proof.
  intros Hd.
  assert (exists n : nat, (n < 16)%nat /\ d = Z.of_nat n) as (n & Hn & ->).
  { exists (Z.to_nat d). lia. }
  do 16 (destruct n as [|n]; [reflexivity|]). lia.
Qed.

Lemma hex_digit_in_alphabet (d : Z) : In (hex_digit d) hex_alphabet.
Proof.
  unfold hex_digit.
  destruct (Nat.lt_ge_cases (Z.to_nat d) (List.length hex_alphabet)) as [Hlt | Hge].
  - apply nth_In, Hlt.
  - rewrite nth_overflow by exact Hge. simpl. left. reflexivity.
Qed.

Lemma parse_hex_digits_snoc (l : list ascii) (c : ascii) (acc : Z) :
  parse_hex_digits acc (l ++ [c]) =
  match parse_hex_digits acc l with
  | Some v => match hex_value c with Some d => Some (16 * v + d) | None => None end
  | None => None
  end.
Proof.
  revert acc. induction l as [|a l IH]; intros acc; simpl.
  - destruct (hex_value c); reflexivity.
  - destruct (hex_value a); [apply IH | reflexivity].
Qed.

Lemma parse_hex_digits_hex_digits (fuel : nat) (n : Z) :
  0 <= n < 16 ^ Z.of_nat fuel ->
  parse_hex_digits 0 (hex_digits fuel n) = Some n.
Proof.
  revert n. induction fuel as [|k IH]; intros n Hn.
  - simpl in *. f_equal. lia.
  - cbn [hex_digits]. destruct (Z.ltb_spec n 16) as [Hlt | Hge].
    + cbn [parse_hex_digits]. rewrite hex_value_hex_digit by lia. f_equal; lia.
    + rewrite parse_hex_digits_snoc.
      rewrite Nat2Z.inj_succ, Z.pow_succ_r in Hn by lia.
      rewrite IH by (split; [apply Z.div_pos; lia | apply Z.div_lt_upper_bound; lia]).
      rewrite hex_value_hex_digit by (apply Z.mod_pos_bound; lia).
      f_equal; divmod_lia.
Qed.

Lemma hex_fuel_enough (n : Z) : 0 <= n -> n < 16 ^ Z.of_nat (hex_fuel n).
Proof.
  intros Hn. unfold hex_fuel.
  rewrite Nat2Z.inj_succ, Z2Nat.id by apply Z.log2_nonneg.
  destruct (Z.eq_dec n 0) as [-> | Hne]; [reflexivity|].
  apply Z.lt_le_trans with (2 ^ Z.succ (Z.log2 n)).
  - apply Z.log2_spec. lia.
  - apply Z.pow_le_mono_l. lia.
Qed.

Lemma hex_digits_length_le (k fuel : nat) (n : Z) :
  (1 <= k)%nat -> 0 <= n < 16 ^ Z.of_nat k ->
  (List.length (hex_digits fuel n) <= k)%nat.
Proof.
  revert k n. induction fuel as [|fuel IH]; intros k n Hk Hn; [simpl; lia|].
  cbn [hex_digits]. destruct (Z.ltb_spec n 16) as [Hlt | Hge]; [simpl; lia|].
  rewrite length_app. simpl.
  destruct k as [|[|k]]; [lia | simpl in Hn; lia |].
  rewrite Nat2Z.inj_succ, Z.pow_succ_r in Hn by lia.
  specialize (IH (S k) (n / 16)).
  assert (0 <= n / 16 < 16 ^ Z.of_nat (S k)).
  { split; [apply Z.div_pos; lia | apply Z.div_lt_upper_bound; lia]. }
  lia.
Qed.

Lemma hex_digits_length_ge (k fuel : nat) (n : Z) :
  16 ^ Z.of_nat k <= n < 16 ^ Z.of_nat fuel ->
  (S k <= List.length (hex_digits fuel n))%nat.
Proof.
  revert k n. induction fuel as [|fuel IH]; intros k n Hn.
  - simpl in Hn. assert (0 < 16 ^ Z.of_nat k) by (apply Z.pow_pos_nonneg; lia). lia.
  - cbn [hex_digits]. destruct (Z.ltb_spec n 16) as [Hlt | Hge].
    + destruct k as [|k]; [simpl; lia|].
      rewrite Nat2Z.inj_succ, Z.pow_succ_r in Hn by lia.
      assert (0 < 16 ^ Z.of_nat k) by (apply Z.pow_pos_nonneg; lia). lia.
    + rewrite length_app. simpl.
      destruct k as [|k]; [lia|].
      rewrite !Nat2Z.inj_succ, !Z.pow_succ_r in Hn by lia.
      specialize (IH k (n / 16)).
      assert (16 ^ Z.of_nat k <= n / 16 < 16 ^ Z.of_nat fuel).
      { split; [apply Z.div_le_lower_bound; lia | apply Z.div_lt_upper_bound; lia]. }
      lia.
Qed.

Lemma hex_digits_nonempty (fuel : nat) (n : Z) :
  hex_digits (S fuel) n <> [].
Proof.
  cbn [hex_digits]. destruct (n <? 16); [discriminate|].
  destruct (hex_digits fuel (n / 16)); discriminate.
Qed.

Lemma hex_nonneg (n : Z) :
  0 <= n ->
  exists d ds, hex n = "0"%char :: "x"%char :: d :: ds /\
               d :: ds = hex_digits (hex_fuel n) n.
Proof.
  intros Hn. unfold hex.
  destruct (Z.ltb_spec n 0) as [Hlt | _]; [lia|].
  pose proof (hex_digits_nonempty (Z.to_nat (Z.log2 n)) n) as Hne.
  fold (hex_fuel n) in Hne.
  destruct (hex_digits (hex_fuel n) n) as [|d ds]; [congruence|].
  exists d, ds. split; reflexivity.
Qed.

Lemma parse_hex_literal_hex (n : Z) :
  0 <= n -> parse_hex_literal (hex n) = Some n.
Proof.
  intros Hn. destruct (hex_nonneg n Hn) as (d & ds & -> & Hds).
  unfold parse_hex_literal. rewrite Hds.
  apply parse_hex_digits_hex_digits. split; [lia | apply hex_fuel_enough, Hn].
Qed.

Lemma hex_to_float_float_to_hex (f : float32) :
  float32_wf f -> hex_to_float (float_to_hex f) = Some f.
Proof.
  intros Hwf. unfold hex_to_float, float_to_hex.
  pose proof (float32_bits_range f Hwf) as Hr.
  rewrite unpack_pack by exact Hwf.
  rewrite parse_hex_literal_hex by lia.
  destruct (Z.ltb_spec (float32_bits f) (2 ^ 32)) as [_ | Hge]; [|lia].
  f_equal. apply float32_of_bits_bits, Hwf.
Qed.

(** ** Which value is 1.0f *)

Lemma Qpower_2_nonneg (k : Z) : 0 <= k -> (Qpower 2 k == inject_Z (2 ^ k))%Q.
Proof. intros Hk. symmetry. apply (Zpower_Qpower 2 k Hk). Qed.

Lemma Qpower_2_neg (k : Z) :
  0 <= k -> (Qpower 2 (- k) == / inject_Z (2 ^ k))%Q.
Proof.
  intros Hk. rewrite Qpower_opp, Qpower_2_nonneg by exact Hk. reflexivity.
Qed.

Lemma Qinv_pow2_eq (a k : Z) :
  0 <= k -> (inject_Z a * / inject_Z (2 ^ k) == 1)%Q -> a = 2 ^ k.
Proof.
  intros Hk H.
  assert (0 < 2 ^ k) as Hpos by (apply Z.pow_pos_nonneg; lia).
  assert (~ (inject_Z (2 ^ k) == 0)%Q) as Hnz.
  { change 0%Q with (inject_Z 0). rewrite inject_Z_injective. lia. }
  apply (Qmult_inj_r _ _ (inject_Z (2 ^ k))) in H; [|exact Hnz].
  rewrite <- Qmult_assoc, (Qmult_comm (/ _)), Qmult_inv_r, Qmult_1_r, Qmult_1_l in H
    by exact Hnz.
  rewrite inject_Z_injective in H. exact H.
Qed.

Lemma inject_Z_nonneg (z : Z) : 0 <= z -> (0 <= inject_Z z)%Q.
Proof. intros H. change 0%Q with (inject_Z 0). rewrite <- Zle_Qle. exact H. Qed.

Lemma inject_Z_pos (z : Z) : 0 < z -> (0 < inject_Z z)%Q.
Proof. intros H. change 0%Q with (inject_Z 0). rewrite <- Zlt_Qlt. exact H. Qed.

Lemma float32_value_one (f : float32) (q : Q) :
  float32_wf f -> float32_value f = Some q -> (q == 1)%Q -> f = one_f.
Proof.
  intros [He Hm] Hv Hq. destruct f as [s e m].
  unfold float32_value in Hv. cbn [f_sign f_exponent f_fraction] in *.
  destruct (Z.eqb_spec e 255) as [|Hne255]; [discriminate|].
  assert (0 <= inject_Z m)%Q as Hm0 by (apply inject_Z_nonneg; lia).
  assert (0 < inject_Z (2 ^ 23 + m))%Q as Hs0 by (apply inject_Z_pos; lia).
  destruct (Z.eqb_spec e 0) as [He0 | Hne0];
    apply (f_equal (fun o => match o with Some x => x | None => q end)) in Hv;
    cbv beta iota in Hv; subst q.
  - (* subnormal: m * 2^-149 is below 1 *)
    exfalso. change (-149) with (Z.opp 149) in Hq.
    rewrite Qpower_2_neg in Hq by lia.
    destruct s.
    + assert (0 <= inject_Z m * / inject_Z (2 ^ 149))%Q as Hge.
      { apply Qmult_le_0_compat; [exact Hm0|].
        apply Qinv_le_0_compat, inject_Z_nonneg. lia. }
      set (x := (inject_Z m * / inject_Z (2 ^ 149))%Q) in *. clearbody x.
      clear - Hq Hge. Lqa.lra.
    + rewrite Qmult_1_l in Hq. apply Qinv_pow2_eq in Hq; lia.
  - destruct s.
    + exfalso.
      assert (0 < Qpower 2 (e - 150))%Q as Hp by (apply Qpower_0_lt; reflexivity).
      pose proof (Qmult_lt_0_compat _ _ Hs0 Hp) as Hx.
      set (x := (inject_Z (2 ^ 23 + m) * Qpower 2 (e - 150))%Q) in *.
      clearbody x. clear - Hq Hx. Lqa.lra.
    + rewrite Qmult_1_l in Hq.
      destruct (Z.le_gt_cases 150 e) as [Hbig | Hsmall].
      * exfalso. rewrite Qpower_2_nonneg in Hq by lia.
        rewrite <- inject_Z_mult in Hq.
        change 1%Q with (inject_Z 1) in Hq. rewrite inject_Z_injective in Hq.
        assert (0 < 2 ^ (e - 150)) by (apply Z.pow_pos_nonneg; lia). nia.
      * replace (e - 150) with (- (150 - e)) in Hq by lia.
        rewrite Qpower_2_neg in Hq by lia.
        apply Qinv_pow2_eq in Hq; [|lia].
        assert (150 - e = 23) as He23.
        { destruct (Z.lt_trichotomy (150 - e) 23) as [Hlt | [Heq | Hgt]]; [|exact Heq|].
          - assert (2 ^ (150 - e) < 2 ^ 23) by (apply Z.pow_lt_mono_r; lia). lia.
          - assert (2 ^ 24 <= 2 ^ (150 - e)) by (apply Z.pow_le_mono_r; lia). lia. }
        rewrite He23 in Hq. unfold one_f. f_equal; lia.
Qed.

(** ** Text of the exported lines *)

Lemma hex_digits_in_alphabet (fuel : nat) (n : Z) :
  Forall (fun c => In c hex_alphabet) (hex_digits fuel n).
Proof.
  revert n. induction fuel as [|k IH]; intros n; cbn [hex_digits].
  - constructor.
  - destruct (n <? 16).
    + constructor; [apply hex_digit_in_alphabet | constructor].
    + apply Forall_app. split; [apply IH|].
      constructor; [apply hex_digit_in_alphabet | constructor].
Qed.

Definition literal_char (c : ascii) : Prop :=
  c <> ","%char /\ c <> " "%char.

Lemma alphabet_literal_char (c : ascii) :
  In c ("x"%char :: hex_alphabet) -> literal_char c.
Proof.
  intros H. simpl in H.
  repeat (destruct H as [<- | H]; [split; discriminate|]). contradiction.
Qed.

Lemma float_to_hex_shape (f : float32) :
  float32_wf f ->
  exists d ds,
    float_to_hex f = "0"%char :: "x"%char :: d :: ds /\
    d :: ds = hex_digits (hex_fuel (float32_bits f)) (float32_bits f) /\
    Forall literal_char (float_to_hex f).
Proof.
  intros Hwf. pose proof (float32_bits_range f Hwf) as Hr.
  unfold float_to_hex. rewrite unpack_pack by exact Hwf.
  destruct (hex_nonneg (float32_bits f)) as (d & ds & Hhex & Hds); [lia|].
  exists d, ds. split; [exact Hhex|]. split; [exact Hds|].
  rewrite Hhex, Hds.
  constructor; [split; discriminate|]. constructor; [split; discriminate|].
  eapply List.Forall_impl; [|apply hex_digits_in_alphabet].
  intros c Hc. apply alphabet_literal_char. right. exact Hc.
Qed.

Lemma split_on_nonempty (sep : ascii) (s : list ascii) :
  exists t ts, split_on sep s = t :: ts.
Proof.
  destruct s as [|c s]; simpl; [eauto|].
  destruct (Ascii.eqb c sep); [eauto|].
  destruct (split_on sep s); eauto.
Qed.

Lemma split_on_cons_ne (sep c : ascii) (s : list ascii) :
  c <> sep ->
  exists t ts, split_on sep s = t :: ts /\
               split_on sep (c :: s) = (c :: t) :: ts.
Proof.
  intros Hne. destruct (split_on_nonempty sep s) as (t & ts & Hs).
  exists t, ts. split; [exact Hs|].
  simpl. destruct (Ascii.eqb_spec c sep) as [|_]; [contradiction|].
  rewrite Hs. reflexivity.
Qed.

Lemma split_on_no_sep (sep : ascii) (t : list ascii) :
  Forall (fun c => c <> sep) t -> split_on sep t = [t].
Proof.
  induction 1 as [|c t Hc _ IH]; [reflexivity|].
  simpl. destruct (Ascii.eqb_spec c sep) as [|_]; [contradiction|].
  rewrite IH. reflexivity.
Qed.

Lemma split_on_app_sep (sep : ascii) (t s : list ascii) :
  Forall (fun c => c <> sep) t ->
  split_on sep (t ++ sep :: s) = t :: split_on sep s.
Proof.
  induction 1 as [|c t Hc _ IH]; simpl.
  - rewrite Ascii.eqb_refl. reflexivity.
  - destruct (Ascii.eqb_spec c sep) as [|_]; [contradiction|].
    rewrite IH. reflexivity.
Qed.

Lemma strip_prefix_app (p s : list ascii) : strip_prefix p (p ++ s) = Some s.
Proof.
  induction p as [|a p IH]; simpl; [destruct s; reflexivity|].
  rewrite Ascii.eqb_refl. exact IH.
Qed.

Lemma strip_suffix_app (p s : list ascii) : strip_suffix p (s ++ p) = Some s.
Proof.
  unfold strip_suffix. rewrite rev_app_distr, strip_prefix_app. simpl.
  rewrite rev_involutive. reflexivity.
Qed.

Lemma read_entries_space (s : list ascii) :
  read_entries (" "%char :: s) = read_entries s.
Proof.
  unfold read_entries.
  destruct (split_on_cons_ne ","%char " "%char s) as (t & ts & -> & ->);
    [discriminate|].
  reflexivity.
Qed.

Lemma lstrip_literal (f : float32) :
  float32_wf f -> lstrip (float_to_hex f) = float_to_hex f.
Proof.
  intros Hwf. destruct (float_to_hex_shape f Hwf) as (d & ds & -> & _).
  reflexivity.
Qed.

Lemma read_entries_cons (x : float32) (s : list ascii) :
  float32_wf x ->
  read_entries (float_to_hex x ++ ","%char :: " "%char :: s) =
  option_map (cons x) (read_entries s).
Proof.
  intros Hx.
  assert (Forall (fun c => c <> ","%char) (float_to_hex x)) as Hnc.
  { destruct (float_to_hex_shape x Hx) as (_ & _ & _ & _ & Hl).
    eapply List.Forall_impl; [|exact Hl]. intros c [Hc _]. exact Hc. }
  rewrite <- (read_entries_space s).
  unfold read_entries. rewrite split_on_app_sep by exact Hnc.
  cbn [map sequence].
  rewrite lstrip_literal, hex_to_float_float_to_hex by exact Hx.
  reflexivity.
Qed.

Lemma read_entries_single (x : float32) :
  float32_wf x -> read_entries (float_to_hex x) = Some [x].
Proof.
  intros Hx.
  assert (Forall (fun c => c <> ","%char) (float_to_hex x)) as Hnc.
  { destruct (float_to_hex_shape x Hx) as (_ & _ & _ & _ & Hl).
    eapply List.Forall_impl; [|exact Hl]. intros c [Hc _]. exact Hc. }
  unfold read_entries. rewrite split_on_no_sep by exact Hnc.
  cbn [map sequence].
  rewrite lstrip_literal, hex_to_float_float_to_hex by exact Hx.
  reflexivity.
Qed.

Lemma read_entries_join (row : list float32) :
  row <> [] -> Forall float32_wf row ->
  read_entries (join (text ", ") (map float_to_hex row)) = Some row.
Proof.
  intros Hne Hwf. induction Hwf as [|x row Hx Hrow IH]; [congruence|].
  destruct row as [|y row].
  - apply read_entries_single, Hx.
  - change (join (text ", ") (map float_to_hex (x :: y :: row)))
      with (float_to_hex x ++
            ","%char :: " "%char :: join (text ", ") (map float_to_hex (y :: row))).
    rewrite read_entries_cons by exact Hx.
    rewrite IH by discriminate. reflexivity.
Qed.

Lemma read_row_line_row_line (row : list float32) :
  row <> [] -> Forall float32_wf row ->
  read_row_line (row_line row) = Some row.
Proof.
  intros Hne Hwf. unfold read_row_line, row_line.
  rewrite strip_prefix_app, strip_suffix_app.
  apply read_entries_join; assumption.
Qed.

Lemma float_to_hex_digits (f : float32) :
  float32_wf f ->
  exists ds,
    float_to_hex f = "0"%char :: "x"%char :: ds /\
    parse_hex_digits 0 ds = Some (float32_bits f) /\
    (1 <= List.length ds <= 8)%nat /\
    (List.length ds = 8%nat <-> 2 ^ 28 <= float32_bits f).
Proof.
  intros Hwf. pose proof (float32_bits_range f Hwf) as Hr.
  destruct (float_to_hex_shape f Hwf) as (d & ds & Hhex & Hds & _).
  pose proof (hex_fuel_enough (float32_bits f) ltac:(lia)) as Hfuel.
  exists (d :: ds). split; [exact Hhex|]. rewrite Hds.
  split; [apply parse_hex_digits_hex_digits; lia|].
  assert (List.length (hex_digits (hex_fuel (float32_bits f)) (float32_bits f)) <= 8)%nat
    as Hle by (apply hex_digits_length_le; [lia | exact Hr]).
  split; [split; [rewrite <- Hds; simpl; lia | exact Hle]|].
  split.
  - intros Hlen. destruct (Z.le_gt_cases (2 ^ 28) (float32_bits f)) as [|Hlt]; [assumption|].
    exfalso.
    assert (List.length (hex_digits (hex_fuel (float32_bits f)) (float32_bits f)) <= 7)%nat
      by (apply hex_digits_length_le; [lia | split; [lia | exact Hlt]]).
    lia.
  - intros Hge.
    assert (8 <= List.length (hex_digits (hex_fuel (float32_bits f)) (float32_bits f)))%nat
      by (apply (hex_digits_length_ge 7); split; [exact Hge | exact Hfuel]).
    lia.
Qed.

(** ** The claims on the exporter *)

(** C1.  Encoding a float32 with [float_to_hex] (pack as little-endian
    float32, reinterpret the bytes as an unsigned 32-bit integer, render
    it with [hex]) and decoding the literal back gives a value with the
    same sign, exponent and fraction bits; and a parameter whose value is
    1 is emitted as the literal 0x3f800000. *)
Theorem float_to_hex_round_trip (f : float32) :
  float32_wf f ->
  hex_to_float (float_to_hex f) = Some f /\
  (forall q : Q, float32_value f = Some q -> (q == 1)%Q ->
     float_to_hex f = text "0x3f800000").
Proof.
  intros Hwf. split; [apply hex_to_float_float_to_hex, Hwf|].
  intros q Hv Hq. rewrite (float32_value_one f q Hwf Hv Hq). reflexivity.
Qed.

Lemma float_to_hex_round_trip_witness :
  float32_wf one_f /\
  hex_to_float (float_to_hex one_f) = Some one_f /\
  float_to_hex one_f = text "0x3f800000".
Proof.
  assert (float32_wf one_f) as Hwf by (unfold float32_wf; simpl; lia).
  split; [exact Hwf|].
  destruct (float_to_hex_round_trip one_f Hwf) as [Hrt Hone].
  split; [exact Hrt|].
  apply (Hone (8388608 # 8388608)%Q); reflexivity.
Defined.

(** C6, as the specification states it, fails on a parameter equal to
    +0.0: [hex] pads nothing, so the entry is the three characters 0x0. *)
Lemma zero_entry_is_not_eight_digits :
  float32_wf zero_f /\
  float_to_hex zero_f = text "0x0" /\
  ~ eight_digit_literal (float_to_hex zero_f).
Proof.
  split; [unfold float32_wf; simpl; lia|].
  split; [reflexivity|].
  intros (ds & Heq & Hlen & _).
  change (float_to_hex zero_f) with ("0"%char :: "x"%char :: ["0"%char]) in Heq.
  injection Heq as <-. discriminate Hlen.
Qed.

(** C6, amended.  For every parameter of an exported tensor the entry is
    [0x] followed by the hexadecimal digits, without padding, of the
    value's IEEE-754 single-precision bit pattern: between one and eight
    digits, eight exactly when the pattern is at least 0x10000000.  A
    weight matrix is printed as its declaration, one brace-enclosed line
    per row in row order and a closing line, and reading each line back
    gives the row; a bias vector is one line holding its entries in
    order. *)
Theorem export_entries_and_rows (m : list (list float32)) :
  Forall (fun row => row <> [] /\ Forall float32_wf row) m ->
  (forall row f, In row m -> In f row ->
     exists ds,
       float_to_hex f = "0"%char :: "x"%char :: ds /\
       parse_hex_digits 0 ds = Some (float32_bits f) /\
       (1 <= List.length ds <= 8)%nat /\
       (List.length ds = 8%nat <-> 2 ^ 28 <= float32_bits f)) /\
  (forall decl, matrix_block decl m = decl :: map row_line m ++ [text "};"]) /\
  map read_row_line (map row_line m) = map Some m /\
  (m <> [] -> forall decl, exists body,
     vector_line decl m = decl ++ body ++ text "};" /\
     read_entries body = Some (flatten m)).
Proof.
  intros Hm. rewrite List.Forall_forall in Hm.
  split; [|split; [|split]].
  - intros row f Hrow Hf. apply float_to_hex_digits.
    destruct (Hm row Hrow) as [_ Hwf]. rewrite List.Forall_forall in Hwf.
    apply Hwf, Hf.
  - intros decl. reflexivity.
  - rewrite map_map. apply map_ext_in. intros row Hrow.
    destruct (Hm row Hrow) as [Hne Hwf].
    apply read_row_line_row_line; assumption.
  - intros Hne decl.
    exists (join (text ", ") (map float_to_hex (flatten m))).
    split; [reflexivity|].
    apply read_entries_join.
    + unfold flatten. destruct m as [|row m']; [congruence|].
      destruct (Hm row (or_introl eq_refl)) as [Hrow _].
      destruct row; [congruence | discriminate].
    + unfold flatten. apply List.Forall_forall. intros f Hf.
      apply in_concat in Hf. destruct Hf as (row & Hrow & Hf).
      destruct (Hm row Hrow) as [_ Hwf]. rewrite List.Forall_forall in Hwf.
      apply Hwf, Hf.
Qed.

Lemma export_entries_and_rows_witness :
  map read_row_line (map row_line [[one_f; zero_f]]) = map Some [[one_f; zero_f]].
Proof.
  assert (Forall (fun row => row <> [] /\ Forall float32_wf row) [[one_f; zero_f]])
    as Hm.
  { repeat constructor; try discriminate; simpl; lia. }
  exact (proj1 (proj2 (proj2 (export_entries_and_rows [[one_f; zero_f]] Hm)))).
Defined.

End ExporterFacts.
(** * Properties of the array operations *)

Section ArrayFacts.

Context {A : Type}.

Lemma nth_map_seq (d : A) (f : nat -> A) (n i : nat) :
  (i < n)%nat -> nth i (map f (seq 0 n)) d = f i.
Proof.
  intros Hi. rewrite (nth_indep _ d (f O)) by (rewrite length_map, length_seq; exact Hi).
  rewrite (map_nth f (seq 0 n) O i), seq_nth by exact Hi. reflexivity.
Qed.

Lemma get_tabulate (d : A) (n m : nat) (f : nat -> nat -> A) (i j : nat) :
  (i < n)%nat -> (j < m)%nat -> get d (tabulate n m f) i j = f i j.
Proof.
  intros Hi Hj. unfold get, tabulate. cbn [rows].
  rewrite (nth_indep _ [] (map (fun j => f O j) (seq 0 m)))
    by (rewrite length_map, length_seq; exact Hi).
  rewrite (map_nth (fun i => map (fun j => f i j) (seq 0 m)) (seq 0 n) O i).
  rewrite seq_nth by exact Hi. apply nth_map_seq, Hj.
Qed.

Lemma tabulate_row (n m : nat) (f : nat -> nat -> A) (i : nat) (row : list A) :
  rows (tabulate n m f) !! i = Some row ->
  (i < n)%nat /\ row = map (fun j => f i j) (seq 0 m).
Proof.
  unfold tabulate. cbn [rows]. intros Hrow.
  rewrite list_lookup_fmap in Hrow.
  destruct (seq 0 n !! i) as [i'|] eqn:Hi; [|discriminate].
  apply lookup_seq in Hi. destruct Hi as [-> Hlt].
  injection Hrow as <-. split; [exact Hlt | reflexivity].
Qed.

Lemma get_np_array (d : A) (l : list (list A)) (i j : nat) (row : list A) (x : A) :
  l !! i = Some row -> row !! j = Some x -> get d (np_array l) i j = x.
Proof.
  intros Hrow Hx. unfold get, np_array.
  destruct l as [|r l']; [discriminate|]. cbn [rows].
  rewrite (nth_lookup_Some _ _ _ _ Hrow). apply (nth_lookup_Some _ _ _ _ Hx).
Qed.

Lemma broadcast_dim_one (n : nat) : broadcast_dim n 1 = Some n.
Proof.
  unfold broadcast_dim. destruct (Nat.eqb_spec n 1) as [->|_]; reflexivity.
Qed.

Lemma broadcast_dim_same (n : nat) : broadcast_dim n n = Some n.
Proof. unfold broadcast_dim. rewrite Nat.eqb_refl. reflexivity. Qed.

Lemma broadcast_index_lt (n i : nat) : (i < n)%nat -> broadcast_index n i = i.
Proof.
  intros Hi. unfold broadcast_index.
  destruct (Nat.eqb_spec n 1); [lia | reflexivity].
Qed.

End ArrayFacts.
(** * Properties of the feature pipeline *)

Section PipelineFacts.

Import FeaturePipeline.

Context {U : UnicodeData} {L : UnicodeLaws U}.

(** ** Runs of a character class *)

Lemma take_drop_class (cls : charclass) (s : list char) :
  take_class cls s ++ drop_class cls s = s.
Proof.
  induction s as [|c s IH]; simpl; [reflexivity|].
  destruct (in_class cls c); simpl; [f_equal; exact IH | reflexivity].
Qed.

Lemma take_class_all (cls : charclass) (s : list char) :
  Forall (fun c => in_class cls c = true) (take_class cls s).
Proof.
  induction s as [|c s IH]; simpl; [constructor|].
  destruct (in_class cls c) eqn:Hc; constructor; assumption.
Qed.

Lemma drop_class_stops (cls : charclass) (s : list char) :
  stops cls (drop_class cls s).
Proof.
  induction s as [|c s IH]; simpl; [exact I|].
  destruct (in_class cls c) eqn:Hc; [exact IH | exact Hc].
Qed.

Lemma take_class_nil (cls : charclass) (s : list char) :
  take_class cls s = [] -> drop_class cls s = s.
Proof.
  destruct s as [|c s]; simpl; [reflexivity|].
  destruct (in_class cls c); [discriminate | reflexivity].
Qed.

Lemma take_class_app (cls : charclass) (g rest : list char) :
  Forall (fun c => in_class cls c = true) g ->
  take_class cls (g ++ rest) = g ++ take_class cls rest /\
  drop_class cls (g ++ rest) = drop_class cls rest.
Proof.
  induction 1 as [|c g Hc _ [IH1 IH2]]; simpl; [split; reflexivity|].
  rewrite Hc, IH1, IH2. split; reflexivity.
Qed.

Lemma take_class_stops (cls : charclass) (s : list char) :
  stops cls s -> take_class cls s = [] /\ drop_class cls s = s.
Proof.
  destruct s as [|c s]; simpl; [split; reflexivity|].
  intros ->. split; reflexivity.
Qed.

Lemma take_class_exact (cls : charclass) (g rest : list char) :
  Forall (fun c => in_class cls c = true) g -> stops cls rest ->
  take_class cls (g ++ rest) = g /\ drop_class cls (g ++ rest) = rest.
Proof.
  intros Hg Hrest.
  destruct (take_class_app cls g rest Hg) as [-> ->].
  destruct (take_class_stops cls rest Hrest) as [-> ->].
  rewrite app_nil_r. split; reflexivity.
Qed.

(** ** The greedy loop takes the whole run *)

Lemma plus_loop_greedy (cls : charclass)
    (k : list char -> list char -> option (list (list char)))
    (taken s : list char) :
  (forall g c rest, in_class cls c = true -> k g (c :: rest) = None) \/
  (forall g rest, k g rest <> None) ->
  plus_loop cls k taken s =
  match take_class cls s with
  | [] => None
  | run => k (taken ++ run) (drop_class cls s)
  end.
Proof.
  intros Hk. revert taken.
  induction s as [|c s IH]; intros taken; simpl; [reflexivity|].
  destruct (in_class cls c) eqn:Hc; [|reflexivity].
  rewrite IH.
  destruct (take_class cls s) as [|d run] eqn:Hrun.
  - rewrite (take_class_nil cls s Hrun). reflexivity.
  - rewrite <- app_assoc. simpl.
    destruct (k (taken ++ c :: d :: run) (drop_class cls s)) eqn:Hres;
      [reflexivity|].
    destruct Hk as [Hfail | Htotal]; [|exfalso; exact (Htotal _ _ Hres)].
    destruct s as [|d' s']; [discriminate|].
    simpl in Hrun. destruct (in_class cls d') eqn:Hd; [|discriminate].
    apply Hfail, Hd.
Qed.

(** ** Patterns made of literal segments, each followed by a group *)

Definition segment : Type := list char * charclass.

Definition pattern_of (segs : list segment) : regex :=
  flat_map (fun seg => map Chr (fst seg) ++ [PlusGroup (snd seg)]) segs.

Definition sample_segments : list segment :=
  [(str "Red: ", Digit); (str ", Green: ", Digit); (str ", Blue: ", Digit);
   (str ", Clear: ", Digit); (str ", Color: ", Word)].

Lemma sample_pattern_segments : sample_pattern = pattern_of sample_segments.
Proof. reflexivity. Qed.

(** The text of the literals with the groups filled in. *)
Fixpoint text_of (segs : list segment) (gs : list (list char)) : list char :=
  match segs, gs with
  | seg :: segs', g :: gs' => fst seg ++ g ++ text_of segs' gs'
  | _, _ => []
  end.

Lemma sample_text_segments (r g b c w : list char) :
  sample_text r g b c w = text_of sample_segments [r; g; b; c; w].
Proof.
  unfold sample_text, sample_segments. cbn [text_of fst].
  rewrite app_nil_r. reflexivity.
Qed.

(** The rest of [s] after the literal [p]. *)
Fixpoint strip_literal (p s : list char) : option (list char) :=
  match p, s with
  | [], _ => Some s
  | a :: p', b :: s' => if (a =? b)%N then strip_literal p' s' else None
  | _ :: _, [] => None
  end.

Lemma strip_literal_app (p s : list char) : strip_literal p (p ++ s) = Some s.
Proof.
  induction p as [|a p IH]; simpl; [reflexivity|].
  rewrite N.eqb_refl. exact IH.
Qed.

(** A matcher without backtracking: after each literal, the whole run of
    the class. *)
Fixpoint match_segments (segs : list segment) (s : list char)
  : option (list (list char)) :=
  match segs with
  | [] => Some []
  | seg :: rest =>
      match strip_literal (fst seg) s with
      | None => None
      | Some s1 =>
          match take_class (snd seg) s1 with
          | [] => None
          | run => option_map (cons run) (match_segments rest (drop_class (snd seg) s1))
          end
      end
  end.

(** Every literal that follows a group starts outside the group's class,
    so giving characters back never helps. *)
Fixpoint separated (segs : list segment) : Prop :=
  match segs with
  | [] => True
  | seg :: rest =>
      match rest with
      | [] => True
      | next :: _ => fst next <> [] /\ stops (snd seg) (fst next)
      end /\ separated rest
  end.

Definition stops_after (segs : list segment) (post : list char) : Prop :=
  match last segs with
  | Some seg => stops (snd seg) post
  | None => True
  end.

(** The characters of the ASCII range, by their codes. *)
Definition ascii_digit (c : char) : bool := ((48 <=? c) && (c <=? 57))%N.

Definition ascii_word (c : char) : bool :=
  (ascii_digit c || (65 <=? c) && (c <=? 90) || (97 <=? c) && (c <=? 122) ||
   (c =? 95))%N.

Definition ascii_class (cls : charclass) (c : char) : bool :=
  (c <? 128)%N &&
  match cls with
  | Digit => ascii_digit c
  | Word => ascii_word c
  end.

Lemma in_class_ascii (cls : charclass) (c : char) :
  (c < 128)%N -> in_class cls c = ascii_class cls c.
Proof.
  intros Hc. unfold ascii_class. rewrite (proj2 (N.ltb_lt c 128) Hc).
  cbn [andb]. destruct cls; cbn [in_class]; unfold is_digit, is_word.
  - apply ascii_isdecimal, Hc.
  - rewrite ascii_isalnum by exact Hc. reflexivity.
Qed.

Lemma ascii_class_bound (cls : charclass) (c : char) :
  ascii_class cls c = true -> (c < 128)%N.
Proof.
  unfold ascii_class. intros H. apply andb_true_iff in H.
  apply N.ltb_lt, H.
Qed.

Lemma all_in_ascii (cls : charclass) (s : list char) :
  s <> [] -> forallb (ascii_class cls) s = true -> all_in cls s.
Proof.
  intros Hne Hs. split; [exact Hne|].
  apply List.Forall_forall. intros c Hc.
  rewrite forallb_forall in Hs. specialize (Hs c Hc).
  rewrite (in_class_ascii cls c (ascii_class_bound cls c Hs)). exact Hs.
Qed.

Lemma stops_ascii (cls : charclass) (c : char) (s : list char) :
  (c < 128)%N -> ascii_class cls c = false -> stops cls (c :: s).
Proof. intros Hc Hcls. cbn [stops]. rewrite in_class_ascii; assumption. Qed.

Lemma sample_segments_separated : separated sample_segments.
Proof.
  cbn [separated sample_segments fst snd].
  repeat split; try discriminate; apply stops_ascii; reflexivity.
Qed.

Lemma strip_literal_Some (l s s1 : list char) :
  strip_literal l s = Some s1 -> s = l ++ s1.
Proof.
  revert s. induction l as [|a l IH]; intros s H; simpl in *.
  - destruct s; congruence.
  - destruct s as [|b s]; [discriminate|].
    destruct (N.eqb_spec a b) as [<-|]; [|discriminate].
    f_equal. apply IH, H.
Qed.

Lemma match_here_lit (l : list char) (p : regex) (s : list char) :
  match_here (map Chr l ++ p) s =
  match strip_literal l s with
  | Some s1 => match_here p s1
  | None => None
  end.
Proof.
  revert s. induction l as [|a l IH]; intros s; simpl.
  - destruct p, s; reflexivity.
  - destruct s as [|b s]; [reflexivity|].
    destruct (a =? b)%N; [apply IH | reflexivity].
Qed.

Lemma pattern_of_cons (l : list char) (cls : charclass) (rest : list segment) :
  pattern_of ((l, cls) :: rest) = map Chr l ++ PlusGroup cls :: pattern_of rest.
Proof. unfold pattern_of. simpl. rewrite <- app_assoc. reflexivity. Qed.

Lemma match_here_pattern_of (segs : list segment) (s : list char) :
  separated segs -> match_here (pattern_of segs) s = match_segments segs s.
Proof.
  revert s. induction segs as [|[l cls] rest IH]; intros s Hsep; [reflexivity|].
  destruct Hsep as [Hnext Hrest].
  rewrite pattern_of_cons, match_here_lit. cbn [match_segments fst snd].
  destruct (strip_literal l s) as [s1|]; [|reflexivity].
  cbn [match_here]. rewrite plus_loop_greedy.
  - destruct (take_class cls s1); [reflexivity|].
    rewrite IH by exact Hrest. reflexivity.
  - destruct rest as [|[l' cls'] rest'].
    + right. intros g r. discriminate.
    + left. intros g c r Hc. destruct Hnext as [Hne Hstop]. cbn [fst snd] in *.
      destruct l' as [|a l'']; [congruence|].
      rewrite pattern_of_cons. cbn [map app match_here]. simpl in Hstop.
      destruct (N.eqb_spec a c) as [->|_]; [congruence | reflexivity].
Qed.

Definition groups_ok (segs : list segment) (gs : list (list char)) : Prop :=
  Forall2 (fun seg g => all_in (snd seg) g) segs gs.

Lemma match_segments_complete (segs : list segment) (gs : list (list char))
    (post : list char) :
  separated segs -> groups_ok segs gs -> stops_after segs post ->
  match_segments segs (text_of segs gs ++ post) = Some gs.
Proof.
  intros Hsep Hok. revert Hsep.
  induction Hok as [|[l cls] g segs gs [Hne Hg] Hok IH]; intros Hsep Hpost;
    [reflexivity|].
  destruct Hsep as [Hnext Hrest].
  cbn [match_segments text_of fst snd].
  rewrite <- !app_assoc, strip_literal_app.
  assert (stops cls (text_of segs gs ++ post)) as Hstop.
  { destruct Hok as [|[l' cls'] g' segs' gs' _ _]; [exact Hpost|].
    destruct Hnext as [Hl' Hs']. cbn [text_of fst snd] in *.
    destruct l' as [|a l'']; [congruence | exact Hs']. }
  destruct (take_class_exact cls g _ Hg Hstop) as [-> ->].
  destruct g as [|c g]; [congruence|].
  rewrite IH; [reflexivity | exact Hrest |].
  destruct Hok as [|seg' g' segs' gs' _ _]; [exact I | exact Hpost].
Qed.

Lemma match_segments_sound (segs : list segment) (s : list char)
    (gs : list (list char)) :
  match_segments segs s = Some gs ->
  exists post,
    s = text_of segs gs ++ post /\ groups_ok segs gs /\ stops_after segs post.
Proof.
  revert s gs. induction segs as [|[l cls] rest IH]; intros s gs H.
  - injection H as <-. exists s. repeat split. constructor.
  - cbn [match_segments fst snd] in H.
    destruct (strip_literal l s) as [s1|] eqn:Hl; [|discriminate].
    apply strip_literal_Some in Hl. subst s.
    pose proof (take_drop_class cls s1) as Hsplit.
    pose proof (take_class_all cls s1) as Hall.
    pose proof (drop_class_stops cls s1) as Hstop.
    destruct (take_class cls s1) as [|c run]; [discriminate|].
    destruct (match_segments rest (drop_class cls s1)) as [gs'|] eqn:Hrest;
      [|discriminate].
    injection H as <-.
    destruct (IH _ _ Hrest) as (post & Hs & Hok & Hpost).
    exists post. split; [|split].
    + cbn [text_of fst]. rewrite <- Hsplit, Hs, <- !app_assoc. reflexivity.
    + constructor; [split; [discriminate | exact Hall] | exact Hok].
    + destruct rest as [|seg' rest'].
      * injection Hrest as <-. simpl in Hs. rewrite Hs in Hstop. exact Hstop.
      * exact Hpost.
Qed.

(** ** [search]: the leftmost position with a match *)

Lemma search_found (p : regex) (pre s : list char) (g : list (list char)) :
  match_here p s = Some g -> exists g', search p (pre ++ s) = Some g'.
Proof.
  intros Hs. induction pre as [|c pre IH].
  - exists g. destruct s; simpl; rewrite Hs; reflexivity.
  - simpl. destruct (match_here p (c :: pre ++ s)); [eauto | exact IH].
Qed.

Lemma search_leftmost (p : regex) (pre s : list char) :
  (forall p1 p2, pre = p1 ++ p2 -> p2 <> [] -> match_here p (p2 ++ s) = None) ->
  search p (pre ++ s) = search p s.
Proof.
  induction pre as [|c pre IH]; intros Hnone; [reflexivity|].
  assert (match_here p (c :: pre ++ s) = None) as H0
    by (apply (Hnone [] (c :: pre) eq_refl); discriminate).
  simpl. rewrite H0.
  apply IH. intros p1 p2 -> Hp2. apply (Hnone (c :: p1) p2 eq_refl Hp2).
Qed.

Lemma search_here (p : regex) (s : list char) (g : list (list char)) :
  match_here p s = Some g -> search p s = Some g.
Proof. intros H. destruct s; simpl; rewrite H; reflexivity. Qed.

Lemma search_sound (p : regex) (s : list char) (g : list (list char)) :
  search p s = Some g ->
  exists pre s', s = pre ++ s' /\ match_here p s' = Some g.
Proof.
  induction s as [|c s IH]; simpl.
  - destruct (match_here p []) eqn:H; [|discriminate].
    intros [= <-]. exists [], []. split; [reflexivity | exact H].
  - destruct (match_here p (c :: s)) eqn:H.
    + intros [= <-]. exists [], (c :: s). split; [reflexivity | exact H].
    + intros Hs. destruct (IH Hs) as (pre & s' & -> & Hm).
      exists (c :: pre), s'. split; [reflexivity | exact Hm].
Qed.

(** ** Matches of the sample pattern *)

Lemma match_here_sample_sound (s : list char) (gs : list (list char)) :
  match_here sample_pattern s = Some gs ->
  exists r g b c w post,
    gs = [r; g; b; c; w] /\ s = sample_text r g b c w ++ post /\
    sample_fields r g b c w /\ stops Word post.
Proof.
  rewrite sample_pattern_segments,
    match_here_pattern_of by exact sample_segments_separated.
  intros H. destruct (match_segments_sound _ _ _ H) as (post & Hs & Hok & Hpost).
  unfold groups_ok, sample_segments in Hok.
  repeat match goal with
         | H : Forall2 _ (_ :: _) _ |- _ => inversion H; subst; clear H
         | H : Forall2 _ [] _ |- _ => inversion H; subst; clear H
         end.
  cbn [snd] in *.
  do 5 eexists. exists post.
  split; [reflexivity|]. split; [rewrite sample_text_segments; reflexivity|].
  split; [constructor; assumption | exact Hpost].
Qed.

Lemma match_here_sample_complete (r g b c w post : list char) :
  sample_fields r g b c w ->
  match_here sample_pattern (sample_text r g b c w ++ post) =
  Some [r; g; b; c; w ++ take_class Word post].
Proof.
  intros [Hr Hg Hb Hc [Hw Hwall]].
  rewrite sample_pattern_segments,
    match_here_pattern_of by exact sample_segments_separated.
  assert (sample_text r g b c w ++ post =
          text_of sample_segments [r; g; b; c; w ++ take_class Word post] ++
          drop_class Word post) as ->.
  { rewrite <- (take_drop_class Word post) at 1.
    unfold sample_text, sample_segments. cbn [text_of fst].
    rewrite <- !app_assoc. reflexivity. }
  apply match_segments_complete.
  - exact sample_segments_separated.
  - constructor; [exact Hr|]. constructor; [exact Hg|].
    constructor; [exact Hb|]. constructor; [exact Hc|].
    constructor; [|constructor]. split.
    + destruct w; [congruence | simpl; discriminate].
    + apply Forall_app. split; [exact Hwall | apply take_class_all].
  - apply drop_class_stops.
Qed.

Lemma match_here_sample_None (s : list char) :
  ~ starts_sample s -> match_here sample_pattern s = None.
Proof.
  intros Hno. destruct (match_here sample_pattern s) as [gs|] eqn:H; [|reflexivity].
  exfalso. apply Hno.
  destruct (match_here_sample_sound s gs H) as (r & g & b & c & w & post & _ & Hs & Hf & _).
  exists r, g, b, c, w, post. split; assumption.
Qed.

Lemma search_sample_groups (line : list char) (gs : list (list char)) :
  search sample_pattern line = Some gs ->
  exists pre r g b c w post,
    gs = [r; g; b; c; w] /\ line = pre ++ sample_text r g b c w ++ post /\
    sample_fields r g b c w.
Proof.
  intros H. destruct (search_sound _ _ _ H) as (pre & s' & -> & Hm).
  destruct (match_here_sample_sound s' gs Hm)
    as (r & g & b & c & w & post & -> & -> & Hf & _).
  exists pre, r, g, b, c, w, post.
  split; [reflexivity|]. split; [reflexivity | exact Hf].
Qed.

Lemma parse_line_occurs (line : list char) :
  occurs line <-> is_Some (parse_line line).
Proof.
  unfold parse_line. split.
  - intros (pre & s & -> & r & g & b & c & w & post & -> & Hf).
    destruct (search_found sample_pattern pre _ _
                (match_here_sample_complete r g b c w post Hf)) as (gs & Hgs).
    rewrite Hgs.
    destruct (search_sample_groups _ _ Hgs) as (_ & r' & g' & b' & c' & w' & _ & -> & _).
    eexists. reflexivity.
  - intros [smp Hsmp].
    destruct (search sample_pattern line) as [gs|] eqn:Hgs; [|discriminate].
    destruct (search_sample_groups _ _ Hgs) as (pre & r & g & b & c & w & post & _ & -> & Hf).
    exists pre, (sample_text r g b c w ++ post). split; [reflexivity|].
    exists r, g, b, c, w, post. split; [reflexivity | exact Hf].
Qed.

(** ** [int] of a run of digits *)

Lemma digit_value_range (c : char) :
  is_digit c = true -> 0 <= digit_value c <= 9.
Proof. unfold is_digit, digit_value. apply decimal_range. Qed.

Lemma digit_value_ascii (c : char) :
  ascii_digit c = true -> digit_value c = Z.of_N c - 48.
Proof.
  unfold ascii_digit, digit_value. intros H.
  apply andb_true_iff in H. destruct H as [H1 H2].
  apply N.leb_le in H1, H2. apply ascii_decimal. lia.
Qed.

Lemma int_ascii (s : list char) :
  forallb ascii_digit s = true ->
  int s = fold_left (fun acc c => 10 * acc + (Z.of_N c - 48)) s 0.
Proof.
  unfold int. generalize 0. induction s as [|c s IH]; intros acc Hs; [reflexivity|].
  cbn [forallb] in Hs. apply andb_true_iff in Hs. destruct Hs as [Hc Hs].
  cbn [fold_left]. rewrite (digit_value_ascii c Hc). apply IH, Hs.
Qed.

Lemma int_nonneg (s : list char) :
  Forall (fun c => is_digit c = true) s -> 0 <= int s.
Proof.
  unfold int.
  assert (forall acc, 0 <= acc -> Forall (fun c => is_digit c = true) s ->
          0 <= fold_left (fun a c => 10 * a + digit_value c) s acc) as H.
  { induction s as [|c s IH]; intros acc Hacc Hs; simpl; [exact Hacc|].
    inversion Hs as [|? ? Hc Hs']; subst.
    apply IH; [|exact Hs']. pose proof (digit_value_range c Hc). lia. }
  intros Hs. apply H; [lia | exact Hs].
Qed.

(** ** [parse_line] and [parse_input] *)

Lemma parse_line_at_start (r g b c w post : list char) :
  sample_fields r g b c w ->
  parse_line (sample_text r g b c w ++ post) =
  Some ([int r; int g; int b; int c], w ++ take_class Word post).
Proof.
  intros Hf. unfold parse_line.
  rewrite (search_here _ _ _ (match_here_sample_complete r g b c w post Hf)).
  reflexivity.
Qed.

Lemma parse_line_leftmost (pre r g b c w post : list char) :
  sample_fields r g b c w ->
  (forall p1 p2, pre = p1 ++ p2 -> p2 <> [] ->
     ~ starts_sample (p2 ++ sample_text r g b c w ++ post)) ->
  parse_line (pre ++ sample_text r g b c w ++ post) =
  Some ([int r; int g; int b; int c], w ++ take_class Word post).
Proof.
  intros Hf Hfirst. unfold parse_line.
  rewrite search_leftmost.
  - apply (parse_line_at_start r g b c w post Hf).
  - intros p1 p2 Hpre Hp2. apply match_here_sample_None.
    apply (Hfirst p1 p2 Hpre Hp2).
Qed.

Lemma parse_line_sample (line : list char) (row : list Z) (color : list char) :
  parse_line line = Some (row, color) ->
  exists pre r g b c w post,
    line = pre ++ sample_text r g b c w ++ post /\ sample_fields r g b c w /\
    row = [int r; int g; int b; int c] /\ color = w.
Proof.
  unfold parse_line. intros H.
  destruct (search sample_pattern line) as [gs|] eqn:Hgs; [|discriminate].
  destruct (search_sample_groups _ _ Hgs)
    as (pre & r & g & b & c & w & post & -> & -> & Hf).
  injection H as <- <-.
  exists pre, r, g, b, c, w, post. repeat split; try reflexivity; apply Hf.
Qed.

Lemma parse_loop_acc (lines : list (list char))
    (data : list (list Z)) (labels : list (list char)) :
  parse_loop lines data labels =
  (data ++ map fst (omap parse_line lines),
   labels ++ map snd (omap parse_line lines)).
Proof.
  revert data labels. induction lines as [|line lines IH]; intros data labels.
  - simpl. rewrite !app_nil_r. reflexivity.
  - cbn [parse_loop omap list_omap]. destruct (parse_line line) as [[row color]|].
    + rewrite IH, <- !app_assoc. reflexivity.
    + apply IH.
Qed.

(** ** The claims on parsing *)

(** C7.  [parse_input] returns one sample, a row of four non-negative
    integers and a label, for every line in which the pattern
    [Red: <int>, Green: <int>, Blue: <int>, Clear: <int>, Color: <word>]
    matches, in the order of the lines, and nothing for the other lines;
    a line that is exactly a sample yields its four readings and its
    label, and the line of the end-to-end scenario yields
    [1794, 2164, 1742, 1996] and the label White.  An integer is a run of
    decimal digits and a word a run of alphanumeric characters and
    underscores, of Unicode as Python's [re] reads a [str] pattern: the
    statement holds for any tables of the character database that are
    the known ones on the ASCII range. *)
Theorem parse_input_samples (file : list (list char)) :
  parse_input file =
    (map fst (omap parse_line file), map snd (omap parse_line file)) /\
  (forall line, occurs line <-> is_Some (parse_line line)) /\
  (forall line row color, parse_line line = Some (row, color) ->
     exists r g b c, row = [r; g; b; c] /\
       0 <= r /\ 0 <= g /\ 0 <= b /\ 0 <= c /\ color <> []) /\
  (forall r g b c w post, sample_fields r g b c w -> stops Word post ->
     parse_line (sample_text r g b c w ++ post) =
     Some ([int r; int g; int b; int c], w)) /\
  parse_line
    (str "Red: 1794, Green: 2164, Blue: 1742, Clear: 1996, Color: White") =
  Some ([1794; 2164; 1742; 1996], str "White").
Proof.
  split; [|split; [|split; [|split]]].
  - unfold parse_input. rewrite parse_loop_acc. reflexivity.
  - apply parse_line_occurs.
  - intros line row color H.
    destruct (parse_line_sample line row color H)
      as (_ & r & g & b & c & w & _ & _ & [Hr Hg Hb Hc Hw] & -> & ->).
    exists (int r), (int g), (int b), (int c).
    split; [reflexivity|].
    repeat split; try (apply int_nonneg; [apply Hr || apply Hg || apply Hb || apply Hc]).
    apply Hw.
  - intros r g b c w post Hf Hpost.
    rewrite (parse_line_at_start r g b c w post Hf).
    destruct (take_class_stops Word post Hpost) as [-> _].
    rewrite app_nil_r. reflexivity.
  - change (str "Red: 1794, Green: 2164, Blue: 1742, Clear: 1996, Color: White")
      with (sample_text (str "1794") (str "2164") (str "1742") (str "1996")
              (str "White") ++ []).
    rewrite parse_line_at_start
      by (constructor; apply all_in_ascii; (discriminate || reflexivity)).
    rewrite !int_ascii by reflexivity. reflexivity.
Qed.

(** C10.  A line is accepted whenever the pattern occurs anywhere inside
    it, whatever text precedes or follows; the line yields exactly one
    sample, and when no occurrence starts earlier in the line the sample
    is read from this one: its four readings, and as label the word
    characters from the label's first on. *)
Theorem parse_line_anywhere (pre r g b c w post : list char) :
  sample_fields r g b c w ->
  let line := pre ++ sample_text r g b c w ++ post in
  is_Some (parse_line line) /\
  ((forall p1 p2, pre = p1 ++ p2 -> p2 <> [] ->
      ~ starts_sample (p2 ++ sample_text r g b c w ++ post)) ->
   parse_line line =
   Some ([int r; int g; int b; int c], w ++ take_class Word post)) /\
  (exists row color, parse_input [line] = ([row], [color])).
Proof.
  intros Hf line.
  assert (is_Some (parse_line line)) as Hsome.
  { apply parse_line_occurs. exists pre, (sample_text r g b c w ++ post).
    split; [reflexivity|]. exists r, g, b, c, w, post.
    split; [reflexivity | exact Hf]. }
  split; [exact Hsome|]. split.
  - intros Hfirst. apply parse_line_leftmost; assumption.
  - destruct Hsome as [[row color] Hrow]. exists row, color.
    unfold parse_input. cbn [parse_loop]. rewrite Hrow. reflexivity.
Qed.

End PipelineFacts.

(** ** A table with characters beyond ASCII

    The ASCII range, the Arabic-Indic digits U+0660 to U+0669, and the
    letter U+00E9; every other character is in no class. *)
Section SampleTable.

Import FeaturePipeline.

Definition arabic_indic (c : char) : bool := ((1632 <=? c) && (c <=? 1641))%N.

Definition sample_unicode : UnicodeData := {|
  isdecimal c := ascii_digit c || arabic_indic c;
  decimal c := if ascii_digit c then Z.of_N c - 48 else Z.of_N c - 1632;
  isalnum c :=
    (ascii_digit c || arabic_indic c || (65 <=? c) && (c <=? 90) ||
     (97 <=? c) && (c <=? 122) || (c =? 233))%N
|}.

Lemma sample_unicode_laws : UnicodeLaws sample_unicode.
Proof.
  split; cbn [isdecimal decimal isalnum sample_unicode];
    unfold ascii_digit, arabic_indic; intros c Hc.
  - destruct (N.leb_spec 48 c), (N.leb_spec c 57), (N.leb_spec 1632 c),
      (N.leb_spec c 1641); cbn in *; try discriminate; lia.
  - destruct (N.leb_spec 48 c), (N.leb_spec c 57), (N.leb_spec 1632 c),
      (N.leb_spec c 1641); cbn; try reflexivity; lia.
  - destruct (N.leb_spec 48 c), (N.leb_spec c 57); cbn; lia.
  - destruct (N.leb_spec 48 c), (N.leb_spec c 57), (N.leb_spec 1632 c),
      (N.leb_spec c 1641), (N.leb_spec 65 c), (N.leb_spec c 90),
      (N.leb_spec 97 c), (N.leb_spec c 122), (N.eqb_spec c 233);
      cbn; try reflexivity; lia.
Qed.

Lemma parse_input_samples_witness :
  parse_line (U := sample_unicode)
    (str "Red: 1794, Green: 2164, Blue: 1742, Clear: 1996, Color: White") =
  Some ([1794; 2164; 1742; 1996], str "White").
Proof.
  exact (proj2 (proj2 (proj2 (proj2
           (parse_input_samples (L := sample_unicode_laws) []))))).
Defined.

Lemma parse_line_anywhere_witness :
  is_Some (parse_line (U := sample_unicode)
             (str "t=12 Red: 1, Green: 2, Blue: 3, Clear: 4, Color: Red; ok")).
Proof.
  assert (sample_fields (U := sample_unicode)
            (str "1") (str "2") (str "3") (str "4") (str "Red")) as Hf.
  { constructor; (split; [discriminate | repeat constructor]). }
  exact (proj1 (parse_line_anywhere (L := sample_unicode_laws)
                  (str "t=12 ") _ _ _ _ _ (str "; ok") Hf)).
Defined.

(** Only the first of two samples on one line is read. *)
Example parse_line_two_samples :
  parse_input (U := sample_unicode)
    [str "Red: 1, Green: 2, Blue: 3, Clear: 4, Color: Red Red: 5, Green: 6, Blue: 7, Clear: 8, Color: Black"]
  = ([[1; 2; 3; 4]], [str "Red"]).
Proof. vm_compute. reflexivity. Qed.

(** Digits of another script are digits: the reading written with the
    Arabic-Indic digits one and two is 12. *)
Example parse_line_arabic_indic_digits :
  parse_line (U := sample_unicode)
    (str "Red: " ++ [1633; 1634]%N ++
     str ", Green: 2, Blue: 3, Clear: 4, Color: Red") =
  Some ([12; 2; 3; 4], str "Red").
Proof. vm_compute. reflexivity. Qed.

(** A letter beyond ASCII is part of the label. *)
Example parse_line_accented_label :
  parse_line (U := sample_unicode)
    (str "Red: 1, Green: 2, Blue: 3, Clear: 4, Color: Caf" ++ [233%N] ++ str "!") =
  Some ([1; 2; 3; 4], str "Caf" ++ [233%N]).
Proof. vm_compute. reflexivity. Qed.

End SampleTable.

(** ** Normalization *)

Section NormalizeFacts.

Import FeaturePipeline.

Lemma normalize_data_value {F : Type} `{Scalar F} (data : list (list Z)) :
  data <> [] -> Forall (fun row => List.length row = 4%nat) data ->
  exists X : features F,
    normalize_data (np_array data) = Ok X /\
    feat_dtype X = float64 /\
    shape (feat_values X) = (List.length data, 4%nat) /\
    forall i j row r, data !! i = Some row -> row !! j = Some r ->
      get fzero (feat_values X) i j = fdiv (of_int r) (of_int 2048).
Proof.
  intros Hne Hrows. destruct data as [|r0 data']; [congruence|].
  assert (List.length r0 = 4%nat) as Hr0 by (inversion Hrows; assumption).
  unfold normalize_data, broadcast2, sensor_range.
  set (data := r0 :: data') in *.
  assert (nrows (np_array data) = List.length data) as Hn by reflexivity.
  assert (ncols (np_array data) = 4%nat) as Hm by exact Hr0.
  rewrite Hn, Hm.
  change (nrows (np_array [[2048; 2048; 2048; 2048]])) with 1%nat.
  change (ncols (np_array [[2048; 2048; 2048; 2048]])) with 4%nat.
  rewrite broadcast_dim_one. change (broadcast_dim 4 4) with (Some 4%nat).
  cbn [Py.bind]. eexists. split; [reflexivity|].
  cbn [feat_dtype feat_values]. split; [reflexivity|]. split; [reflexivity|].
  intros i j row r Hrow Hr.
  assert (i < List.length data)%nat as Hi by (eapply lookup_lt_Some; exact Hrow).
  assert (List.length row = 4%nat) as Hlen.
  { rewrite List.Forall_forall in Hrows. apply Hrows.
    eapply list_elem_of_In, list_elem_of_lookup_2. exact Hrow. }
  assert (j < 4)%nat as Hj.
  { rewrite <- Hlen. eapply lookup_lt_Some. exact Hr. }
  rewrite get_tabulate by assumption.
  rewrite (broadcast_index_lt (List.length data) i Hi).
  change (broadcast_index 4 j) with j. change (broadcast_index 1 i) with O.
  rewrite (get_np_array 0 data i j row r Hrow Hr).
  assert (get 0 (np_array [[2048; 2048; 2048; 2048]]) 0 j = 2048) as ->.
  { do 4 (destruct j as [|j]; [reflexivity|]). lia. }
  reflexivity.
Qed.

(** *** The ratio in binary64 arithmetic

    For every reading of 16 bits the quotient the script computes is
    exact, and above 1 when the reading is above 2048: checked on each of
    the 65536 readings. *)
Definition exact_ratio (r : Z) : bool :=
  let x : float := fdiv (of_int r) (of_int 2048) in
  match float64_value x with
  | Some q => Qeq_bool q (r # 2048) && (if 2048 <? r then flt fone x else true)
  | None => false
  end.

Fixpoint all_from (check : Z -> bool) (count : nat) (r : Z) : bool :=
  match count with
  | O => true
  | S count' => check r && all_from check count' (r + 1)
  end.

Lemma all_from_spec (check : Z -> bool) (count : nat) (a : Z) :
  all_from check count a = true ->
  forall r, a <= r < a + Z.of_nat count -> check r = true.
Proof.
  revert a. induction count as [|n IH]; intros a Hall r Hr; [lia|].
  cbn [all_from] in Hall. apply andb_true_iff in Hall. destruct Hall as [Ha Hrest].
  destruct (Z.eq_dec r a) as [-> | Hne]; [exact Ha|].
  apply (IH (a + 1) Hrest). lia.
Qed.

Lemma float64_ratio_exact (r : Z) :
  0 <= r < 65536 ->
  exists q,
    float64_value (fdiv (of_int r) (of_int 2048)) = Some q /\
    (q == inject_Z r / 2048)%Q /\
    (2048 < r -> flt (fone : float) (fdiv (of_int r) (of_int 2048)) = true).
Proof.
  intros Hr.
  assert (all_from exact_ratio (Z.to_nat 65536) 0 = true) as Hall
    by (vm_compute; reflexivity).
  assert (exact_ratio r = true) as Hc.
  { apply (all_from_spec exact_ratio (Z.to_nat 65536) 0 Hall).
    rewrite Z2Nat.id; lia. }
  unfold exact_ratio in Hc. cbv zeta in Hc.
  destruct (float64_value _) as [q|]; [|discriminate].
  apply andb_true_iff in Hc. destruct Hc as [Hq Hgt].
  exists q. split; [reflexivity|]. split.
  - apply Qeq_bool_iff in Hq. rewrite Hq.
    unfold Qeq, Qdiv, Qmult, Qinv. simpl. lia.
  - intros Hbig. destruct (Z.ltb_spec 2048 r); [exact Hgt | lia].
Qed.

(** C8, as the specification states it, fails on the element type: the
    quotient of two integer arrays is a float64 array.  On the scenario's
    reading the script computes, in binary64 arithmetic, the four ratios
    below, the second above 1. *)
Lemma normalize_data_is_float64 :
  normalize_data (F := float) (np_array [[1794; 2164; 1742; 1996]]) =
    Ok (Features float64
          (NdArray 1 4 [[0.8759765625%float; 1.056640625%float;
                         0.8505859375%float; 0.974609375%float]])) /\
  float64 <> float32.
Proof. split; [vm_compute; reflexivity | discriminate]. Qed.

(** C8, amended.  Normalization of the parsed rows returns an array of
    64-bit floating-point values, one row of four per sample, and raises
    no error.  With exact rationals for the elements, each value is the
    raw channel divided by 2048, above 1 for a reading above 2048; and in
    binary64 arithmetic the same holds exactly for every reading below
    65536. *)
Theorem normalize_data_ratio (data : list (list Z)) :
  data <> [] -> Forall (fun row => List.length row = 4%nat) data ->
  (exists X : features Q,
     normalize_data (np_array data) = Ok X /\
     feat_dtype X = float64 /\
     shape (feat_values X) = (List.length data, 4%nat) /\
     forall i j row r, data !! i = Some row -> row !! j = Some r ->
       (get 0 (feat_values X) i j == inject_Z r / 2048)%Q /\
       (2048 < r -> (1 < get 0 (feat_values X) i j)%Q)) /\
  (exists X : features float,
     normalize_data (np_array data) = Ok X /\
     feat_dtype X = float64 /\
     shape (feat_values X) = (List.length data, 4%nat) /\
     forall i j row r, data !! i = Some row -> row !! j = Some r ->
       0 <= r < 65536 ->
       exists q,
         float64_value (get fzero (feat_values X) i j) = Some q /\
         (q == inject_Z r / 2048)%Q /\
         (2048 < r -> PrimFloat.ltb 1 (get fzero (feat_values X) i j) = true)).
Proof.
  intros Hne Hrows. split.
  - destruct (normalize_data_value (F := Q) data Hne Hrows)
      as (X & HX & Hdt & Hsh & Hval).
    exists X. repeat (split; [assumption|]).
    intros i j row r Hrow Hr.
    change (get 0%Q (feat_values X) i j) with (get fzero (feat_values X) i j).
    rewrite (Hval i j row r Hrow Hr).
    cbn [fdiv of_int Q_scalar].
    split; [apply Qred_correct|].
    intros Hbig. rewrite Qred_correct.
    unfold Qlt, Qdiv, Qmult, Qinv. simpl. lia.
  - destruct (normalize_data_value (F := float) data Hne Hrows)
      as (X & HX & Hdt & Hsh & Hval).
    exists X. repeat (split; [assumption|]).
    intros i j row r Hrow Hr Hrange. rewrite (Hval i j row r Hrow Hr).
    exact (float64_ratio_exact r Hrange).
Qed.

Lemma normalize_data_ratio_witness :
  exists X : features Q,
    normalize_data (np_array [[1794; 2164; 1742; 1996]]) = Ok X /\
    feat_dtype X = float64.
Proof.
  destruct (normalize_data_ratio [[1794; 2164; 1742; 1996]])
    as [(X & HX & Hdt & _) _].
  - discriminate.
  - repeat constructor.
  - exists X. split; assumption.
Defined.

End NormalizeFacts.
(** * Properties of the label encoder *)

Section EncoderFacts.

Import LabelEncoder.

Context {F : Type} `{Scalar F}.

Lemma label_dict_lookup (s : string) (j : nat) :
  label_dict !! s = Some j <-> unique_labels !! j = Some s.
Proof.
  unfold label_dict, unique_labels, enumerate. cbn [fold_left zip zip_with seq List.length fst snd].
  rewrite !lookup_insert, lookup_empty.
  repeat case_decide; subst; split; intros Hj;
    try discriminate; try (injection Hj as <-; reflexivity);
    repeat (destruct j as [|j]; try discriminate; try reflexivity;
            try (injection Hj as Hj; congruence)).
Qed.

Lemma label_dict_None (s : string) :
  s ∉ unique_labels -> label_dict !! s = None.
Proof.
  intros Hs. destruct (label_dict !! s) as [j|] eqn:Hj; [|reflexivity].
  exfalso. apply Hs. apply label_dict_lookup in Hj.
  eapply list_elem_of_lookup_2. exact Hj.
Qed.

Lemma label_dict_Some (s : string) :
  s ∈ unique_labels ->
  exists j, label_dict !! s = Some j /\ unique_labels !! j = Some s /\ (j < 4)%nat.
Proof.
  intros Hs. apply list_elem_of_lookup_1 in Hs. destruct Hs as [j Hj].
  exists j. split; [apply label_dict_lookup, Hj|]. split; [exact Hj|].
  apply lookup_lt_Some in Hj. exact Hj.
Qed.

Lemma map_const_seq {A : Type} (c : A) (a n : nat) :
  map (fun _ => c) (seq a n) = replicate n c.
Proof.
  revert a. induction n as [|n IH]; intros a; simpl; [reflexivity|].
  rewrite IH. reflexivity.
Qed.

Lemma zeros_rows (n m : nat) :
  zeros n m = NdArray n m (replicate n (replicate m (fzero : F))).
Proof.
  unfold zeros, tabulate. f_equal.
  rewrite (map_const_seq fzero 0 m). apply map_const_seq.
Qed.

(** The row written for a label. *)
Definition row_of (s : string) : list F :=
  one_hot (default O (label_dict !! s)).

Definition zero_row : list F := replicate 4 fzero.

Lemma encode_loop_rows (labels : list string) (done : list (list F)) (extra n : nat) :
  Forall (fun s => s ∈ unique_labels) labels ->
  n = (List.length done + List.length labels + extra)%nat ->
  encode_loop (List.length done) labels
    (NdArray n 4 (done ++ replicate (List.length labels + extra) zero_row)) =
  Ok (NdArray n 4 (done ++ map row_of labels ++ replicate extra zero_row)).
Proof.
  intros Hall. revert done.
  induction Hall as [|s labels Hs _ IH]; intros done Hn; [reflexivity|].
  destruct (label_dict_Some s Hs) as (j & Hj & _ & Hlt).
  cbn [encode_loop]. rewrite Hj. unfold setitem. cbn [nrows ncols rows].
  assert ((List.length done <? n)%nat = true) as ->
    by (apply Nat.ltb_lt; simpl in Hn; lia).
  assert ((j <? 4)%nat = true) as -> by (apply Nat.ltb_lt; exact Hlt).
  cbn [andb Py.bind].
  replace (List.length done) with (List.length done + 0)%nat at 2 by lia.
  rewrite alter_app_r. cbn [List.length Nat.add replicate alter list_alter].
  specialize (IH (done ++ [one_hot j])).
  rewrite length_app in IH. cbn [List.length] in IH.
  replace (S (List.length done)) with (List.length done + 1)%nat by lia.
  rewrite <- !app_assoc in IH. cbn [app] in IH.
  change (<[j:=fone]> zero_row) with (one_hot j).
  rewrite IH by (simpl in Hn; lia).
  cbn [map app]. unfold row_of at 2. rewrite Hj. reflexivity.
Qed.

Lemma encode_loop_KeyError (good : list string) (bad : string) (rest : list string)
    (done : list (list F)) (extra n : nat) :
  Forall (fun s => s ∈ unique_labels) good -> bad ∉ unique_labels ->
  n = (List.length done + List.length good + extra)%nat ->
  encode_loop (List.length done) (good ++ bad :: rest)
    (NdArray n 4 (done ++ replicate (List.length good + extra) zero_row)) =
  Raise (KeyError bad).
Proof.
  intros Hall Hbad. revert done.
  induction Hall as [|s good Hs _ IH]; intros done Hn.
  - cbn [app encode_loop]. rewrite (label_dict_None bad Hbad). reflexivity.
  - destruct (label_dict_Some s Hs) as (j & Hj & _ & Hlt).
    cbn [app encode_loop]. rewrite Hj. unfold setitem. cbn [nrows ncols rows].
    assert ((List.length done <? n)%nat = true) as ->
      by (apply Nat.ltb_lt; simpl in Hn; lia).
    assert ((j <? 4)%nat = true) as -> by (apply Nat.ltb_lt; exact Hlt).
    cbn [andb Py.bind].
    replace (List.length done) with (List.length done + 0)%nat at 2 by lia.
    rewrite alter_app_r. cbn [List.length Nat.add replicate alter list_alter].
    specialize (IH (done ++ [<[j:=fone]> zero_row])).
    rewrite length_app in IH. cbn [List.length] in IH.
    replace (S (List.length done)) with (List.length done + 1)%nat by lia.
    rewrite <- !app_assoc in IH. cbn [app] in IH.
    apply IH. simpl in Hn. lia.
Qed.

Lemma first_unknown_label (labels : list string) (s : string) :
  s ∈ labels -> s ∉ unique_labels ->
  exists good bad rest,
    labels = good ++ bad :: rest /\
    Forall (fun s => s ∈ unique_labels) good /\ bad ∉ unique_labels.
Proof.
  induction labels as [|x labels IH]; intros Hin Hs.
  - apply elem_of_nil in Hin. contradiction.
  - destruct (decide (x ∈ unique_labels)) as [Hx | Hx].
    + apply elem_of_cons in Hin. destruct Hin as [-> | Hin]; [contradiction|].
      destruct (IH Hin Hs) as (good & bad & rest & -> & Hgood & Hbad).
      exists (x :: good), bad, rest. split; [reflexivity|].
      split; [constructor; assumption | exact Hbad].
    + exists [], x, labels. split; [reflexivity|]. split; [constructor | exact Hx].
Qed.

Lemma one_hot_entries (j : nat) :
  (j < 4)%nat ->
  List.length (one_hot j : list F) = 4%nat /\
  (one_hot j : list F) !! j = Some fone /\
  forall k, (k < 4)%nat -> k <> j -> (one_hot j : list F) !! k = Some fzero.
Proof.
  intros Hj. unfold one_hot, unique_labels. cbn [List.length].
  split; [rewrite length_insert, length_replicate; reflexivity|].
  split.
  - apply list_lookup_insert_eq. rewrite length_replicate. exact Hj.
  - intros k Hk Hne. rewrite list_lookup_insert_ne by congruence.
    apply lookup_replicate_2. exact Hk.
Qed.

(** C4.  When every label is one of Red, Black, Green, White, the encoder
    returns one row of length 4 per label, with 1 at the label's index in
    that order and 0 in the three other places.  When some label is not in
    the vocabulary, the encoder raises KeyError on the first such label
    and returns no array at all. *)
Theorem one_hot_encode_labels (labels : list string) :
  (Forall (fun s => s ∈ unique_labels) labels ->
   exists enc : ndarray F,
     one_hot_encode labels = Ok (enc, unique_labels) /\
     shape enc = (List.length labels, 4%nat) /\
     forall i s, labels !! i = Some s ->
       exists j row,
         unique_labels !! j = Some s /\ rows enc !! i = Some row /\
         List.length row = 4%nat /\ row !! j = Some fone /\
         forall k, (k < 4)%nat -> k <> j -> row !! k = Some fzero) /\
  (forall s, s ∈ labels -> s ∉ unique_labels ->
   exists bad,
     bad ∈ labels /\ (bad ∉ unique_labels) /\
     one_hot_encode (F := F) labels = Raise (KeyError bad)).
Proof.
  split.
  - intros Hall.
    pose proof (encode_loop_rows labels [] 0 (List.length labels) Hall) as Hloop.
    cbn [List.length app Nat.add] in Hloop.
    rewrite Nat.add_0_r, app_nil_r in Hloop. specialize (Hloop eq_refl).
    exists (NdArray (List.length labels) 4 (map row_of labels)).
    split; [|split; [reflexivity|]].
    + unfold one_hot_encode. cbn zeta.
      change (List.length unique_labels) with 4%nat.
      rewrite zeros_rows. fold zero_row.
      rewrite Hloop. reflexivity.
    + intros i s Hi. cbn [rows].
      rewrite List.Forall_forall in Hall.
      assert (s ∈ unique_labels) as Hs.
      { apply Hall. eapply list_elem_of_In, list_elem_of_lookup_2. exact Hi. }
      destruct (label_dict_Some s Hs) as (j & Hj & Hu & Hlt).
      exists j, (one_hot j). split; [exact Hu|]. split.
      * rewrite list_lookup_fmap, Hi. cbn. unfold row_of. rewrite Hj. reflexivity.
      * apply one_hot_entries, Hlt.
  - intros s Hin Hs.
    destruct (first_unknown_label labels s Hin Hs)
      as (good & bad & rest & -> & Hgood & Hbad).
    exists bad. split; [|split; [exact Hbad|]].
    + apply elem_of_app. right. apply elem_of_cons. left. reflexivity.
    + pose proof (encode_loop_KeyError good bad rest [] (S (List.length rest))
                    (List.length (good ++ bad :: rest)) Hgood Hbad) as Hloop.
      cbn [List.length app Nat.add] in Hloop.
      unfold one_hot_encode. cbn zeta.
      change (List.length unique_labels) with 4%nat.
      rewrite zeros_rows. fold zero_row.
      rewrite length_app at 2. cbn [List.length].
      rewrite Hloop; [reflexivity|]. rewrite length_app. simpl. lia.
Qed.

End EncoderFacts.

(** The scenario of section 8: the label White is encoded as [0, 0, 0, 1]. *)
Example one_hot_white :
  LabelEncoder.one_hot_encode (F := Q) ["White"%string] =
  Ok (NdArray 1 4 [[0; 0; 0; 1]%Q], LabelEncoder.unique_labels).
Proof. vm_compute. reflexivity. Qed.
(** * Properties of the network core *)

Section NetworkFacts.

Import NetworkCore.

Context {F : Type} `{Scalar F}.

Local Open Scope method_scope.

(** ** Arrays *)

Lemma tabulate_ext (n m : nat) (f g : nat -> nat -> F) :
  (forall i j, (i < n)%nat -> (j < m)%nat -> f i j = g i j) ->
  tabulate n m f = tabulate n m g.
Proof.
  intros Hfg. unfold tabulate. f_equal.
  apply map_ext_in. intros i Hi. apply in_seq in Hi.
  apply map_ext_in. intros j Hj. apply in_seq in Hj.
  apply Hfg; lia.
Qed.

Lemma iadd_shape (a b v : ndarray F) : iadd a b = Ok v -> shape v = shape a.
Proof.
  unfold iadd. destruct (_ && _); [|discriminate].
  intros [= <-]. reflexivity.
Qed.

(** ** What a method leaves unchanged *)

Definition keeps {A B : Type} (f : NeuralNetwork F -> B) (m : method F A) : Prop :=
  forall self, f (snd (m self)) = f self.

Lemma keeps_ret {A B : Type} (f : NeuralNetwork F -> B) (a : A) :
  keeps f (ret a).
Proof. intros self. reflexivity. Qed.

Lemma keeps_call {A B : Type} (f : NeuralNetwork F -> B) (r : result A) :
  keeps f (call r).
Proof. intros self. reflexivity. Qed.

Lemma keeps_load {B : Type} (f : NeuralNetwork F -> B) (p : param) :
  keeps f (load p).
Proof. intros self. reflexivity. Qed.

Lemma keeps_load_cache {B : Type} (f : NeuralNetwork F -> B) (c : cache) :
  keeps f (load_cache c).
Proof.
  intros self. unfold load_cache. destruct (get_cache c self); reflexivity.
Qed.

Lemma keeps_bind {A A' B : Type} (f : NeuralNetwork F -> B)
    (m : method F A) (k : A -> method F A') :
  keeps f m -> (forall a, keeps f (k a)) -> keeps f (mbind m k).
Proof.
  intros Hm Hk self. unfold mbind. specialize (Hm self).
  destruct (m self) as [[a|e] self']; simpl in *.
  - rewrite Hk. exact Hm.
  - exact Hm.
Qed.

Lemma keeps_store_cache_parameters (c : cache) (v : ndarray F) :
  keeps parameters (store_cache c v).
Proof. intros self. destruct c; reflexivity. Qed.

Lemma keeps_iadd_param_shapes (p : param) (delta : ndarray F) :
  keeps parameter_shapes (iadd_param p delta).
Proof.
  intros self. unfold iadd_param.
  destruct (iadd (get_param p self) delta) as [v|e] eqn:Hv; [|reflexivity].
  apply iadd_shape in Hv. cbn [snd].
  unfold parameter_shapes, parameters, all_params. cbn [map].
  destruct p; cbn [get_param set_param input_weights hidden_weights1
                   hidden_weights2 hidden_bias1 hidden_bias2 output_bias] in *;
    rewrite Hv; reflexivity.
Qed.

Lemma keeps_shapes_of_parameters {A : Type} (m : method F A) :
  keeps parameters m -> keeps parameter_shapes m.
Proof. intros Hm self. unfold parameter_shapes. rewrite Hm. reflexivity. Qed.

Ltac keeps_steps :=
  repeat first
    [ apply keeps_ret | apply keeps_call | apply keeps_load
    | apply keeps_load_cache | apply keeps_store_cache_parameters
    | apply keeps_iadd_param_shapes
    | apply keeps_shapes_of_parameters; apply keeps_store_cache_parameters
    | apply keeps_bind; [|intros ?] ].

Lemma forward_keeps_parameters `{Exponential F} (X : ndarray F) :
  keeps parameters (forward X).
Proof. unfold forward. keeps_steps. Qed.

Lemma backward_keeps_shapes (X y output : ndarray F) (learning_rate : F) :
  keeps parameter_shapes (backward X y output learning_rate).
Proof. unfold backward. keeps_steps. Qed.

Lemma run_steps_keeps_shapes `{Exponential F} (steps : list step)
    (self : NeuralNetwork F) :
  parameter_shapes (run_steps steps self) = parameter_shapes self.
Proof.
  unfold run_steps. revert self.
  induction steps as [|s steps IH]; intros self; [reflexivity|].
  cbn [fold_left]. rewrite IH. destruct s as [X | X y o lr]; cbn [run_step].
  - apply keeps_shapes_of_parameters, forward_keeps_parameters.
  - apply backward_keeps_shapes.
Qed.

(** C9.  A call of [forward] leaves the three weight matrices and the
    three bias vectors as they were, whether it returns or raises; a call
    of [backward] may change their entries but leaves every shape as it
    was; so after any sequence of calls a network built with the default
    sizes still has the shapes 4x16, 16x8, 8x4, 1x16, 1x8 and 1x4. *)
Theorem forward_backward_frame `{Exponential F} (self : NeuralNetwork F) :
  (forall X, parameters (snd (forward X self)) = parameters self) /\
  (forall X y output learning_rate,
     parameter_shapes (snd (backward X y output learning_rate self)) =
     parameter_shapes self) /\
  (forall steps, parameter_shapes (run_steps steps self) = parameter_shapes self) /\
  (forall steps w1 w2 w3,
     parameter_shapes (run_steps steps (init w1 w2 w3 4 16 8 4)) =
     [(4, 16); (16, 8); (8, 4); (1, 16); (1, 8); (1, 4)]%nat).
Proof.
  split; [|split; [|split]].
  - intros X. apply forward_keeps_parameters.
  - intros X y output lr. apply backward_keeps_shapes.
  - intros steps. apply run_steps_keeps_shapes.
  - intros steps w1 w2 w3. rewrite run_steps_keeps_shapes. reflexivity.
Qed.

(** ** The ReLU mask *)

Lemma mask_of_relu `{!ScalarOrder F} (v : F) :
  (if flt fzero (fmaximum fzero v) then fone else fzero) =
  (if flt fzero v then fone else fzero).
Proof.
  unfold fmaximum. rewrite fisnan_zero, orb_false_r.
  destruct (fle v fzero) eqn:Hv; [|reflexivity].
  rewrite flt_irrefl_zero, (fle_not_flt v Hv). reflexivity.
Qed.

Lemma relu_derivative_relu `{!ScalarOrder F} (z : ndarray F) :
  relu_derivative (relu z) = relu_derivative z.
Proof.
  unfold relu_derivative, relu, amap. cbn [nrows ncols tabulate].
  apply tabulate_ext. intros i j Hi Hj.
  unfold at_ at 1. rewrite get_tabulate by assumption.
  apply mask_of_relu.
Qed.

(** ** The calls of a method, one by one *)

Lemma mbind_call {A B : Type} (r : result A) (k : A -> method F B)
    (self : NeuralNetwork F) :
  mbind (call r) k self =
  match r with
  | Ok a => k a self
  | Raise e => (Raise e, self)
  end.
Proof. unfold mbind, call. destruct r; reflexivity. Qed.

Lemma mbind_load {B : Type} (p : param) (k : ndarray F -> method F B)
    (self : NeuralNetwork F) :
  mbind (load p) k self = k (get_param p self) self.
Proof. reflexivity. Qed.

Lemma mbind_load_cache {B : Type} (c : cache) (k : ndarray F -> method F B)
    (self : NeuralNetwork F) (v : ndarray F) :
  get_cache c self = Some v -> mbind (load_cache c) k self = k v self.
Proof. intros Hc. unfold mbind, load_cache. rewrite Hc. reflexivity. Qed.

Lemma mbind_store_cache {B : Type} (c : cache) (v : ndarray F)
    (k : unit -> method F B) (self : NeuralNetwork F) :
  mbind (store_cache c v) k self = k tt (set_cache c v self).
Proof. reflexivity. Qed.

Lemma mbind_iadd_param {B : Type} (p : param) (delta : ndarray F)
    (k : unit -> method F B) (self : NeuralNetwork F) :
  mbind (iadd_param p delta) k self =
  match iadd (get_param p self) delta with
  | Ok v => k tt (set_param p v self)
  | Raise e => (Raise e, self)
  end.
Proof.
  unfold mbind, iadd_param. destruct (iadd (get_param p self) delta); reflexivity.
Qed.

End NetworkFacts.

(** ** When [forward] returns *)

Section ForwardReturns.

Import NetworkCore.

Context {F : Type} `{Scalar F} `{Exponential F}.

Lemma affine_returns (x W b : ndarray F) :
  ncols x = nrows W -> shape b = (1%nat, ncols W) ->
  exists z, affine x W b = Ok z /\ shape z = (nrows x, ncols W).
Proof.
  intros Hx Hb. unfold shape in Hb. injection Hb as Hbr Hbc.
  unfold affine, dot. rewrite Hx, Nat.eqb_refl. cbn [Py.bind].
  unfold np_add, broadcast2. cbn [nrows ncols tabulate].
  rewrite Hbr, Hbc, broadcast_dim_one, broadcast_dim_same.
  eexists. split; reflexivity.
Qed.

Lemma softmax_returns (z : ndarray F) :
  (0 < ncols z)%nat -> exists out, softmax z = Ok out /\ shape out = shape z.
Proof.
  intros Hc. unfold softmax, max_axis1.
  destruct (ncols z) as [|m] eqn:Hm; [lia|]. cbn [Py.bind].
  unfold np_sub, broadcast2. cbn [nrows ncols tabulate].
  rewrite Hm, broadcast_dim_same, broadcast_dim_one. cbn [Py.bind].
  unfold np_div, broadcast2, amap, sum_axis1. cbn [nrows ncols tabulate].
  rewrite broadcast_dim_same, broadcast_dim_one.
  eexists. split; [reflexivity|]. unfold shape. cbn [nrows ncols tabulate].
  rewrite Hm. reflexivity.
Qed.

(** With fitting shapes [forward] returns, one row of outputs per row of
    the batch. *)
Lemma forward_returns (X : ndarray F) (self : NeuralNetwork F) :
  fits self X ->
  exists out self',
    forward X self = (Ok out, self') /\
    shape out = (nrows X, ncols (hidden_weights2 self)).
Proof.
  intros (Hin & Hb1 & Hh1 & Hb2 & Hh2 & Hb3 & Hout).
  unfold forward. rewrite !mbind_load, mbind_call. cbn [get_param].
  destruct (affine_returns X _ _ Hin Hb1) as (z1 & -> & Hz1).
  rewrite mbind_store_cache.
  set (self1 := set_cache Hidden1 (relu z1) self).
  rewrite (mbind_load_cache Hidden1 _ self1 (relu z1) eq_refl).
  rewrite !mbind_load, mbind_call.
  assert (ncols (relu z1) = nrows (hidden_weights1 self)) as Hr1.
  { unfold shape in Hz1. injection Hz1 as _ Hc. cbn [relu amap ncols tabulate].
    rewrite Hc. exact Hh1. }
  destruct (affine_returns (relu z1) _ _ Hr1 Hb2) as (z2 & Hz2eq & Hz2).
  change (get_param HiddenWeights1 self1) with (hidden_weights1 self).
  change (get_param HiddenBias2 self1) with (hidden_bias2 self).
  rewrite Hz2eq, mbind_store_cache.
  set (self2 := set_cache Hidden2 (relu z2) self1).
  rewrite (mbind_load_cache Hidden2 _ self2 (relu z2) eq_refl).
  rewrite !mbind_load, mbind_call.
  assert (ncols (relu z2) = nrows (hidden_weights2 self)) as Hr2.
  { unfold shape in Hz2. injection Hz2 as _ Hc. cbn [relu amap ncols tabulate].
    rewrite Hc. exact Hh2. }
  destruct (affine_returns (relu z2) _ _ Hr2 Hb3) as (z3 & Hz3eq & Hz3).
  change (get_param HiddenWeights2 self2) with (hidden_weights2 self).
  change (get_param OutputBias self2) with (output_bias self).
  rewrite Hz3eq, mbind_call.
  assert (0 < ncols z3)%nat as Hc3.
  { unfold shape in Hz3. injection Hz3 as _ Hc. rewrite Hc. exact Hout. }
  destruct (softmax_returns z3 Hc3) as (out & Hsm & Hso).
  rewrite Hsm, mbind_store_cache.
  exists out, (set_cache Output out self2). split; [reflexivity|].
  rewrite Hso, Hz3. unfold shape in *.
  injection Hz2 as Hn2 _. injection Hz1 as Hn1 _.
  cbn [relu amap nrows tabulate]. congruence.
Qed.

End ForwardReturns.

(** ** The three arithmetics are ordered as the mask needs *)

#[export] Instance Q_order : ScalarOrder Q.
Proof.
  split; [reflexivity | reflexivity |].
  intros x Hx. cbn [flt fle Q_scalar] in *. rewrite Hx. reflexivity.
Qed.

#[export] Instance R_order : ScalarOrder R.
Proof.
  split; cbn [fisnan flt fle fzero R_scalar]; [reflexivity | |].
  - unfold Rltb. destruct (Rlt_dec 0 0); [lra | reflexivity].
  - intros x. unfold Rltb, Rleb.
    destruct (Rle_dec x 0); [|discriminate].
    destruct (Rlt_dec 0 x); [lra | reflexivity].
Qed.

#[export] Instance float64_order : ScalarOrder float.
Proof.
  split; cbn [fisnan flt fle fzero float64_scalar]; [reflexivity | reflexivity |].
  intros x. rewrite FloatAxioms.leb_spec, FloatAxioms.ltb_spec.
  change (Prim2SF PrimFloat.zero) with (S754_zero false).
  destruct (Prim2SF x) as [s | s | | s m e]; try destruct s; cbn; congruence.
Qed.

Section NetworkExamples.

Import NetworkCore.

(** A network with two inputs, hidden layers of two and one units and two
    outputs, after a forward pass with the pre-activations [1, -3] and [2]. *)
Definition example_network : NeuralNetwork Q :=
  Network 2 2 1 2
    (np_array [[1; 2]; [3; 4]]%Q) (np_array [[1]; [-1]]%Q) (np_array [[1; 2]]%Q)
    (np_array [[0; 0]]%Q) (np_array [[0]]%Q) (np_array [[0; 0]]%Q)
    (Some (relu (np_array [[1; -3]]%Q))) (Some (relu (np_array [[2]]%Q))) None.

(** [backward] does change the parameters: here the output weights
    [1, 2] become [0.9, 2.1]. *)
Example backward_updates_weights :
  hidden_weights2
    (snd (backward (np_array [[1; 1]]%Q) (np_array [[0; 1]]%Q)
            (np_array [[1 # 2; 1 # 2]]%Q) (1 # 10)%Q example_network)) =
  np_array [[9 # 10; 21 # 10]]%Q.
Proof. vm_compute. reflexivity. Qed.

End NetworkExamples.
(** * Softmax in exact arithmetic *)

Section SoftmaxFacts.

Import NetworkCore.

Local Open Scope R_scope.

Lemma fold_left_Rplus (l : list R) (a : R) :
  fold_left Rplus l a = a + fold_left Rplus l 0.
Proof.
  revert a. induction l as [|x l IH]; intros a; simpl; [lra|].
  rewrite (IH (a + x)), (IH (0 + x)). lra.
Qed.

Lemma fsum_cons (x : R) (l : list R) : fsum (x :: l) = x + fsum l.
Proof. unfold fsum. simpl. rewrite fold_left_Rplus. cbn [fzero R_scalar]. lra. Qed.

Lemma fsum_pos (l : list R) :
  l <> [] -> Forall (fun e => 0 < e) l -> 0 < fsum l.
Proof.
  intros Hne Hpos. induction Hpos as [|x l Hx Hl IH]; [congruence|].
  rewrite fsum_cons. destruct l as [|y l'].
  - unfold fsum. simpl. cbn [fzero R_scalar]. lra.
  - assert (0 < fsum (y :: l')) by (apply IH; discriminate). lra.
Qed.

Lemma fsum_nonneg (l : list R) : Forall (fun e => 0 < e) l -> 0 <= fsum l.
Proof.
  intros Hpos. destruct l as [|x l]; [unfold fsum; simpl; cbn; lra|].
  apply Rlt_le, fsum_pos; [discriminate | exact Hpos].
Qed.

Lemma fsum_scaled (l : list R) (s : R) :
  fsum (map (fun e => e / s) l) = fsum l / s.
Proof.
  induction l as [|x l IH].
  - unfold fsum. simpl. cbn [fzero R_scalar]. unfold Rdiv. lra.
  - cbn [map]. rewrite !fsum_cons, IH. unfold Rdiv. lra.
Qed.

(** A list of positive numbers divided by its sum sums to 1, and every
    quotient is between 0 and 1. *)
Lemma normalized_row (l : list R) :
  l <> [] -> Forall (fun e => 0 < e) l ->
  fsum (map (fun e => e / fsum l) l) = 1 /\
  Forall (fun p => 0 <= p <= 1) (map (fun e => e / fsum l) l).
Proof.
  intros Hne Hpos. pose proof (fsum_pos l Hne Hpos) as Hs.
  split; [rewrite fsum_scaled; field; lra|].
  apply List.Forall_forall. intros p Hp. apply in_map_iff in Hp.
  destruct Hp as (e & <- & He).
  assert (0 < e) as Hepos by (rewrite List.Forall_forall in Hpos; apply Hpos, He).
  assert (e <= fsum l) as Hle.
  { clear Hne Hs. induction Hpos as [|x l Hx Hl IH]; [contradiction|].
    rewrite fsum_cons. pose proof (fsum_nonneg l Hl).
    destruct He as [-> | He]; [lra|]. specialize (IH He). lra. }
  split.
  - apply Rlt_le, Rdiv_lt_0_compat; assumption.
  - apply (Rmult_le_reg_r (fsum l)); [exact Hs|].
    unfold Rdiv. rewrite Rmult_assoc, Rinv_l by lra. lra.
Qed.

Lemma max_axis1_shape (x m : ndarray R) :
  max_axis1 x = Ok m ->
  nrows m = nrows x /\ ncols m = 1%nat /\ (0 < ncols x)%nat.
Proof.
  unfold max_axis1. destruct (ncols x); [discriminate|].
  intros [= <-]. cbn [nrows ncols tabulate]. repeat split. lia.
Qed.

(** An array and a column of the same height: the column is broadcast
    over the columns of the array. *)
Lemma broadcast2_column (f : R -> R -> R) (a col out : ndarray R) :
  nrows col = nrows a -> ncols col = 1%nat ->
  broadcast2 fzero fzero f a col = Ok out ->
  out = tabulate (nrows a) (ncols a) (fun i j => f (at_ a i j) (at_ col i 0)).
Proof.
  intros Hn Hc. unfold broadcast2.
  rewrite Hn, Hc, broadcast_dim_same, broadcast_dim_one.
  intros [= <-]. apply tabulate_ext. intros i j Hi Hj.
  rewrite !broadcast_index_lt by assumption. reflexivity.
Qed.

(** Every row of a softmax is a probability vector. *)
Lemma softmax_rows (x out : ndarray R) :
  softmax x = Ok out ->
  shape out = shape x /\
  Forall (fun row => fsum row = 1 /\ Forall (fun p => 0 <= p <= 1) row)
         (rows out).
Proof.
  unfold softmax.
  destruct (max_axis1 x) as [m|] eqn:Hm; [|discriminate].
  destruct (max_axis1_shape x m Hm) as (Hmr & Hmc & Hpos).
  cbn [Py.bind].
  destruct (np_sub x m) as [shifted|] eqn:Hs; [|discriminate].
  apply (broadcast2_column fsub x m shifted Hmr Hmc) in Hs.
  cbn [Py.bind]. set (exp_x := amap fexp shifted).
  assert (nrows exp_x = nrows x /\ ncols exp_x = ncols x) as [Her Hec].
  { subst exp_x shifted. split; reflexivity. }
  assert (forall i j, (i < nrows x)%nat -> (j < ncols x)%nat -> 0 < at_ exp_x i j)
    as Hexp.
  { intros i j Hi Hj. subst exp_x. unfold amap, at_ at 1.
    rewrite get_tabulate by (subst shifted; assumption). apply exp_pos. }
  intros Hout.
  apply (broadcast2_column fdiv exp_x (sum_axis1 exp_x) out eq_refl eq_refl) in Hout.
  rewrite Her, Hec in Hout. subst out. clearbody exp_x. clear Hs shifted Hm m Hmr Hmc.
  split; [reflexivity|].
  apply List.Forall_forall. intros row Hrow.
  apply list_elem_of_In, list_elem_of_lookup_1 in Hrow. destruct Hrow as [i Hi].
  apply tabulate_row in Hi. destruct Hi as [Hlt ->].
  set (l := map (fun j => at_ exp_x i j) (seq 0 (ncols x))).
  assert (at_ (sum_axis1 exp_x) i 0 = fsum l) as ->.
  { unfold sum_axis1, at_ at 1. rewrite get_tabulate by lia.
    subst l. rewrite Hec. reflexivity. }
  assert (map (fun j => fdiv (at_ exp_x i j) (fsum l)) (seq 0 (ncols x)) =
          map (fun e => e / fsum l) l) as ->
    by (subst l; rewrite map_map; reflexivity).
  apply normalized_row.
  - subst l. destruct (ncols x); [lia | discriminate].
  - subst l. apply List.Forall_forall. intros e He. apply in_map_iff in He.
    destruct He as (j & <- & Hj). apply in_seq in Hj. apply Hexp; lia.
Qed.

Lemma forward_output (X out : ndarray R) (self self' : NeuralNetwork R) :
  forward X self = (Ok out, self') -> exists z, softmax z = Ok out.
Proof.
  unfold forward.
  rewrite !mbind_load, mbind_call.
  destruct (affine X _ _) as [z1|]; [|discriminate].
  rewrite mbind_store_cache.
  set (self1 := set_cache Hidden1 (relu z1) self).
  rewrite (mbind_load_cache Hidden1 _ self1 (relu z1) eq_refl).
  rewrite !mbind_load, mbind_call.
  destruct (affine (relu z1) _ _) as [z2|]; [|discriminate].
  rewrite mbind_store_cache.
  set (self2 := set_cache Hidden2 (relu z2) self1).
  rewrite (mbind_load_cache Hidden2 _ self2 (relu z2) eq_refl).
  rewrite !mbind_load, mbind_call.
  destruct (affine (relu z2) _ _) as [z3|]; [|discriminate].
  rewrite mbind_call.
  destruct (softmax z3) as [o|] eqn:Ho; [|discriminate].
  rewrite mbind_store_cache.
  unfold load_cache. cbn [get_cache set_cache output].
  intros [= <- _]. exists z3. exact Ho.
Qed.

Lemma forward_rows (X out : ndarray R) (self self' : NeuralNetwork R) :
  forward X self = (Ok out, self') ->
  Forall (fun row => fsum row = 1 /\ Forall (fun p => 0 <= p <= 1) row)
         (rows out).
Proof.
  intros Hf. destruct (forward_output X out self self' Hf) as [z Hz].
  apply (softmax_rows z out Hz).
Qed.

(** C5, in exact arithmetic.  With real numbers for the array elements,
    on every batch whose width is the input size of the network [forward]
    returns a matrix, one row per sample and one column per output, and
    that matrix is row-stochastic: every entry lies between 0 and 1 and
    every row sums to 1.  The floating-point result of the script is the
    rounded counterpart of this matrix; how far rounding moves a row sum
    from 1, and what overflow does, is not part of the statement. *)
Theorem forward_row_stochastic (X : ndarray R) (self : NeuralNetwork R) :
  fits self X ->
  exists out self',
    forward X self = (Ok out, self') /\
    shape out = (nrows X, ncols (hidden_weights2 self)) /\
    Forall (fun row => fsum row = 1 /\ Forall (fun p => 0 <= p <= 1) row)
           (rows out).
Proof.
  intros Hfits.
  destruct (forward_returns X self Hfits) as (out & self' & Hf & Hshape).
  exists out, self'. split; [exact Hf|]. split; [exact Hshape|].
  exact (forward_rows X out self self' Hf).
Qed.

(** A network with two units in every layer, all weights 1, on the
    batch of the one sample [1, 1]. *)
Definition unit_network : NeuralNetwork R :=
  init (fun _ _ => 1) (fun _ _ => 1) (fun _ _ => 1) 2 2 2 2.

Lemma forward_row_stochastic_witness :
  exists out self',
    forward (np_array [[1; 1]]) unit_network = (Ok out, self') /\
    shape out = (1%nat, 2%nat) /\
    Forall (fun row => fsum row = 1 /\ Forall (fun p => 0 <= p <= 1) row)
           (rows out).
Proof.
  apply (forward_row_stochastic (np_array [[1; 1]]) unit_network).
  unfold fits. cbn. repeat split; lia.
Defined.

End SoftmaxFacts.

(** ** Overflow *)

Section Overflow.

Import NetworkCore.

(** The network of the default sizes with every weight 1, and a batch of
    one sample whose four features are the finite float 2^1023. *)
Definition ones_network : NeuralNetwork float :=
  init (fun _ _ => 1%float) (fun _ _ => 1%float) (fun _ _ => 1%float) 4 16 8 4.

Definition huge_batch : ndarray float :=
  np_array [[0x1p1023; 0x1p1023; 0x1p1023; 0x1p1023]]%float.

(** C5 fails in binary64.  The features of [huge_batch] are finite, and
    so are the weights; the sums of the first layer overflow to
    infinity, every score of the output layer is infinity, and [softmax]
    subtracts the maximum of the row from it: infinity minus infinity is
    NaN, and with an exponential that maps NaN to NaN, as [np.exp] does,
    the row [forward] returns is made of NaN: no entry is between 0 and 1
    and the sum of the row is NaN. *)
Lemma forward_overflow_nan :
  Forall (Forall (fun x => is_finite x = true)) (rows huge_batch) /\
  Forall (Forall (Forall (fun x => is_finite x = true)))
    (map rows (parameters ones_network)) /\
  (forall exponential : Exponential float, fexp nan = nan ->
     fst (forward huge_batch ones_network) =
     Ok (NdArray 1 4 [[nan; nan; nan; nan]])) /\
  fle fzero nan = false /\ fle nan fone = false /\
  fsum [nan; nan; nan; nan] = nan.
Proof.
  split; [repeat constructor|]. split; [vm_compute; repeat constructor|].
  split; [|repeat split].
  intros [exp] Hexp. vm_compute in Hexp.
  vm_compute. rewrite Hexp. vm_compute. reflexivity.
Qed.

End Overflow.
(** * Properties of the training loop *)

Section TrainingFacts.

Import TrainingController.

Context {net array F : Type}.

Variable forward : array -> net -> result array * net.
Variable backward : array -> array -> array -> F -> net -> result unit * net.
Variable mean_square : array -> array -> result F.
Variable slice : array -> nat -> nat -> array.
Variable len : array -> nat.
Variable loss_add : F -> F -> F.
Variable loss_zero : F.
Variable loss_lt : F -> F -> bool.
Variable inf : F.
Variable report : nat -> F -> nat -> F -> result unit.

Variables X y X_val y_val : array.
Variable learning_rate : F.
Variable batch_size : nat.
Variable patience : Z.
Variable self : net.

(** The validation losses of the run: [v e] is the loss of epoch [e]. *)
Variable v : nat -> F.

Local Abbreviation pass :=
  (epoch_pass forward backward mean_square slice len loss_add loss_zero report
     X y X_val y_val learning_rate batch_size).
Local Abbreviation before :=
  (network_before forward backward mean_square slice len loss_add loss_zero
     report X y X_val y_val learning_rate batch_size).
Local Abbreviation loss_at e :=
  (val_loss_at forward backward mean_square slice len loss_add loss_zero
     report X y X_val y_val learning_rate batch_size e self).
Local Abbreviation loop :=
  (train_loop forward backward mean_square slice len loss_add loss_zero
     loss_lt report X y X_val y_val learning_rate batch_size patience).
Local Abbreviation state e := (state_before loss_lt inf v e).
Local Abbreviation breaks e := (breaks_at loss_lt inf patience v e).
Local Abbreviation improves e := (improves_at loss_lt inf v e).

Lemma epoch_pass_of_loss (e : nat) (self0 : net) :
  before e self = Some self0 -> loss_at e = Some (v e) ->
  exists self1, pass e self0 = (Ok (v e), self1) /\ before (S e) self = Some self1.
Proof.
  intros Hb Hl. unfold val_loss_at in Hl. rewrite Hb in Hl.
  cbn [network_before]. rewrite Hb.
  destruct (pass e self0) as [[l|ex] self1]; [|discriminate].
  injection Hl as ->. exists self1. split; reflexivity.
Qed.

(** The loop breaks at the first epoch whose check says so. *)
Lemma train_loop_breaks (t remaining e0 : nat) (self0 : net) :
  (e0 <= t < e0 + remaining)%nat ->
  before e0 self = Some self0 ->
  (forall e, (e0 <= e <= t)%nat -> loss_at e = Some (v e)) ->
  (forall e, (e0 <= e < t)%nat -> breaks e = false) ->
  breaks t = true ->
  fst (loop remaining e0 (state e0) self0) = Ok (EarlyStopping t).
Proof.
  revert e0 self0. induction remaining as [|r IH]; intros e0 self0 Ht Hb Hl Hno Hbr;
    [lia|].
  destruct (epoch_pass_of_loss e0 self0 Hb (Hl e0 ltac:(lia))) as (self1 & Hp & Hb1).
  cbn [train_loop]. rewrite Hp.
  destruct (Nat.eq_dec e0 t) as [-> | Hne].
  - unfold breaks_at in Hbr. rewrite Hbr. reflexivity.
  - pose proof (Hno e0 ltac:(lia)) as Hn. unfold breaks_at in Hn. rewrite Hn.
    apply (IH (S e0) self1); [lia | exact Hb1 | | | exact Hbr].
    + intros e He. apply Hl. lia.
    + intros e He. apply Hno. lia.
Qed.

(** Without a break the loop runs all its epochs. *)
Lemma train_loop_exhausts (remaining e0 : nat) (self0 : net) :
  before e0 self = Some self0 ->
  (forall e, (e0 <= e < e0 + remaining)%nat -> loss_at e = Some (v e)) ->
  (forall e, (e0 <= e < e0 + remaining)%nat -> breaks e = false) ->
  fst (loop remaining e0 (state e0) self0) = Ok Exhausted.
Proof.
  revert e0 self0. induction remaining as [|r IH]; intros e0 self0 Hb Hl Hno;
    [reflexivity|].
  destruct (epoch_pass_of_loss e0 self0 Hb (Hl e0 ltac:(lia))) as (self1 & Hp & Hb1).
  cbn [train_loop]. rewrite Hp.
  pose proof (Hno e0 ltac:(lia)) as Hn. unfold breaks_at in Hn. rewrite Hn.
  apply (IH (S e0) self1); [exact Hb1 | |].
  - intros e He. apply Hl. lia.
  - intros e He. apply Hno. lia.
Qed.

(** While the loop has not broken, the counter stays below a positive
    patience. *)
Lemma counter_below_patience (t : nat) :
  1 <= patience ->
  (forall e, (e < t)%nat -> breaks e = false) ->
  0 <= patience_counter (state t) < patience.
Proof.
  intros Hp. induction t as [|t IH]; intros Hno.
  - cbn. lia.
  - specialize (IH ltac:(intros e He; apply Hno; lia)).
    pose proof (Hno t ltac:(lia)) as Hn. unfold breaks_at, stops_here in Hn.
    cbn [state_before]. unfold improvement_check.
    destruct (loss_lt (v t) (best_val_loss (state t))); cbn [patience_counter];
      [lia|].
    cbn [negb andb] in Hn. apply Z.leb_gt in Hn. lia.
Qed.

(** After an improvement at [k] and none later, the state [j] epochs on
    holds the loss of [k] and the counter [j]. *)
Lemma state_after_improvement (k j : nat) :
  improves k = true ->
  (forall i, (k < i)%nat -> loss_lt (v i) (v k) = false) ->
  state (S k + j) =
  {| best_val_loss := v k; patience_counter := Z.of_nat j |}.
Proof.
  intros Hk Hlater. induction j as [|j IH].
  - rewrite Nat.add_0_r. cbn [state_before]. unfold improvement_check.
    unfold improves_at in Hk. rewrite Hk. reflexivity.
  - replace (S k + S j)%nat with (S (S k + j)) by lia.
    cbn [state_before]. rewrite IH. unfold improvement_check.
    cbn [best_val_loss patience_counter].
    rewrite (Hlater (S k + j)%nat) by lia. f_equal. lia.
Qed.

Lemma breaks_after_improvement (k j : nat) :
  improves k = true ->
  (forall i, (k < i)%nat -> loss_lt (v i) (v k) = false) ->
  breaks k = false /\
  breaks (S k + j) = (patience <=? Z.of_nat j + 1).
Proof.
  intros Hk Hlater. split.
  - unfold breaks_at, stops_here. unfold improves_at in Hk. rewrite Hk. reflexivity.
  - unfold breaks_at, stops_here.
    rewrite (state_after_improvement k j Hk Hlater). cbn [best_val_loss patience_counter].
    rewrite (Hlater (S k + j)%nat) by lia. reflexivity.
Qed.

Local Abbreviation run epochs :=
  (train forward backward mean_square slice len loss_add loss_zero loss_lt inf
     report X y X_val y_val epochs learning_rate batch_size patience self).

(** C2, amended: for a patience of at least 1.  Training stops at the
    first epoch at which the validation loss does not improve and the
    counter, just incremented, reaches the patience, or after the budget
    of epochs when no epoch does, whichever comes first.  In particular,
    when the validation loss strictly improves at epoch [k], never
    strictly improves at a later epoch, and [k + p] is within the budget,
    training stops at epoch [k + p] when that epoch is within the
    budget, and runs out of epochs otherwise. *)
Theorem train_early_stopping (epochs k : nat) :
  1 <= patience ->
  let stopped :=
    fst (train forward backward mean_square slice len loss_add loss_zero
           loss_lt inf report X y X_val y_val epochs learning_rate batch_size
           patience self) in
  (forall t, (t < epochs)%nat ->
     (forall e, (e <= t)%nat -> loss_at e = Some (v e)) ->
     (forall e, (e < t)%nat -> breaks e = false) -> breaks t = true ->
     stopped = Ok (EarlyStopping t) /\
     improves t = false /\
     patience_counter (state t) + 1 = patience) /\
  ((forall e, (e < epochs)%nat -> loss_at e = Some (v e)) ->
   (forall e, (e < epochs)%nat -> breaks e = false) ->
   stopped = Ok Exhausted) /\
  (forall p : nat, patience = Z.of_nat p -> (k < epochs)%nat ->
     (forall e, (e < epochs)%nat -> (e <= k + p)%nat -> loss_at e = Some (v e)) ->
     (forall e, (e < k)%nat -> breaks e = false) ->
     improves k = true ->
     (forall j, (k < j)%nat -> loss_lt (v j) (v k) = false) ->
     stopped =
     Ok (if (k + p <? epochs)%nat then EarlyStopping (k + p) else Exhausted)).
Proof.
  intros Hp stopped. subst stopped.
  assert (forall t, (t < epochs)%nat ->
            (forall e, (e <= t)%nat -> loss_at e = Some (v e)) ->
            (forall e, (e < t)%nat -> breaks e = false) -> breaks t = true ->
            fst (run epochs) = Ok (EarlyStopping t)) as Hbreak.
  { intros t Ht Hl Hno Hbr. unfold train.
    apply (train_loop_breaks t epochs 0 self); try assumption; try reflexivity.
    - lia.
    - intros e He. apply Hl. lia.
    - intros e He. apply Hno. lia. }
  split; [|split].
  - intros t Ht Hl Hno Hbr. split; [apply Hbreak; assumption|].
    pose proof (counter_below_patience t Hp Hno) as Hc.
    unfold breaks_at, stops_here in Hbr. apply andb_true_iff in Hbr.
    destruct Hbr as [Hni Hle]. apply Z.leb_le in Hle.
    split; [|lia].
    unfold improves_at. destruct (loss_lt (v t) _); [discriminate | reflexivity].
  - intros Hl Hno. unfold train.
    apply (train_loop_exhausts epochs 0 self); [reflexivity | |].
    + intros e He. apply Hl. lia.
    + intros e He. apply Hno. lia.
  - intros p Hpp Hk_lt Hl Hreach Hk Hlater.
    assert (1 <= p)%nat as Hp1 by lia.
    assert (forall e, (e < k + p)%nat -> breaks e = false) as Hno.
    { intros e He. destruct (Nat.lt_ge_cases e k) as [Hlt | Hge]; [apply Hreach, Hlt|].
      destruct (Nat.eq_dec e k) as [-> | Hne];
        [apply (breaks_after_improvement k 0 Hk Hlater)|].
      replace e with (S k + (e - S k))%nat by lia.
      rewrite (proj2 (breaks_after_improvement k (e - S k) Hk Hlater)).
      apply Z.leb_gt. lia. }
    destruct (Nat.ltb_spec (k + p) epochs) as [Hin | Hout].
    + apply Hbreak; [exact Hin | | exact Hno |].
      * intros e He. apply Hl; lia.
      * replace (k + p)%nat with (S k + (p - 1))%nat by lia.
        rewrite (proj2 (breaks_after_improvement k (p - 1) Hk Hlater)).
        apply Z.leb_le. lia.
    + unfold train.
      apply (train_loop_exhausts epochs 0 self); [reflexivity | |].
      * intros e He. apply Hl; lia.
      * intros e He. apply Hno. lia.
Qed.

End TrainingFacts.

(** ** A run of the loop

    A network that counts its backward steps and "predicts" the count;
    the loss falls for three steps, 9, 8, 7, and stays at 7 afterwards.
    One batch per epoch, so the validation loss improves at epochs 0, 1, 2
    and never again. *)
Section TrainingRun.

Import TrainingController.

Definition toy_loss (steps : nat) : float :=
  match steps with
  | 0%nat => 10%float
  | 1%nat => 9%float
  | 2%nat => 8%float
  | _ => 7%float
  end.

Definition toy_train (epochs : nat) (patience : Z) : result outcome * nat :=
  train (net := nat) (array := nat) (F := float)
    (fun _ self => (Ok self, self))
    (fun _ _ _ _ self => (Ok tt, S self))
    (fun _ output => Ok (toy_loss output))
    (fun a _ _ => a) (fun _ => 1%nat)
    PrimFloat.add 0%float PrimFloat.ltb infinity
    (fun _ _ _ _ => Ok tt)
    0%nat 0%nat 0%nat 0%nat epochs 0.5%float 32 patience 0%nat.

(** The validation losses of the run. *)
Definition toy_losses (e : nat) : float := toy_loss (S e).

(** C2, as the specification states it, fails for a patience of 0: the
    loss improves at epoch 2 and never again, and training stops at
    epoch 3, not at epoch 2 + 0; the counter is at the patience from the
    start on and training goes on. *)
Lemma patience_zero_stops_one_epoch_late :
  improves_at PrimFloat.ltb infinity toy_losses 2 = true /\
  (forall j, (2 < j)%nat ->
     PrimFloat.ltb (toy_losses j) (toy_losses 2) = false) /\
  patience_counter (state_before PrimFloat.ltb infinity toy_losses 0) = 0 /\
  fst (toy_train 10 0) = Ok (EarlyStopping 3) /\
  EarlyStopping 3 <> EarlyStopping (2 + 0).
Proof.
  split; [reflexivity|].
  split; [intros j Hj; do 3 (destruct j as [|j]; [lia|]); reflexivity|].
  split; [reflexivity|].
  split; [vm_compute; reflexivity | discriminate].
Qed.

Lemma train_early_stopping_witness :
  fst (toy_train 10 2) =
  Ok (if (2 + 2 <? 10)%nat then EarlyStopping (2 + 2) else Exhausted).
Proof.
  refine (proj2 (proj2 (train_early_stopping _ _ _ _ _ _ _ _ _ _ _ _ _ _ _ _ 2 _
                          toy_losses 10 2 _)) 2%nat _ _ _ _ _ _).
  - lia.
  - reflexivity.
  - lia.
  - intros e He. do 5 (destruct e as [|e]; [reflexivity|]). lia.
  - intros e He. do 2 (destruct e as [|e]; [reflexivity|]). lia.
  - reflexivity.
  - intros j Hj. do 3 (destruct j as [|j]; [lia|]). reflexivity.
Defined.

End TrainingRun.
(** * [backward] against the gradient step of the specification *)

Section GradientFacts.

Import NetworkCore GradientStep.

(** A network of the default sizes in which one unit of each hidden
    layer is active on the sample: the red reading [2048, 0, 0, 0],
    normalized, with its one-hot target.  Every value here and below is a
    small multiple of a power of two, which float32 and float64 hold and
    add exactly, in any order. *)
Definition dead_units_network : NeuralNetwork float :=
  init (fun _ j => if (j =? 0)%nat then 1 else 0)%float
       (fun _ j => if (j =? 0)%nat then 1 else (-1))%float
       (fun i j => if (i =? 0)%nat || (j =? 0)%nat then 1 else 0)%float
       4 16 8 4.

Definition red_sample : ndarray float := np_array [[1; 0; 0; 0]]%float.

Definition red_target : ndarray float := np_array [[1; 0; 0; 0]]%float.

(** What [forward] returns for the sample, and the activations it
    caches: the first unit of each hidden layer is at 1, the others, at
    or below 0 before the ReLU, are at 0. *)
Definition red_output : ndarray float :=
  NdArray 1 4 [[0.25; 0.25; 0.25; 0.25]]%float.

Definition unit_row (n : nat) : ndarray float :=
  NdArray 1 n [map (fun j => if (j =? 0)%nat then 1 else 0)%float (seq 0 n)].

Definition after_forward : NeuralNetwork float :=
  set_cache Output red_output
    (set_cache Hidden2 (unit_row 8)
       (set_cache Hidden1 (unit_row 16) dead_units_network)).

(** C3 fails on the code.  After [forward] on the red sample, [backward]
    with learning rate 0.5 updates the three output-side parameters and
    the second hidden layer as the gradient step of the specification
    does, but not the first layer: line 40 takes [hidden1_error] from
    [hidden2_error], the error before it is multiplied by the ReLU
    derivative of the second hidden layer, where back-propagation takes
    it from [hidden2_delta].  Here the only active unit of the second
    layer carries no error, so that the gradient step leaves the first
    layer as it is; [backward] moves [input_weights[0][0]] from 1 to
    -1.625 and [hidden_bias1[0][0]] from 0 to -2.625, with the error of
    the seven units that are switched off. *)
Theorem backward_skips_relu_derivative :
  (forall exponential : Exponential float, fexp 0%float = 1%float ->
     forward red_sample dead_units_network = (Ok red_output, after_forward)) /\
  (exists self',
     backward red_sample red_target red_output 0.5%float after_forward =
       (Ok tt, self') /\
     let step :=
       gradient_step (rows red_sample) (rows red_target) (rows red_output)
         0.5%float (parameters_of after_forward) in
     rows (hidden_weights2 self') = weights3 step /\
     rows (hidden_weights1 self') = weights2 step /\
     rows (output_bias self') = bias3 step /\
     rows (hidden_bias2 self') = bias2 step /\
     weights1 step = rows (input_weights after_forward) /\
     bias1 step = rows (hidden_bias1 after_forward) /\
     at_ (input_weights after_forward) 0 0 = 1%float /\
     at_ (input_weights self') 0 0 = (-1.625)%float /\
     at_ (hidden_bias1 after_forward) 0 0 = 0%float /\
     at_ (hidden_bias1 self') 0 0 = (-2.625)%float).
Proof.
  split.
  - intros [exp] Hexp. vm_compute in Hexp.
    vm_compute. rewrite Hexp. vm_compute. reflexivity.
  - eexists. split; [vm_compute; reflexivity|].
    vm_compute. repeat split.
Qed.

End GradientFacts.
(** * One training step on the network core *)

Section TrainingStep.

Import NetworkCore TrainerScript.

Context {F : Type} `{Scalar F}.

Local Open Scope method_scope.

(** ** The calls of [forward] and [backward], one after the other *)

Lemma forward_calls `{Exponential F} (X : ndarray F) (self : NeuralNetwork F) :
  forward X self =
  match affine X (input_weights self) (hidden_bias1 self) with
  | Raise e => (Raise e, self)
  | Ok z1 =>
      let self1 := set_cache Hidden1 (relu z1) self in
      match affine (relu z1) (hidden_weights1 self) (hidden_bias2 self) with
      | Raise e => (Raise e, self1)
      | Ok z2 =>
          let self2 := set_cache Hidden2 (relu z2) self1 in
          match affine (relu z2) (hidden_weights2 self) (output_bias self) with
          | Raise e => (Raise e, self2)
          | Ok z3 =>
              match softmax z3 with
              | Raise e => (Raise e, self2)
              | Ok out => (Ok out, set_cache Output out self2)
              end
          end
      end
  end.
Proof.
  unfold forward. rewrite !mbind_load, mbind_call. cbn [get_param].
  destruct (affine X _ _) as [z1|e]; [|reflexivity].
  rewrite mbind_store_cache. cbv zeta.
  set (self1 := set_cache Hidden1 (relu z1) self).
  rewrite (mbind_load_cache Hidden1 _ self1 (relu z1) eq_refl).
  rewrite !mbind_load, mbind_call.
  change (get_param HiddenWeights1 self1) with (hidden_weights1 self).
  change (get_param HiddenBias2 self1) with (hidden_bias2 self).
  destruct (affine (relu z1) _ _) as [z2|e]; [|reflexivity].
  rewrite mbind_store_cache.
  set (self2 := set_cache Hidden2 (relu z2) self1).
  rewrite (mbind_load_cache Hidden2 _ self2 (relu z2) eq_refl).
  rewrite !mbind_load, mbind_call.
  change (get_param HiddenWeights2 self2) with (hidden_weights2 self).
  change (get_param OutputBias self2) with (output_bias self).
  destruct (affine (relu z2) _ _) as [z3|e]; [|reflexivity].
  rewrite mbind_call.
  destruct (softmax z3) as [out|e]; [|reflexivity].
  rewrite mbind_store_cache. reflexivity.
Qed.

Lemma backward_calls (X y predicted : ndarray F) (learning_rate : F)
    (self : NeuralNetwork F) (h1 h2 : ndarray F) :
  hidden1 self = Some h1 -> hidden2 self = Some h2 ->
  backward X y predicted learning_rate self =
  match np_sub y predicted with
  | Raise e => (Raise e, self)
  | Ok output_error =>
  match dot output_error (transpose (hidden_weights2 self)) with
  | Raise e => (Raise e, self)
  | Ok hidden2_error =>
  match dot hidden2_error (transpose (hidden_weights1 self)) with
  | Raise e => (Raise e, self)
  | Ok hidden1_error =>
  match np_mul hidden2_error (relu_derivative h2) with
  | Raise e => (Raise e, self)
  | Ok hidden2_delta =>
  match np_mul hidden1_error (relu_derivative h1) with
  | Raise e => (Raise e, self)
  | Ok hidden1_delta =>
  match dot (transpose h2) output_error with
  | Raise e => (Raise e, self)
  | Ok g2 =>
  match iadd (hidden_weights2 self) (scale learning_rate g2) with
  | Raise e => (Raise e, self)
  | Ok w2 =>
  let self1 := set_param HiddenWeights2 w2 self in
  match dot (transpose h1) hidden2_delta with
  | Raise e => (Raise e, self1)
  | Ok g1 =>
  match iadd (hidden_weights1 self) (scale learning_rate g1) with
  | Raise e => (Raise e, self1)
  | Ok w1 =>
  let self2 := set_param HiddenWeights1 w1 self1 in
  match dot (transpose X) hidden1_delta with
  | Raise e => (Raise e, self2)
  | Ok g0 =>
  match iadd (input_weights self) (scale learning_rate g0) with
  | Raise e => (Raise e, self2)
  | Ok w0 =>
  let self3 := set_param InputWeights w0 self2 in
  match iadd (output_bias self) (scale learning_rate (sum_axis0 output_error)) with
  | Raise e => (Raise e, self3)
  | Ok b3 =>
  let self4 := set_param OutputBias b3 self3 in
  match iadd (hidden_bias2 self) (scale learning_rate (sum_axis0 hidden2_delta)) with
  | Raise e => (Raise e, self4)
  | Ok b2 =>
  let self5 := set_param HiddenBias2 b2 self4 in
  match iadd (hidden_bias1 self) (scale learning_rate (sum_axis0 hidden1_delta)) with
  | Raise e => (Raise e, self5)
  | Ok b1 => (Ok tt, set_param HiddenBias1 b1 self5)
  end end end end end end end end end end end end end end.
Proof.
  intros Hh1 Hh2. unfold backward.
  rewrite mbind_call.
  destruct (np_sub y predicted) as [output_error|e]; [|reflexivity].
  rewrite mbind_load, mbind_call. cbn [get_param].
  destruct (dot output_error _) as [hidden2_error|e]; [|reflexivity].
  rewrite mbind_load, mbind_call. cbn [get_param].
  destruct (dot hidden2_error _) as [hidden1_error|e]; [|reflexivity].
  rewrite (mbind_load_cache Hidden2 _ self h2 Hh2), mbind_call.
  destruct (np_mul hidden2_error _) as [hidden2_delta|e]; [|reflexivity].
  rewrite (mbind_load_cache Hidden1 _ self h1 Hh1), mbind_call.
  destruct (np_mul hidden1_error _) as [hidden1_delta|e]; [|reflexivity].
  rewrite (mbind_load_cache Hidden2 _ self h2 Hh2), mbind_call.
  destruct (dot (transpose h2) output_error) as [g2|e]; [|reflexivity].
  rewrite mbind_iadd_param. cbn [get_param].
  destruct (iadd (hidden_weights2 self) _) as [w2|e]; [|reflexivity].
  cbv zeta. set (self1 := set_param HiddenWeights2 w2 self).
  rewrite (mbind_load_cache Hidden1 _ self1 h1 Hh1), mbind_call.
  destruct (dot (transpose h1) hidden2_delta) as [g1|e]; [|reflexivity].
  rewrite mbind_iadd_param.
  change (get_param HiddenWeights1 self1) with (hidden_weights1 self).
  destruct (iadd (hidden_weights1 self) _) as [w1|e]; [|reflexivity].
  set (self2 := set_param HiddenWeights1 w1 self1).
  rewrite mbind_call.
  destruct (dot (transpose X) hidden1_delta) as [g0|e]; [|reflexivity].
  rewrite mbind_iadd_param.
  change (get_param InputWeights self2) with (input_weights self).
  destruct (iadd (input_weights self) _) as [w0|e]; [|reflexivity].
  set (self3 := set_param InputWeights w0 self2).
  rewrite mbind_iadd_param.
  change (get_param OutputBias self3) with (output_bias self).
  destruct (iadd (output_bias self) _) as [b3|e]; [|reflexivity].
  set (self4 := set_param OutputBias b3 self3).
  rewrite mbind_iadd_param.
  change (get_param HiddenBias2 self4) with (hidden_bias2 self).
  destruct (iadd (hidden_bias2 self) _) as [b2|e]; [|reflexivity].
  set (self5 := set_param HiddenBias2 b2 self4).
  unfold iadd_param.
  change (get_param HiddenBias1 self5) with (hidden_bias1 self).
  destruct (iadd (hidden_bias1 self) _) as [b1|e]; reflexivity.
Qed.

(** ** Shapes *)

Lemma dot_returns (a b : ndarray F) :
  ncols a = nrows b ->
  exists c, dot a b = Ok c /\ nrows c = nrows a /\ ncols c = ncols b.
Proof.
  intros Hab. unfold dot. rewrite Hab, Nat.eqb_refl.
  eexists. split; [reflexivity|]. split; reflexivity.
Qed.

Lemma dot_raises (a b : ndarray F) :
  ncols a <> nrows b -> dot a b = Raise (ValueError "shapes not aligned").
Proof.
  intros Hab. unfold dot. destruct (Nat.eqb_spec (ncols a) (nrows b)); [contradiction|].
  reflexivity.
Qed.

Lemma broadcast2_same {A B C : Type} (dA : A) (dB : B) (f : A -> B -> C)
    (a : ndarray A) (b : ndarray B) :
  nrows a = nrows b -> ncols a = ncols b ->
  exists c, broadcast2 dA dB f a b = Ok c /\ nrows c = nrows a /\ ncols c = ncols a.
Proof.
  intros Hn Hm. unfold broadcast2. rewrite Hn, Hm, !broadcast_dim_same.
  eexists. split; [reflexivity|]. split; reflexivity.
Qed.

Lemma iadd_returns (a b : ndarray F) :
  nrows b = nrows a -> ncols b = ncols a ->
  exists c, iadd a b = Ok c /\ nrows c = nrows a /\ ncols c = ncols a.
Proof.
  intros Hn Hm. unfold iadd. rewrite Hn, Hm, !Nat.eqb_refl. cbn [orb andb].
  eexists. split; [reflexivity|]. split; reflexivity.
Qed.

Lemma well_shaped_shapes (self : NeuralNetwork F) :
  well_shaped self ->
  (nrows (input_weights self) = input_size self /\
   ncols (input_weights self) = hidden_size1 self) /\
  (nrows (hidden_weights1 self) = hidden_size1 self /\
   ncols (hidden_weights1 self) = hidden_size2 self) /\
  (nrows (hidden_weights2 self) = hidden_size2 self /\
   ncols (hidden_weights2 self) = output_size self) /\
  (nrows (hidden_bias1 self) = 1%nat /\ ncols (hidden_bias1 self) = hidden_size1 self) /\
  (nrows (hidden_bias2 self) = 1%nat /\ ncols (hidden_bias2 self) = hidden_size2 self) /\
  (nrows (output_bias self) = 1%nat /\ ncols (output_bias self) = output_size self).
Proof.
  unfold well_shaped, parameter_shapes, parameters, all_params, shape.
  cbn [map get_param]. intros [= -> -> ? ? ? ? ? ? ? ? ? ?].
  repeat split; congruence.
Qed.

Lemma well_shaped_fits (self : NeuralNetwork F) (X : ndarray F) :
  well_shaped self -> ncols X = input_size self -> (0 < output_size self)%nat ->
  fits self X.
Proof.
  intros Hw HX Ho.
  destruct (well_shaped_shapes self Hw)
    as ([? ?] & [? ?] & [? ?] & [? ?] & [? ?] & [? ?]).
  unfold fits, shape. repeat split; try congruence; try lia.
  all: f_equal; congruence.
Qed.

(** On a well-shaped network and a batch of its input width, [forward]
    returns and leaves the three activations behind. *)
Lemma forward_well_shaped `{Exponential F} (X : ndarray F) (self : NeuralNetwork F) :
  well_shaped self -> ncols X = input_size self -> (0 < output_size self)%nat ->
  exists out z1 z2,
    forward X self =
      (Ok out, set_cache Output out
                 (set_cache Hidden2 (relu z2) (set_cache Hidden1 (relu z1) self))) /\
    (nrows out = nrows X /\ ncols out = output_size self) /\
    (nrows z1 = nrows X /\ ncols z1 = hidden_size1 self) /\
    (nrows z2 = nrows X /\ ncols z2 = hidden_size2 self).
Proof.
  intros Hw HX Ho.
  destruct (well_shaped_shapes self Hw)
    as ([Hw0r Hw0c] & [Hw1r Hw1c] & [Hw2r Hw2c] & [Hb1r Hb1c] & [Hb2r Hb2c] & [Hb3r Hb3c]).
  rewrite forward_calls.
  destruct (affine_returns X (input_weights self) (hidden_bias1 self))
    as (z1 & -> & Hz1); [congruence | unfold shape; f_equal; congruence |].
  injection Hz1 as Hz1r Hz1c. cbv zeta.
  destruct (affine_returns (relu z1) (hidden_weights1 self) (hidden_bias2 self))
    as (z2 & -> & Hz2);
    [cbn [relu amap ncols tabulate]; congruence | unfold shape; f_equal; congruence |].
  injection Hz2 as Hz2r Hz2c.
  destruct (affine_returns (relu z2) (hidden_weights2 self) (output_bias self))
    as (z3 & -> & Hz3);
    [cbn [relu amap ncols tabulate]; congruence | unfold shape; f_equal; congruence |].
  injection Hz3 as Hz3r Hz3c.
  destruct (softmax_returns z3) as (out & -> & Hout); [lia|].
  injection Hout as Hor Hoc.
  exists out, z1, z2. split; [reflexivity|].
  cbn [relu amap nrows ncols tabulate] in *.
  repeat split; congruence.
Qed.

(** With the activations of a batch of [n] samples in place, [backward]
    on that batch returns, and the shapes stay. *)
Lemma backward_well_shaped (X y predicted : ndarray F) (learning_rate : F)
    (self : NeuralNetwork F) (h1 h2 : ndarray F) :
  well_shaped self ->
  hidden1 self = Some h1 -> hidden2 self = Some h2 ->
  ncols X = input_size self ->
  (nrows h1 = nrows X /\ ncols h1 = hidden_size1 self) ->
  (nrows h2 = nrows X /\ ncols h2 = hidden_size2 self) ->
  (nrows predicted = nrows X /\ ncols predicted = output_size self) ->
  (nrows y = nrows X /\ ncols y = output_size self) ->
  exists self',
    backward X y predicted learning_rate self = (Ok tt, self') /\
    well_shaped self' /\
    (input_size self' = input_size self /\ output_size self' = output_size self) /\
    get_cache Output self' = get_cache Output self.
Proof.
  intros Hw Hh1 Hh2 HX [Hh1r Hh1c] [Hh2r Hh2c] [Hpr Hpc] [Hyr Hyc].
  destruct (well_shaped_shapes self Hw)
    as ([Hw0r Hw0c] & [Hw1r Hw1c] & [Hw2r Hw2c] & [Hb1r Hb1c] & [Hb2r Hb2c] & [Hb3r Hb3c]).
  rewrite (backward_calls X y predicted learning_rate self h1 h2 Hh1 Hh2).
  destruct (broadcast2_same fzero fzero fsub y predicted)
    as (oe & Hoe & Hoer & Hoec); [congruence | congruence |].
  unfold np_sub. rewrite Hoe.
  destruct (dot_returns oe (transpose (hidden_weights2 self)))
    as (e2 & -> & He2r & He2c); [cbn [transpose nrows tabulate]; congruence|].
  cbn [transpose ncols tabulate] in He2c.
  destruct (dot_returns e2 (transpose (hidden_weights1 self)))
    as (e1 & -> & He1r & He1c); [cbn [transpose nrows tabulate]; congruence|].
  cbn [transpose ncols tabulate] in He1c.
  destruct (broadcast2_same fzero fzero fmul e2 (relu_derivative h2))
    as (d2 & Hd2 & Hd2r & Hd2c);
    [cbn [relu_derivative amap nrows tabulate]; congruence
    |cbn [relu_derivative amap ncols tabulate]; congruence|].
  unfold np_mul at 1. rewrite Hd2.
  destruct (broadcast2_same fzero fzero fmul e1 (relu_derivative h1))
    as (d1 & Hd1 & Hd1r & Hd1c);
    [cbn [relu_derivative amap nrows tabulate]; congruence
    |cbn [relu_derivative amap ncols tabulate]; congruence|].
  unfold np_mul. rewrite Hd1.
  destruct (dot_returns (transpose h2) oe)
    as (g2 & -> & Hg2r & Hg2c); [cbn [transpose ncols tabulate]; congruence|].
  cbn [transpose nrows tabulate] in Hg2r.
  destruct (iadd_returns (hidden_weights2 self) (scale learning_rate g2))
    as (w2 & -> & Hw2r' & Hw2c'); [cbn [scale nrows tabulate]; congruence
                                  |cbn [scale ncols tabulate]; congruence|].
  destruct (dot_returns (transpose h1) d2)
    as (g1 & -> & Hg1r & Hg1c); [cbn [transpose ncols tabulate]; congruence|].
  cbn [transpose nrows tabulate] in Hg1r.
  destruct (iadd_returns (hidden_weights1 self) (scale learning_rate g1))
    as (w1 & -> & Hw1r' & Hw1c'); [cbn [scale nrows tabulate]; congruence
                                  |cbn [scale ncols tabulate]; congruence|].
  destruct (dot_returns (transpose X) d1)
    as (g0 & -> & Hg0r & Hg0c); [cbn [transpose ncols tabulate]; congruence|].
  cbn [transpose nrows tabulate] in Hg0r.
  destruct (iadd_returns (input_weights self) (scale learning_rate g0))
    as (w0 & -> & Hw0r' & Hw0c'); [cbn [scale nrows tabulate]; congruence
                                  |cbn [scale ncols tabulate]; congruence|].
  destruct (iadd_returns (output_bias self) (scale learning_rate (sum_axis0 oe)))
    as (b3 & -> & Hb3r' & Hb3c');
    [cbn [scale sum_axis0 nrows tabulate]; congruence
    |cbn [scale sum_axis0 ncols tabulate]; congruence|].
  destruct (iadd_returns (hidden_bias2 self) (scale learning_rate (sum_axis0 d2)))
    as (b2 & -> & Hb2r' & Hb2c');
    [cbn [scale sum_axis0 nrows tabulate]; congruence
    |cbn [scale sum_axis0 ncols tabulate]; congruence|].
  destruct (iadd_returns (hidden_bias1 self) (scale learning_rate (sum_axis0 d1)))
    as (b1 & -> & Hb1r' & Hb1c');
    [cbn [scale sum_axis0 nrows tabulate]; congruence
    |cbn [scale sum_axis0 ncols tabulate]; congruence|].
  cbv zeta. eexists. split; [reflexivity|].
  split; [|split; [split; reflexivity | reflexivity]].
  unfold well_shaped, parameter_shapes, parameters, all_params, shape.
  cbn [map get_param set_param input_weights hidden_weights1 hidden_weights2
       hidden_bias1 hidden_bias2 output_bias
       input_size hidden_size1 hidden_size2 output_size].
  repeat f_equal; congruence.
Qed.

(** ** A training step *)

Lemma forward_backward_returns `{Exponential F} (X y : ndarray F)
    (learning_rate : F) (self : NeuralNetwork F) :
  well_shaped self -> ncols X = input_size self -> (0 < output_size self)%nat ->
  nrows y = nrows X -> ncols y = output_size self ->
  exists out self1 self2,
    forward X self = (Ok out, self1) /\
    shape out = (nrows X, output_size self) /\
    backward X y out learning_rate self1 = (Ok tt, self2) /\
    well_shaped self2 /\ output self2 = Some out /\
    input_size self2 = input_size self /\ output_size self2 = output_size self.
Proof.
  intros Hw HX Ho Hyr Hyc.
  destruct (forward_well_shaped X self Hw HX Ho)
    as (out & z1 & z2 & Hf & [Hor Hoc] & [Hz1r Hz1c] & [Hz2r Hz2c]).
  set (self1 := set_cache Output out
                  (set_cache Hidden2 (relu z2) (set_cache Hidden1 (relu z1) self)))
    in *.
  destruct (backward_well_shaped X y out learning_rate self1 (relu z1) (relu z2))
    as (self2 & Hb & Hw2 & [Hi2 Ho2] & Hout); try reflexivity; try (split; assumption).
  - exact Hw.
  - exact HX.
  - exists out, self1, self2. split; [exact Hf|].
    split; [unfold shape; congruence|]. split; [exact Hb|].
    split; [exact Hw2|]. split; [exact Hout|]. split; [exact Hi2 | exact Ho2].
Qed.

(** On a well-shaped network, a batch of the input width and targets of
    the shape of the output, [forward] followed by [backward] raises
    nothing: [forward] returns one row of outputs per sample and keeps it
    in [self.output], and [backward] finds the activations it needs and
    leaves a well-shaped network of the same sizes. *)
Theorem training_step_returns `{Exponential F} (X y : ndarray F)
    (learning_rate : F) (self : NeuralNetwork F) :
  well_shaped self -> ncols X = input_size self -> (0 < output_size self)%nat ->
  nrows y = nrows X -> ncols y = output_size self ->
  exists out self1 self2,
    forward X self = (Ok out, self1) /\
    shape out = (nrows X, output_size self) /\
    backward X y out learning_rate self1 = (Ok tt, self2) /\
    well_shaped self2 /\ output self2 = Some out /\
    input_size self2 = input_size self /\ output_size self2 = output_size self.
Proof. apply forward_backward_returns. Qed.

(** [forward] raises [ValueError] on a batch of the wrong width, before
    it has touched the network, and on a network without outputs, where
    softmax has no maximum to take; on a well-shaped network it raises in
    no other case. *)
Theorem forward_raises `{Exponential F} (X : ndarray F) (self : NeuralNetwork F) :
  well_shaped self ->
  (ncols X <> input_size self ->
   forward X self = (Raise (ValueError "shapes not aligned"), self)) /\
  (ncols X = input_size self -> output_size self = 0%nat ->
   fst (forward X self) =
     Raise (ValueError "zero-size array to reduction operation maximum") /\
   output (snd (forward X self)) = output self) /\
  ((exists e, fst (forward X self) = Raise e) <->
   ncols X <> input_size self \/ output_size self = 0%nat).
Proof.
  intros Hw.
  destruct (well_shaped_shapes self Hw)
    as ([Hw0r Hw0c] & [Hw1r Hw1c] & [Hw2r Hw2c] & [Hb1r Hb1c] & [Hb2r Hb2c] & [Hb3r Hb3c]).
  assert (ncols X <> input_size self ->
          forward X self = (Raise (ValueError "shapes not aligned"), self)) as Hwidth.
  { intros HX. rewrite forward_calls. unfold affine.
    rewrite dot_raises by congruence. reflexivity. }
  assert (ncols X = input_size self -> output_size self = 0%nat ->
          fst (forward X self) =
            Raise (ValueError "zero-size array to reduction operation maximum") /\
          output (snd (forward X self)) = output self) as Hzero.
  { intros HX Ho. rewrite forward_calls.
    destruct (affine_returns X (input_weights self) (hidden_bias1 self))
      as (z1 & -> & Hz1); [congruence | unfold shape; f_equal; congruence |].
    injection Hz1 as Hz1r Hz1c. cbv zeta.
    destruct (affine_returns (relu z1) (hidden_weights1 self) (hidden_bias2 self))
      as (z2 & -> & Hz2);
      [cbn [relu amap ncols tabulate]; congruence | unfold shape; f_equal; congruence |].
    injection Hz2 as Hz2r Hz2c.
    destruct (affine_returns (relu z2) (hidden_weights2 self) (output_bias self))
      as (z3 & -> & Hz3);
      [cbn [relu amap ncols tabulate]; congruence | unfold shape; f_equal; congruence |].
    injection Hz3 as Hz3r Hz3c.
    assert (ncols z3 = 0%nat) as Hz3 by congruence.
    unfold softmax, max_axis1. rewrite Hz3. cbn [Py.bind fst snd].
    split; reflexivity. }
  split; [exact Hwidth|]. split; [exact Hzero|]. split.
  - intros [e He].
    destruct (Nat.eq_dec (ncols X) (input_size self)) as [HX|HX]; [|left; exact HX].
    destruct (Nat.eq_dec (output_size self) 0%nat) as [Ho|Ho]; [right; exact Ho|].
    destruct (forward_well_shaped X self Hw HX ltac:(lia)) as (out & z1 & z2 & Hf & _).
    rewrite Hf in He. discriminate.
  - intros [HX | Ho].
    + eexists. rewrite (Hwidth HX). reflexivity.
    + destruct (Nat.eq_dec (ncols X) (input_size self)) as [HX|HX].
      * eexists. apply (Hzero HX Ho).
      * eexists. rewrite (Hwidth HX). reflexivity.
Qed.

(** [backward] needs the activations a call of [forward] leaves in
    [self]: on a network without [self.hidden2] it always raises and
    changes nothing, and when the error terms of lines 38-40 can be
    computed the exception is the [AttributeError] of line 42. *)
Theorem backward_before_forward (X y predicted : ndarray F) (learning_rate : F)
    (self : NeuralNetwork F) :
  hidden2 self = None ->
  (exists e, backward X y predicted learning_rate self = (Raise e, self)) /\
  (well_shaped self ->
   nrows y = nrows predicted -> ncols y = ncols predicted ->
   ncols predicted = output_size self ->
   backward X y predicted learning_rate self =
     (Raise (AttributeError "NeuralNetwork object has no such attribute"), self)).
Proof.
  intros Hnone.
  assert (forall hidden2_error hidden1_error output_error,
            mbind (load_cache Hidden2) (fun h2 =>
              hidden2_delta <- call (np_mul hidden2_error (relu_derivative h2)) ;;
              h1 <- load_cache Hidden1 ;;
              hidden1_delta <- call (np_mul hidden1_error (relu_derivative h1)) ;;
              h2 <- load_cache Hidden2 ;;
              g2 <- call (dot (transpose h2) output_error) ;;
              iadd_param HiddenWeights2 (scale learning_rate g2) ;;
              h1 <- load_cache Hidden1 ;;
              g1 <- call (dot (transpose h1) hidden2_delta) ;;
              iadd_param HiddenWeights1 (scale learning_rate g1) ;;
              g0 <- call (dot (transpose X) hidden1_delta) ;;
              iadd_param InputWeights (scale learning_rate g0) ;;
              iadd_param OutputBias (scale learning_rate (sum_axis0 output_error)) ;;
              iadd_param HiddenBias2 (scale learning_rate (sum_axis0 hidden2_delta)) ;;
              iadd_param HiddenBias1 (scale learning_rate (sum_axis0 hidden1_delta)))
              self =
            (Raise (AttributeError "NeuralNetwork object has no such attribute"), self))
    as Hload.
  { intros. unfold mbind at 1, load_cache at 1. cbn [get_cache]. rewrite Hnone.
    reflexivity. }
  split.
  - unfold backward. rewrite mbind_call.
    destruct (np_sub y predicted) as [oe|e]; [|eexists; reflexivity].
    rewrite mbind_load, mbind_call.
    destruct (dot oe _) as [e2|e]; [|eexists; reflexivity].
    rewrite mbind_load, mbind_call.
    destruct (dot e2 _) as [e1|e]; [|eexists; reflexivity].
    eexists. apply Hload.
  - intros Hw Hyr Hyc Hpc.
    destruct (well_shaped_shapes self Hw)
      as ([Hw0r Hw0c] & [Hw1r Hw1c] & [Hw2r Hw2c] & _).
    unfold backward. rewrite mbind_call.
    destruct (broadcast2_same fzero fzero fsub y predicted Hyr Hyc)
      as (oe & Hoe & Hoer & Hoec).
    unfold np_sub. rewrite Hoe.
    rewrite mbind_load, mbind_call. cbn [get_param].
    destruct (dot_returns oe (transpose (hidden_weights2 self)))
      as (e2 & -> & He2r & He2c); [cbn [transpose nrows tabulate]; congruence|].
    cbn [transpose ncols tabulate] in He2c.
    rewrite mbind_load, mbind_call. cbn [get_param].
    destruct (dot_returns e2 (transpose (hidden_weights1 self)))
      as (e1 & -> & He1r & He1c); [cbn [transpose nrows tabulate]; congruence|].
    apply Hload.
Qed.

(** A second [forward] on the same batch returns what the first did and
    leaves the network as the first left it, whether the first returned
    or raised. *)
Theorem forward_idempotent `{Exponential F} (X : ndarray F) (self : NeuralNetwork F) :
  forward X (snd (forward X self)) = forward X self.
Proof.
  rewrite (forward_calls X self).
  destruct (affine X (input_weights self) (hidden_bias1 self)) as [z1|e] eqn:H1;
    cbn [snd].
  - cbv zeta.
    destruct (affine (relu z1) (hidden_weights1 self) (hidden_bias2 self))
      as [z2|e] eqn:H2; cbn [snd].
    + destruct (affine (relu z2) (hidden_weights2 self) (output_bias self))
        as [z3|e] eqn:H3; cbn [snd].
      * destruct (softmax z3) as [out|e] eqn:H4; cbn [snd];
          rewrite forward_calls;
          cbn [set_cache input_weights hidden_weights1 hidden_weights2
               hidden_bias1 hidden_bias2 output_bias];
          rewrite H1; cbv zeta; rewrite H2, H3, H4; reflexivity.
      * rewrite forward_calls;
          cbn [set_cache input_weights hidden_weights1 hidden_weights2
               hidden_bias1 hidden_bias2 output_bias];
          rewrite H1; cbv zeta; rewrite H2, H3; reflexivity.
    + rewrite forward_calls;
        cbn [set_cache input_weights hidden_weights1 hidden_weights2
             hidden_bias1 hidden_bias2 output_bias];
        rewrite H1; cbv zeta; rewrite H2; reflexivity.
  - rewrite forward_calls, H1. reflexivity.
Qed.

End TrainingStep.
(** * Training on the network core *)

Section FitFacts.

Import NetworkCore TrainingController TrainerScript.

Context {F : Type} `{Scalar F} `{Exponential F}.

Variable inf : F.
Variable report : nat -> F -> nat -> F -> result unit.
Variables X y X_val y_val : ndarray F.
Variable learning_rate : F.
Variable batch_size : nat.
Variable patience : Z.

Local Abbreviation batch :=
  (train_batch forward backward mean_square slice fadd X y learning_rate batch_size).
Local Abbreviation batches :=
  (train_batches forward backward mean_square slice fadd X y learning_rate batch_size).
Local Abbreviation pass :=
  (epoch_pass forward backward mean_square slice len fadd fzero report
     X y X_val y_val learning_rate batch_size).
Local Abbreviation loop :=
  (train_loop forward backward mean_square slice len fadd fzero flt report
     X y X_val y_val learning_rate batch_size patience).

(** ** Shapes are kept, also by a run that raises *)

Lemma train_batch_shapes (i : nat) (epoch_loss : F) (self : NeuralNetwork F) :
  parameter_shapes (snd (batch i epoch_loss self)) = parameter_shapes self.
Proof.
  unfold train_batch.
  pose proof (forward_keeps_parameters (slice X i (i + batch_size)) self) as Hf.
  destruct (forward (slice X i (i + batch_size)) self) as [[out|e] self1];
    cbn [snd] in *; [|unfold parameter_shapes; rewrite Hf; reflexivity].
  pose proof (backward_keeps_shapes (slice X i (i + batch_size))
                (slice y i (i + batch_size)) out learning_rate self1) as Hb.
  destruct (backward _ _ out learning_rate self1) as [[u|e] self2]; cbn [snd] in *.
  - destruct (mean_square _ out); cbn [snd]; rewrite Hb;
      unfold parameter_shapes; rewrite Hf; reflexivity.
  - rewrite Hb. unfold parameter_shapes. rewrite Hf. reflexivity.
Qed.

Lemma train_batches_shapes (starts : list nat) (epoch_loss : F)
    (self : NeuralNetwork F) :
  parameter_shapes (snd (batches starts epoch_loss self)) = parameter_shapes self.
Proof.
  revert epoch_loss self. induction starts as [|i rest IH]; intros epoch_loss self;
    [reflexivity|].
  cbn [train_batches].
  pose proof (train_batch_shapes i epoch_loss self) as Hb.
  destruct (batch i epoch_loss self) as [[l|e] self1]; cbn [snd] in *.
  - rewrite IH. exact Hb.
  - exact Hb.
Qed.

Lemma epoch_pass_shapes (epoch : nat) (self : NeuralNetwork F) :
  parameter_shapes (snd (pass epoch self)) = parameter_shapes self.
Proof.
  unfold epoch_pass.
  destruct (range_step (len X) batch_size) as [starts|e]; [|reflexivity].
  pose proof (train_batches_shapes starts fzero self) as Hb.
  destruct (batches starts fzero self) as [[l|e] self1]; cbn [snd] in *;
    [|exact Hb].
  pose proof (forward_keeps_parameters X_val self1) as Hf.
  assert (parameter_shapes (snd (forward X_val self1)) = parameter_shapes self) as Hs
    by (unfold parameter_shapes at 1; rewrite Hf; exact Hb).
  destruct (forward X_val self1) as [[out|e] self2]; cbn [snd] in *; [|exact Hs].
  destruct (mean_square y_val out) as [val_loss|e]; [|exact Hs].
  destruct (epoch mod 100 =? 0)%nat; [|exact Hs].
  destruct (report epoch l (len X) val_loss); exact Hs.
Qed.

Lemma train_loop_shapes (remaining epoch : nat) (ts : TrainingState F)
    (self : NeuralNetwork F) :
  parameter_shapes (snd (loop remaining epoch ts self)) = parameter_shapes self.
Proof.
  revert epoch ts self. induction remaining as [|r IH]; intros epoch ts self;
    [reflexivity|].
  cbn [train_loop].
  pose proof (epoch_pass_shapes epoch self) as Hp.
  destruct (pass epoch self) as [[l|e] self1]; cbn [snd] in *; [|exact Hp].
  destruct (stops_here flt patience ts l); [exact Hp|].
  rewrite IH. exact Hp.
Qed.

(** Training never resizes a parameter array: whether [train] runs to
    the end of the budget, stops early or raises, the six arrays have the
    shapes they had before. *)
Theorem fit_keeps_shapes (epochs : nat) (self : NeuralNetwork F) :
  parameter_shapes
    (snd (fit inf report X y X_val y_val epochs learning_rate batch_size
            patience self)) =
  parameter_shapes self.
Proof. unfold fit, train. apply train_loop_shapes. Qed.

(** ** On well-shaped data a run raises nothing *)

Lemma mean_square_returns (a b : ndarray F) :
  nrows a = nrows b -> ncols a = ncols b -> exists l, mean_square a b = Ok l.
Proof.
  intros Hn Hm. unfold mean_square, np_sub.
  destruct (broadcast2_same fzero fzero fsub a b Hn Hm) as (d & -> & _).
  eexists. reflexivity.
Qed.

Lemma range_step_returns (n step : nat) :
  (0 < step)%nat ->
  range_step n step =
  Ok (map (fun q => (q * step)%nat) (seq 0 ((n + step - 1) / step))).
Proof. intros Hs. unfold range_step. destruct step; [lia | reflexivity]. Qed.

Definition trainable (n_in n_out : nat) (self : NeuralNetwork F) : Prop :=
  well_shaped self /\ input_size self = n_in /\ output_size self = n_out.

Section WellShapedData.

Variables n_in n_out : nat.
Hypothesis outputs : (0 < n_out)%nat.
Hypothesis X_width : ncols X = n_in.
Hypothesis y_rows : nrows y = nrows X.
Hypothesis y_width : ncols y = n_out.
Hypothesis X_val_width : ncols X_val = n_in.
Hypothesis y_val_rows : nrows y_val = nrows X_val.
Hypothesis y_val_width : ncols y_val = n_out.
Hypothesis batch_size_positive : (0 < batch_size)%nat.
Hypothesis report_returns :
  forall epoch epoch_loss val_loss, report epoch epoch_loss (len X) val_loss = Ok tt.

Lemma train_batch_returns (i : nat) (epoch_loss : F) (self : NeuralNetwork F) :
  trainable n_in n_out self ->
  exists l self', batch i epoch_loss self = (Ok l, self') /\ trainable n_in n_out self'.
Proof.
  intros (Hw & Hi & Ho). unfold train_batch.
  destruct (forward_backward_returns (slice X i (i + batch_size))
              (slice y i (i + batch_size)) learning_rate self)
    as (out & self1 & self2 & -> & Hout & -> & Hw2 & _ & Hi2 & Ho2).
  - exact Hw.
  - cbn [slice ncols]. congruence.
  - lia.
  - cbn [slice nrows]. rewrite y_rows. reflexivity.
  - cbn [slice ncols]. congruence.
  - injection Hout as Hor Hoc.
    destruct (mean_square_returns (slice y i (i + batch_size)) out) as [l ->].
    + rewrite Hor. cbn [slice nrows]. rewrite y_rows. reflexivity.
    + rewrite Hoc. cbn [slice ncols]. congruence.
    + exists (fadd epoch_loss l), self2. split; [reflexivity|].
      split; [exact Hw2|]. split; congruence.
Qed.

Lemma train_batches_returns (starts : list nat) (epoch_loss : F)
    (self : NeuralNetwork F) :
  trainable n_in n_out self ->
  exists l self',
    batches starts epoch_loss self = (Ok l, self') /\ trainable n_in n_out self'.
Proof.
  revert epoch_loss self. induction starts as [|i rest IH]; intros epoch_loss self Ht.
  - exists epoch_loss, self. split; [reflexivity | exact Ht].
  - cbn [train_batches].
    destruct (train_batch_returns i epoch_loss self Ht) as (l & self1 & -> & Ht1).
    apply IH, Ht1.
Qed.

Lemma epoch_pass_returns (epoch : nat) (self : NeuralNetwork F) :
  trainable n_in n_out self ->
  exists val_loss self' val_output,
    pass epoch self = (Ok val_loss, self') /\ trainable n_in n_out self' /\
    nrows val_output = nrows X_val /\ mean_square y_val val_output = Ok val_loss.
Proof.
  intros Ht. unfold epoch_pass.
  rewrite (range_step_returns (len X) batch_size batch_size_positive).
  destruct (train_batches_returns
              (map (fun q => (q * batch_size)%nat)
                 (seq 0 ((len X + batch_size - 1) / batch_size))) fzero self Ht)
    as (l & self1 & -> & (Hw1 & Hi1 & Ho1)).
  destruct (forward_well_shaped X_val self1 Hw1)
    as (out & z1 & z2 & -> & [Hor Hoc] & _); [congruence | lia |].
  destruct (mean_square_returns y_val out) as [val_loss Hloss];
    [congruence | congruence |].
  rewrite Hloss. exists val_loss. eexists. exists out.
  split; [|split; [|split; [exact Hor | exact Hloss]]].
  - destruct (epoch mod 100 =? 0)%nat; [rewrite report_returns|]; reflexivity.
  - split; [|split; [exact Hi1 | exact Ho1]].
    unfold well_shaped in *. exact Hw1.
Qed.

Lemma train_loop_returns (remaining epoch : nat) (ts : TrainingState F)
    (self : NeuralNetwork F) :
  trainable n_in n_out self ->
  exists stopped self',
    loop remaining epoch ts self = (Ok stopped, self') /\ trainable n_in n_out self'.
Proof.
  revert epoch ts self. induction remaining as [|r IH]; intros epoch ts self Ht.
  - exists Exhausted, self. split; [reflexivity | exact Ht].
  - cbn [train_loop].
    destruct (epoch_pass_returns epoch self Ht)
      as (val_loss & self1 & _ & -> & Ht1 & _).
    destruct (stops_here flt patience ts val_loss).
    + exists (EarlyStopping epoch), self1. split; [reflexivity | exact Ht1].
    + apply IH, Ht1.
Qed.

End WellShapedData.

(** With a [print] that returns, a run on well-shaped data raises
    nothing. *)
Lemma fit_returns_reported (epochs : nat) (self : NeuralNetwork F) :
  well_shaped self -> (0 < output_size self)%nat ->
  ncols X = input_size self -> nrows y = nrows X -> ncols y = output_size self ->
  ncols X_val = input_size self ->
  nrows y_val = nrows X_val -> ncols y_val = output_size self ->
  (0 < batch_size)%nat ->
  (forall epoch epoch_loss val_loss,
     report epoch epoch_loss (len X) val_loss = Ok tt) ->
  exists stopped self',
    fit inf report X y X_val y_val epochs learning_rate batch_size patience self =
      (Ok stopped, self') /\
    well_shaped self' /\
    input_size self' = input_size self /\ output_size self' = output_size self.
Proof.
  intros Hw Ho HX Hyr Hyc HXv Hyvr Hyvc Hb Hreport. unfold fit, train.
  apply (train_loop_returns (input_size self) (output_size self));
    try assumption.
  split; [exact Hw|]. split; reflexivity.
Qed.

End FitFacts.

(** ** [train] with the [print] of line 69 *)

Section FitReturns.

Import NetworkCore TrainingController TrainerScript.

Context {F : Type} `{Scalar F} `{Exponential F}.

(** X7.  On a well-shaped network with at least one output, with
    training and validation batches of the input width, targets of the
    shape of the outputs and a positive batch size, [train] raises
    nothing when there is a training sample: it returns after the budget
    or at the early stop, and leaves a well-shaped network of the same
    sizes.  Without a training sample the [print] of the first epoch
    divides by [len(X)], which is zero: [train] raises
    [ZeroDivisionError], with the parameters untouched. *)
Theorem fit_returns (inf : F) (X y X_val y_val : ndarray F) (learning_rate : F)
    (batch_size : nat) (patience : Z) (epochs : nat) (self : NeuralNetwork F) :
  well_shaped self -> (0 < output_size self)%nat ->
  ncols X = input_size self -> nrows y = nrows X -> ncols y = output_size self ->
  ncols X_val = input_size self ->
  nrows y_val = nrows X_val -> ncols y_val = output_size self ->
  (0 < batch_size)%nat ->
  ((0 < len X)%nat ->
   exists stopped self',
     fit inf print_report X y X_val y_val epochs learning_rate batch_size
       patience self = (Ok stopped, self') /\
     well_shaped self' /\
     input_size self' = input_size self /\ output_size self' = output_size self) /\
  (len X = 0%nat -> (0 < epochs)%nat ->
   exists self',
     fit inf print_report X y X_val y_val epochs learning_rate batch_size
       patience self = (Raise (ZeroDivisionError "division by zero"), self') /\
     parameters self' = parameters self).
Proof.
  intros Hw Ho HX Hyr Hyc HXv Hyvr Hyvc Hb. split.
  - intros Hlen.
    apply (fit_returns_reported inf print_report X y X_val y_val learning_rate
             batch_size patience epochs self); try assumption.
    intros epoch epoch_loss val_loss. unfold print_report.
    destruct (Nat.eqb_spec (len X) 0) as [Hzero|_]; [lia | reflexivity].
  - intros Hlen Hepochs. unfold fit, train.
    destruct epochs as [|epochs]; [lia|].
    cbn [train_loop]. unfold epoch_pass.
    rewrite (range_step_returns (len X) batch_size Hb), Hlen.
    rewrite Nat.add_0_l, Nat.div_small by lia.
    cbn [seq map train_batches].
    pose proof (forward_keeps_parameters X_val self) as Hkeep.
    destruct (forward_well_shaped X_val self Hw)
      as (out & z1 & z2 & Hfwd & [Hor Hoc] & _); [congruence | lia |].
    rewrite Hfwd in *. cbn [snd] in Hkeep.
    destruct (mean_square_returns y_val out) as [val_loss ->];
      [congruence | congruence |].
    cbn. eexists. split; [reflexivity | exact Hkeep].
Qed.

End FitReturns.
(** * The training loop: how a run ends *)

Section TrainingOutcome.

Import TrainingController.

Context {net array F : Type}.

Variable forward : array -> net -> result array * net.
Variable backward : array -> array -> array -> F -> net -> result unit * net.
Variable mean_square : array -> array -> result F.
Variable slice : array -> nat -> nat -> array.
Variable len : array -> nat.
Variable loss_add : F -> F -> F.
Variable loss_zero : F.
Variable loss_lt : F -> F -> bool.
Variable inf : F.
Variable report : nat -> F -> nat -> F -> result unit.

Variables X y X_val y_val : array.
Variable learning_rate : F.
Variable batch_size : nat.
Variable patience : Z.
Variable self : net.
Variable v : nat -> F.

Local Abbreviation pass :=
  (epoch_pass forward backward mean_square slice len loss_add loss_zero report
     X y X_val y_val learning_rate batch_size).
Local Abbreviation before :=
  (network_before forward backward mean_square slice len loss_add loss_zero
     report X y X_val y_val learning_rate batch_size).
Local Abbreviation loss_at e :=
  (val_loss_at forward backward mean_square slice len loss_add loss_zero
     report X y X_val y_val learning_rate batch_size e self).
Local Abbreviation loop :=
  (train_loop forward backward mean_square slice len loss_add loss_zero
     loss_lt report X y X_val y_val learning_rate batch_size patience).
Local Abbreviation state e := (state_before loss_lt inf v e).
Local Abbreviation breaks e := (breaks_at loss_lt inf patience v e).
Local Abbreviation improves e := (improves_at loss_lt inf v e).
Local Abbreviation run epochs :=
  (train forward backward mean_square slice len loss_add loss_zero loss_lt inf
     report X y X_val y_val epochs learning_rate batch_size patience self).

(** The loop from epoch [e0] on, when the epochs up to [t] raise nothing
    and [t] is the first at which the check breaks: it ends there, with
    the network the pass of epoch [t] leaves. *)
Lemma train_loop_break_network (t remaining e0 : nat) (self0 : net) :
  (e0 <= t < e0 + remaining)%nat ->
  before e0 self = Some self0 ->
  (forall e, (e0 <= e <= t)%nat -> loss_at e = Some (v e)) ->
  (forall e, (e0 <= e < t)%nat -> breaks e = false) ->
  breaks t = true ->
  exists self', before (S t) self = Some self' /\
    loop remaining e0 (state e0) self0 = (Ok (EarlyStopping t), self').
Proof.
  revert e0 self0. induction remaining as [|r IH]; intros e0 self0 Ht Hb Hl Hno Hbr;
    [lia|].
  destruct (epoch_pass_of_loss _ _ _ _ _ _ _ _ _ _ _ _ _ _ _ v e0 self0 Hb
              (Hl e0 ltac:(lia))) as (self1 & Hp & Hb1).
  cbn [train_loop]. rewrite Hp.
  destruct (Nat.eq_dec e0 t) as [-> | Hne].
  - unfold breaks_at in Hbr. rewrite Hbr. exists self1. split; [exact Hb1 | reflexivity].
  - pose proof (Hno e0 ltac:(lia)) as Hn. unfold breaks_at in Hn. rewrite Hn.
    apply (IH (S e0) self1); [lia | exact Hb1 | | | exact Hbr].
    + intros e He. apply Hl. lia.
    + intros e He. apply Hno. lia.
Qed.

Lemma train_loop_exhaust_network (remaining e0 : nat) (self0 : net) :
  before e0 self = Some self0 ->
  (forall e, (e0 <= e < e0 + remaining)%nat -> loss_at e = Some (v e)) ->
  (forall e, (e0 <= e < e0 + remaining)%nat -> breaks e = false) ->
  exists self', before (e0 + remaining) self = Some self' /\
    loop remaining e0 (state e0) self0 = (Ok Exhausted, self').
Proof.
  revert e0 self0. induction remaining as [|r IH]; intros e0 self0 Hb Hl Hno.
  - exists self0. rewrite Nat.add_0_r. split; [exact Hb | reflexivity].
  - destruct (epoch_pass_of_loss _ _ _ _ _ _ _ _ _ _ _ _ _ _ _ v e0 self0 Hb
                (Hl e0 ltac:(lia))) as (self1 & Hp & Hb1).
    cbn [train_loop]. rewrite Hp.
    pose proof (Hno e0 ltac:(lia)) as Hn. unfold breaks_at in Hn. rewrite Hn.
    replace (e0 + S r)%nat with (S e0 + r)%nat by lia.
    apply (IH (S e0) self1); [exact Hb1 | |].
    + intros e He. apply Hl. lia.
    + intros e He. apply Hno. lia.
Qed.

(** An exception of epoch [t] leaves the loop, with the network as the
    failing call left it. *)
Lemma train_loop_raise_network (t remaining e0 : nat) (self0 self_t self' : net)
    (ex : exn) :
  (e0 <= t < e0 + remaining)%nat ->
  before e0 self = Some self0 ->
  (forall e, (e0 <= e < t)%nat -> loss_at e = Some (v e)) ->
  (forall e, (e0 <= e < t)%nat -> breaks e = false) ->
  before t self = Some self_t -> pass t self_t = (Raise ex, self') ->
  loop remaining e0 (state e0) self0 = (Raise ex, self').
Proof.
  revert e0 self0. induction remaining as [|r IH];
    intros e0 self0 Ht Hb Hl Hno Hbt Hraise; [lia|].
  cbn [train_loop].
  destruct (Nat.eq_dec e0 t) as [-> | Hne].
  - rewrite Hb in Hbt. injection Hbt as ->. rewrite Hraise. reflexivity.
  - destruct (epoch_pass_of_loss _ _ _ _ _ _ _ _ _ _ _ _ _ _ _ v e0 self0 Hb
                (Hl e0 ltac:(lia))) as (self1 & Hp & Hb1).
    rewrite Hp.
    pose proof (Hno e0 ltac:(lia)) as Hn. unfold breaks_at in Hn. rewrite Hn.
    apply (IH (S e0) self1); [lia | exact Hb1 | | | exact Hbt | exact Hraise].
    + intros e He. apply Hl. lia.
    + intros e He. apply Hno. lia.
Qed.

(** The state of a run in which no loss is below [inf]. *)
Lemma state_without_improvement (e : nat) :
  (forall i, loss_lt (v i) inf = false) ->
  state e = {| best_val_loss := inf; patience_counter := Z.of_nat e |}.
Proof.
  intros Hnever. induction e as [|e IH]; [reflexivity|].
  cbn [state_before]. rewrite IH. unfold improvement_check.
  cbn [best_val_loss patience_counter]. rewrite Hnever. f_equal. lia.
Qed.

(** How a run of [train] ends, and with which network.  When the first
    [t] epochs raise nothing and do not break: if epoch [t] breaks,
    [train] returns there and the network has been through [t + 1]
    epochs; if [t] is the budget, it returns with the network of [t]
    epochs; and if epoch [t] raises, the exception leaves [train], which
    handles none, with the network as the failing call left it. *)
Theorem train_outcome_and_network (epochs t : nat) :
  (forall e, (e < t)%nat -> loss_at e = Some (v e)) ->
  (forall e, (e < t)%nat -> breaks e = false) ->
  let result :=
    train forward backward mean_square slice len loss_add loss_zero loss_lt inf
      report X y X_val y_val epochs learning_rate batch_size patience self in
  ((t < epochs)%nat -> loss_at t = Some (v t) -> breaks t = true ->
   exists self', before (S t) self = Some self' /\
                 result = (Ok (EarlyStopping t), self')) /\
  (t = epochs ->
   exists self', before epochs self = Some self' /\ result = (Ok Exhausted, self')) /\
  ((t < epochs)%nat ->
   forall self_t self' ex,
     before t self = Some self_t -> pass t self_t = (Raise ex, self') ->
     result = (Raise ex, self')).
Proof.
  intros Hl Hno result. subst result. unfold train. split; [|split].
  - intros Ht Hlt Hbr.
    apply (train_loop_break_network t epochs 0 self);
      [lia | reflexivity | | | exact Hbr].
    + intros e He. destruct (Nat.eq_dec e t) as [-> | Hne]; [exact Hlt|].
      apply Hl. lia.
    + intros e He. apply Hno. lia.
  - intros ->.
    apply (train_loop_exhaust_network epochs 0 self); [reflexivity | |].
    + intros e He. apply Hl. lia.
    + intros e He. apply Hno. lia.
  - intros Ht self_t self' ex Hbt Hraise.
    apply (train_loop_raise_network t epochs 0 self self_t self' ex);
      [lia | reflexivity | | | exact Hbt | exact Hraise].
    + intros e He. apply Hl. lia.
    + intros e He. apply Hno. lia.
Qed.

(** A validation loss that is never below [float('inf')], a NaN at every
    epoch for one, never counts as an improvement: with a patience of
    [p >= 1] within the budget, training stops at epoch [p - 1], after
    exactly [p] epochs. *)
Theorem train_without_improvement (epochs p : nat) :
  (1 <= p <= epochs)%nat -> patience = Z.of_nat p ->
  (forall e, loss_lt (v e) inf = false) ->
  (forall e, (e < p)%nat -> loss_at e = Some (v e)) ->
  exists self',
    before p self = Some self' /\
    train forward backward mean_square slice len loss_add loss_zero loss_lt inf
      report X y X_val y_val epochs learning_rate batch_size patience self =
    (Ok (EarlyStopping (p - 1)), self').
Proof.
  intros Hp Hpat Hnever Hl.
  assert (forall e, breaks e = (patience <=? Z.of_nat e + 1)) as Hbreaks.
  { intros e. unfold breaks_at, stops_here.
    rewrite (state_without_improvement e Hnever).
    cbn [best_val_loss patience_counter]. rewrite Hnever. reflexivity. }
  unfold train.
  destruct (train_loop_break_network (p - 1) epochs 0 self) as (self' & Hb & Hrun);
    [lia | reflexivity | | | |].
  - intros e He. apply Hl. lia.
  - intros e He. rewrite Hbreaks. apply Z.leb_gt. lia.
  - rewrite Hbreaks. apply Z.leb_le. lia.
  - exists self'. replace (S (p - 1)) with p in Hb by lia. split; assumption.
Qed.

(** The patience is consulted only at an epoch that does not improve: a
    run whose validation loss improves at every epoch goes through the
    whole budget, whatever the patience, 0 or negative included. *)
Theorem train_always_improving (epochs : nat) :
  (forall e, (e < epochs)%nat -> loss_at e = Some (v e)) ->
  (forall e, (e < epochs)%nat -> improves e = true) ->
  exists self',
    before epochs self = Some self' /\
    train forward backward mean_square slice len loss_add loss_zero loss_lt inf
      report X y X_val y_val epochs learning_rate batch_size patience self =
    (Ok Exhausted, self').
Proof.
  intros Hl Himp. unfold train.
  apply (train_loop_exhaust_network epochs 0 self); [reflexivity | |].
  - intros e He. apply Hl. lia.
  - intros e He. unfold breaks_at, stops_here.
    pose proof (Himp e ltac:(lia)) as Hi. unfold improves_at in Hi.
    rewrite Hi. reflexivity.
Qed.

End TrainingOutcome.
(** * Mini-batches *)

Section Batches.

Import TrainingController TrainerScript.

Context {A : Type}.

Lemma concat_chunks {B : Type} (l : list B) (b k : nat) :
  concat (map (fun q => firstn b (skipn (q * b) l)) (seq 0 k)) = firstn (k * b) l.
Proof.
  induction k as [|k IH]; [reflexivity|].
  rewrite seq_S, map_app, concat_app, IH. cbn [map concat Nat.add].
  rewrite app_nil_r, take_take_drop. f_equal. lia.
Qed.

Lemma batch_count (n b : nat) :
  (0 < b)%nat ->
  (n <= (n + b - 1) / b * b)%nat /\
  forall q, (q < (n + b - 1) / b)%nat -> (q * b < n)%nat.
Proof.
  intros Hb.
  pose proof (Nat.div_mod (n + b - 1) b ltac:(lia)) as Hdm.
  pose proof (Nat.mod_upper_bound (n + b - 1) b ltac:(lia)) as Hmod.
  split; [nia|]. intros q Hq. nia.
Qed.

Lemma slice_rows (a : ndarray A) (i b : nat) :
  List.length (rows a) = nrows a -> (i <= nrows a)%nat ->
  rows (slice a i (i + b)) = firstn b (skipn i (rows a)) /\
  nrows (slice a i (i + b)) = Nat.min b (nrows a - i).
Proof.
  intros Hwf Hi. unfold slice. cbn [rows nrows].
  rewrite (Nat.min_l i) by exact Hi. split; [|lia].
  destruct (Nat.le_gt_cases (i + b) (nrows a)) as [Hle | Hgt].
  - rewrite Nat.min_l by exact Hle. f_equal. lia.
  - rewrite Nat.min_r by lia.
    rewrite !firstn_all2; [reflexivity | |]; rewrite length_skipn; lia.
Qed.

(** The batches of one epoch: the loop of line 58 starts a batch at
    every multiple of the batch size below [len(X)], so there are
    [ceil(len(X) / batch_size)] of them; the batch at [i] holds the rows
    from [i] on, [batch_size] of them or, in the last batch, those that
    are left; and the batches, one after the other, are the rows of [X]:
    every sample is used once per epoch, in order. *)
Theorem batches_partition (X : ndarray A) (batch_size : nat) :
  List.length (rows X) = nrows X -> (0 < batch_size)%nat ->
  exists starts,
    range_step (len X) batch_size = Ok starts /\
    List.length starts = ((len X + batch_size - 1) / batch_size)%nat /\
    (forall k i, starts !! k = Some i ->
       i = (k * batch_size)%nat /\ (i < len X)%nat /\
       nrows (slice X i (i + batch_size)) = Nat.min batch_size (len X - i)) /\
    concat (map (fun i => rows (slice X i (i + batch_size))) starts) = rows X.
Proof.
  intros Hwf Hb. unfold len.
  destruct (batch_count (nrows X) batch_size Hb) as [Hcover Hbelow].
  set (count := ((nrows X + batch_size - 1) / batch_size)%nat) in *.
  exists (map (fun q => (q * batch_size)%nat) (seq 0 count)).
  split; [unfold range_step; destruct batch_size; [lia | reflexivity]|].
  split; [rewrite length_map, length_seq; reflexivity|].
  split.
  - intros k i Hk. rewrite list_lookup_fmap in Hk.
    destruct (seq 0 count !! k) as [q|] eqn:Hq; [|discriminate].
    apply lookup_seq in Hq. destruct Hq as [-> Hlt]. injection Hk as <-.
    cbn [Nat.add]. pose proof (Hbelow k Hlt) as Hi.
    split; [reflexivity|]. split; [exact Hi|].
    apply (slice_rows X (k * batch_size) batch_size Hwf). lia.
  - rewrite map_map.
    transitivity (concat (map (fun q => firstn batch_size
                                          (skipn (q * batch_size) (rows X)))
                            (seq 0 count))).
    + f_equal. apply map_ext_in. intros q Hq. apply in_seq in Hq.
      apply (slice_rows X (q * batch_size) batch_size Hwf).
      pose proof (Hbelow q ltac:(lia)). lia.
    + rewrite concat_chunks. apply firstn_all2. lia.
Qed.

End Batches.
(** * The network in exact arithmetic *)

Section ExactArithmetic.

Import NetworkCore TrainerScript.

Local Open Scope R_scope.

(** ** Arrays of zeros *)

Lemma rectangular_tabulate {A : Type} (d : A) (a : ndarray A) :
  rectangular a -> tabulate (nrows a) (ncols a) (fun i j => get d a i j) = a.
Proof.
  destruct a as [n m l]. unfold rectangular. cbn [nrows ncols rows].
  intros [Hlen Hrows]. unfold tabulate. f_equal.
  apply (nth_ext _ _ [] []); [rewrite length_map, length_seq; exact (eq_sym Hlen)|].
  intros i Hi. rewrite length_map, length_seq in Hi.
  rewrite (nth_map_seq [] _ n i Hi).
  assert (List.length (nth i l []) = m) as Hrow.
  { rewrite List.Forall_forall in Hrows. apply Hrows, nth_In. lia. }
  apply (nth_ext _ _ d d); [rewrite length_map, length_seq; exact (eq_sym Hrow)|].
  intros j Hj. rewrite length_map, length_seq in Hj.
  rewrite (nth_map_seq d _ m j Hj). reflexivity.
Qed.

Definition all_zero (a : ndarray R) : Prop := forall i j, at_ a i j = 0.

Lemma get_outside {A : Type} (d : A) (n m : nat) (f : nat -> nat -> A) (i j : nat) :
  (n <= i)%nat \/ (m <= j)%nat -> get d (tabulate n m f) i j = d.
Proof.
  intros Hout. unfold get, tabulate. cbn [rows].
  destruct (Nat.lt_ge_cases i n) as [Hi | Hi].
  - rewrite (nth_map_seq [] _ n i Hi).
    apply nth_overflow. rewrite length_map, length_seq. lia.
  - rewrite (nth_overflow _ []) by (rewrite length_map, length_seq; lia).
    destruct j; reflexivity.
Qed.

Lemma all_zero_tabulate (n m : nat) (f : nat -> nat -> R) :
  (forall i j, (i < n)%nat -> (j < m)%nat -> f i j = 0) ->
  all_zero (tabulate n m f).
Proof.
  intros Hf i j. unfold at_.
  destruct (Nat.lt_ge_cases i n) as [Hi | Hi];
    [destruct (Nat.lt_ge_cases j m) as [Hj | Hj]|].
  - rewrite get_tabulate by assumption. apply Hf; assumption.
  - apply get_outside. right. exact Hj.
  - apply get_outside. left. exact Hi.
Qed.

Lemma fsum_zeros (l : list R) : Forall (fun x => x = 0) l -> fsum l = 0.
Proof.
  intros Hl. induction Hl as [|x l -> _ IH]; [reflexivity|].
  rewrite fsum_cons, IH. lra.
Qed.

Lemma fsum_map_zero {A : Type} (f : A -> R) (l : list A) :
  (forall x, f x = 0) -> fsum (map f l) = 0.
Proof.
  intros Hf. apply fsum_zeros, List.Forall_forall. intros x Hx.
  apply in_map_iff in Hx. destruct Hx as (a & <- & _). apply Hf.
Qed.

Lemma all_zero_sub (y d : ndarray R) : np_sub y y = Ok d -> all_zero d.
Proof.
  unfold np_sub, broadcast2. rewrite !broadcast_dim_same. intros [= <-].
  apply all_zero_tabulate. intros i j _ _. cbn [fsub R_scalar]. lra.
Qed.

Lemma all_zero_dot_l (a b c : ndarray R) : all_zero a -> dot a b = Ok c -> all_zero c.
Proof.
  intros Ha. unfold dot. destruct (_ =? _)%nat; [|discriminate]. intros [= <-].
  apply all_zero_tabulate. intros i j _ _.
  apply fsum_map_zero. intros k. cbv beta. rewrite Ha. cbn [fmul R_scalar]. lra.
Qed.

Lemma all_zero_dot_r (a b c : ndarray R) : all_zero b -> dot a b = Ok c -> all_zero c.
Proof.
  intros Hb. unfold dot. destruct (_ =? _)%nat; [|discriminate]. intros [= <-].
  apply all_zero_tabulate. intros i j _ _.
  apply fsum_map_zero. intros k. cbv beta. rewrite Hb. cbn [fmul R_scalar]. lra.
Qed.

Lemma all_zero_mul (a b c : ndarray R) : all_zero a -> np_mul a b = Ok c -> all_zero c.
Proof.
  intros Ha. unfold np_mul, broadcast2.
  destruct (broadcast_dim (nrows a) (nrows b)); [|discriminate].
  destruct (broadcast_dim (ncols a) (ncols b)); [|discriminate].
  intros [= <-]. apply all_zero_tabulate. intros i j _ _.
  unfold all_zero, at_ in Ha. rewrite Ha.
  cbn [fmul R_scalar]. lra.
Qed.

Lemma all_zero_sum_axis0 (a : ndarray R) : all_zero a -> all_zero (sum_axis0 a).
Proof.
  intros Ha. apply all_zero_tabulate. intros i j _ _.
  apply fsum_map_zero. intros k. apply Ha.
Qed.

Lemma all_zero_scale (c : R) (a : ndarray R) :
  c = 0 \/ all_zero a -> all_zero (scale c a).
Proof.
  intros Hc. apply all_zero_tabulate. intros i j _ _. cbn [fmul R_scalar].
  destruct Hc as [-> | Ha]; [|rewrite Ha]; lra.
Qed.

Lemma iadd_all_zero (a d v : ndarray R) :
  rectangular a -> all_zero d -> iadd a d = Ok v -> v = a.
Proof.
  intros Hwf Hd. unfold iadd. destruct (_ && _); [|discriminate]. intros [= <-].
  rewrite <- (rectangular_tabulate 0 a Hwf) at 3.
  apply tabulate_ext. intros i j _ _. rewrite Hd. cbn [fadd R_scalar].
  unfold at_. cbn [fzero R_scalar]. lra.
Qed.

(** ** A step without error *)

Lemma iadd_param_unchanged (a d : ndarray R) :
  rectangular a -> all_zero d ->
  match iadd a d with Ok v => v = a | Raise _ => True end.
Proof.
  intros Hwf Hd. destruct (iadd a d) as [v|e] eqn:Hv; [|exact I].
  apply (iadd_all_zero a d v Hwf Hd Hv).
Qed.

(** In exact arithmetic, when the prediction is the target, or the
    learning rate is 0, [backward] leaves every weight and bias as it
    was: each update adds an array of zeros. *)
Theorem backward_without_error (X y predicted : ndarray R) (learning_rate : R)
    (self : NeuralNetwork R) (h1 h2 : ndarray R) :
  hidden1 self = Some h1 -> hidden2 self = Some h2 ->
  Forall rectangular (parameters self) ->
  predicted = y \/ learning_rate = 0 ->
  parameters (snd (backward X y predicted learning_rate self)) = parameters self.
Proof.
  intros Hh1 Hh2 Hwf Hcase.
  unfold parameters, all_params in Hwf. cbn [map get_param] in Hwf.
  inversion Hwf as [|? ? Hw0 Hwf1]; subst. inversion Hwf1 as [|? ? Hw1 Hwf2]; subst.
  inversion Hwf2 as [|? ? Hw2 Hwf3]; subst. inversion Hwf3 as [|? ? Hb1 Hwf4]; subst.
  inversion Hwf4 as [|? ? Hb2 Hwf5]; subst. inversion Hwf5 as [|? ? Hb3 _]; subst.
  clear Hwf Hwf1 Hwf2 Hwf3 Hwf4 Hwf5.
  rewrite (backward_calls X y predicted learning_rate self h1 h2 Hh1 Hh2).
  destruct (np_sub y predicted) as [oe|e] eqn:Hoe; [|reflexivity].
  assert (learning_rate = 0 \/ all_zero oe) as Zoe.
  { destruct Hcase as [-> | ->]; [right; apply (all_zero_sub y oe Hoe) | left; reflexivity]. }
  destruct (dot oe _) as [e2|e] eqn:He2; [|reflexivity].
  assert (learning_rate = 0 \/ all_zero e2) as Ze2.
  { destruct Zoe as [-> | Z]; [left; reflexivity | right; apply (all_zero_dot_l _ _ _ Z He2)]. }
  destruct (dot e2 _) as [e1|e] eqn:He1; [|reflexivity].
  assert (learning_rate = 0 \/ all_zero e1) as Ze1.
  { destruct Ze2 as [-> | Z]; [left; reflexivity | right; apply (all_zero_dot_l _ _ _ Z He1)]. }
  destruct (np_mul e2 _) as [d2|e] eqn:Hd2; [|reflexivity].
  assert (learning_rate = 0 \/ all_zero d2) as Zd2.
  { destruct Ze2 as [-> | Z]; [left; reflexivity | right; apply (all_zero_mul _ _ _ Z Hd2)]. }
  destruct (np_mul e1 _) as [d1|e] eqn:Hd1; [|reflexivity].
  assert (learning_rate = 0 \/ all_zero d1) as Zd1.
  { destruct Ze1 as [-> | Z]; [left; reflexivity | right; apply (all_zero_mul _ _ _ Z Hd1)]. }
  destruct (dot (transpose h2) oe) as [g2|e] eqn:Hg2; [|reflexivity].
  assert (learning_rate = 0 \/ all_zero g2) as Zg2.
  { destruct Zoe as [-> | Z]; [left; reflexivity | right; apply (all_zero_dot_r _ _ _ Z Hg2)]. }
  pose proof (iadd_param_unchanged (hidden_weights2 self) (scale learning_rate g2)
                Hw2 (all_zero_scale _ _ Zg2)) as Hi2.
  destruct (iadd (hidden_weights2 self) _) as [w2|e]; [subst w2 | reflexivity].
  cbv zeta.
  destruct (dot (transpose h1) d2) as [g1|e] eqn:Hg1; [|reflexivity].
  assert (learning_rate = 0 \/ all_zero g1) as Zg1.
  { destruct Zd2 as [-> | Z]; [left; reflexivity | right; apply (all_zero_dot_r _ _ _ Z Hg1)]. }
  pose proof (iadd_param_unchanged (hidden_weights1 self) (scale learning_rate g1)
                Hw1 (all_zero_scale _ _ Zg1)) as Hi1.
  destruct (iadd (hidden_weights1 self) _) as [w1|e]; [subst w1 | reflexivity].
  destruct (dot (transpose X) d1) as [g0|e] eqn:Hg0; [|reflexivity].
  assert (learning_rate = 0 \/ all_zero g0) as Zg0.
  { destruct Zd1 as [-> | Z]; [left; reflexivity | right; apply (all_zero_dot_r _ _ _ Z Hg0)]. }
  pose proof (iadd_param_unchanged (input_weights self) (scale learning_rate g0)
                Hw0 (all_zero_scale _ _ Zg0)) as Hi0.
  destruct (iadd (input_weights self) _) as [w0|e]; [subst w0 | reflexivity].
  assert (forall a, learning_rate = 0 \/ all_zero a ->
                    all_zero (scale learning_rate (sum_axis0 a))) as Zsum.
  { intros a [-> | Z]; apply all_zero_scale; [left; reflexivity|].
    right. apply all_zero_sum_axis0, Z. }
  pose proof (iadd_param_unchanged (output_bias self) _ Hb3 (Zsum oe Zoe)) as Hi3.
  destruct (iadd (output_bias self) _) as [b3|e]; [subst b3 | reflexivity].
  pose proof (iadd_param_unchanged (hidden_bias2 self) _ Hb2 (Zsum d2 Zd2)) as Hi4.
  destruct (iadd (hidden_bias2 self) _) as [b2|e]; [subst b2 | reflexivity].
  pose proof (iadd_param_unchanged (hidden_bias1 self) _ Hb1 (Zsum d1 Zd1)) as Hi5.
  destruct (iadd (hidden_bias1 self) _) as [b1|e]; [subst b1 | reflexivity].
  reflexivity.
Qed.

(** ** Softmax *)

Lemma fmaximum_R (a b : R) : fmaximum a b = Rmax b a.
Proof.
  unfold fmaximum. cbn [fle fisnan R_scalar]. rewrite orb_false_r.
  unfold Rleb, Rmax. destruct (Rle_dec b a); reflexivity.
Qed.

Lemma fold_maximum_bounds (l : list R) (a : R) :
  a <= fold_left fmaximum l a /\
  Forall (fun x => x <= fold_left fmaximum l a) l /\
  (fold_left fmaximum l a = a \/ In (fold_left fmaximum l a) l).
Proof.
  revert a. induction l as [|x l IH]; intros a; cbn [fold_left].
  - split; [lra|]. split; [constructor | left; reflexivity].
  - destruct (IH (fmaximum a x)) as (Hge & Hall & Hin).
    rewrite fmaximum_R in *.
    pose proof (Rmax_l x a). pose proof (Rmax_r x a).
    split; [lra|]. split; [constructor; [lra | exact Hall]|].
    destruct Hin as [Heq | Hin]; [|right; right; exact Hin].
    rewrite Heq. unfold Rmax. destruct (Rle_dec x a); [left | right; left]; reflexivity.
Qed.

Lemma fold_maximum_shift (l : list R) (a c : R) :
  fold_left fmaximum (map (fun x => x + c) l) (a + c) = fold_left fmaximum l a + c.
Proof.
  revert a. induction l as [|x l IH]; intros a; cbn [fold_left map]; [reflexivity|].
  rewrite <- IH. f_equal. rewrite !fmaximum_R.
  unfold Rmax. destruct (Rle_dec (x + c) (a + c)), (Rle_dec x a); lra.
Qed.

(** The row maximum, as [np.max] computes it. *)
Definition row_max (x : ndarray R) (i : nat) : R :=
  fold_left fmaximum (map (fun j => at_ x i (S j)) (seq 0 (ncols x - 1))) (at_ x i 0).

Lemma max_axis1_row_max (x m : ndarray R) :
  max_axis1 x = Ok m ->
  (0 < ncols x)%nat /\ m = tabulate (nrows x) 1 (fun i _ => row_max x i).
Proof.
  unfold max_axis1, row_max. destruct (ncols x) as [|k]; [discriminate|].
  intros [= <-]. split; [lia|]. cbn [Nat.sub]. rewrite Nat.sub_0_r. reflexivity.
Qed.

Lemma row_max_bounds (x : ndarray R) (i : nat) :
  (0 < ncols x)%nat ->
  (forall j, (j < ncols x)%nat -> at_ x i j <= row_max x i) /\
  (exists j, (j < ncols x)%nat /\ at_ x i j = row_max x i).
Proof.
  intros Hc. unfold row_max.
  destruct (fold_maximum_bounds
              (map (fun j => at_ x i (S j)) (seq 0 (ncols x - 1))) (at_ x i 0))
    as (Hge & Hall & Hin).
  split.
  - intros j Hj. destruct j as [|j]; [exact Hge|].
    rewrite List.Forall_forall in Hall. apply Hall.
    apply in_map_iff. exists j. split; [reflexivity|]. apply in_seq. lia.
  - destruct Hin as [Heq | Hin].
    + exists 0%nat. split; [exact Hc | exact (eq_sym Heq)].
    + apply in_map_iff in Hin. destruct Hin as (j & Hj & Hin). apply in_seq in Hin.
      exists (S j). split; [lia | exact Hj].
Qed.

(** What line 28 is for: after the row maximum is subtracted, no
    exponent is above 0 and one in every row is 0, so that every
    denominator of line 29 is at least 1 and softmax never divides by
    zero. *)
Theorem softmax_exponents (x m shifted : ndarray R) :
  max_axis1 x = Ok m -> np_sub x m = Ok shifted ->
  shape shifted = shape x /\
  forall i, (i < nrows x)%nat ->
    (forall j, (j < ncols x)%nat -> at_ shifted i j <= 0) /\
    (exists j, (j < ncols x)%nat /\ at_ shifted i j = 0) /\
    1 <= at_ (sum_axis1 (amap fexp shifted)) i 0.
Proof.
  intros Hm Hs.
  destruct (max_axis1_row_max x m Hm) as [Hc ->].
  apply (broadcast2_column fsub x (tabulate (nrows x) 1 (fun i _ => row_max x i))
           shifted eq_refl eq_refl) in Hs.
  assert (nrows shifted = nrows x /\ ncols shifted = ncols x) as [Hsr Hsc]
    by (rewrite Hs; split; reflexivity).
  split; [unfold shape; congruence|]. intros i Hi.
  destruct (row_max_bounds x i Hc) as [Hle [j0 [Hj0 Heq]]].
  assert (forall j, (j < ncols x)%nat -> at_ shifted i j = at_ x i j - row_max x i)
    as Hat.
  { intros j Hj. rewrite Hs. unfold at_ at 1. rewrite get_tabulate by assumption.
    unfold at_ at 2. rewrite get_tabulate by lia. reflexivity. }
  clear Hs.
  split; [|split].
  - intros j Hj. rewrite Hat by exact Hj. specialize (Hle j Hj). lra.
  - exists j0. split; [exact Hj0|]. rewrite Hat by exact Hj0. lra.
  - assert (forall j, (j < ncols x)%nat ->
              at_ (amap fexp shifted) i j = exp (at_ shifted i j)) as Hexp.
    { intros j Hj. unfold amap, at_ at 1. rewrite get_tabulate by lia. reflexivity. }
    unfold sum_axis1, at_ at 1.
    rewrite get_tabulate by (cbn [amap nrows tabulate]; lia).
    change (ncols (amap fexp shifted)) with (ncols shifted). rewrite Hsc.
    set (l := map _ (seq 0 (ncols x))).
    assert (Forall (fun e => 0 < e) l) as Hpos.
    { subst l. apply List.Forall_forall. intros e He. apply in_map_iff in He.
      destruct He as (j & <- & Hj). apply in_seq in Hj.
      rewrite Hexp by lia. apply exp_pos. }
    assert (In 1 l) as Hone.
    { subst l. apply in_map_iff. exists j0. split; [|apply in_seq; lia].
      rewrite Hexp, Hat by exact Hj0. rewrite Heq, Rminus_diag. apply exp_0. }
    clearbody l. clear -Hpos Hone.
    induction Hpos as [|e l He Hl IH]; [contradiction|].
    rewrite fsum_cons. pose proof (fsum_nonneg l Hl).
    destruct Hone as [-> | Hone]; [lra|]. specialize (IH Hone). lra.
Qed.

Lemma softmax_shift (x col shifted : ndarray R) :
  nrows col = nrows x -> ncols col = 1%nat ->
  np_add x col = Ok shifted ->
  softmax shifted = softmax (tabulate (nrows x) (ncols x) (at_ x)).
Proof.
  intros Hn Hc Hadd.
  apply (broadcast2_column fadd x col shifted Hn Hc) in Hadd. subst shifted.
  unfold softmax, max_axis1. cbn [ncols nrows tabulate].
  destruct (ncols x) as [|k] eqn:Hk; [reflexivity|]. cbn [Py.bind].
  assert (forall f g : nat -> nat -> R,
            (forall i j, (i < nrows x)%nat -> (j < S k)%nat -> f i j = g i j) ->
            tabulate (nrows x) (S k) f = tabulate (nrows x) (S k) g) as Hext
    by (intros f g; apply tabulate_ext).
  set (a := tabulate (nrows x) (S k) (fun i j => fadd (at_ x i j) (at_ col i 0))).
  set (b := tabulate (nrows x) (S k) (at_ x)).
  assert (forall i j, (i < nrows x)%nat -> (j < S k)%nat ->
            at_ a i j = at_ b i j + at_ col i 0) as Hab.
  { intros i j Hi Hj. unfold at_ at 1 2. subst a b.
    rewrite !get_tabulate by assumption. reflexivity. }
  set (ma := tabulate (nrows x) 1 _). set (mb := tabulate (nrows x) 1 _).
  assert (forall i, (i < nrows x)%nat -> at_ ma i 0 = at_ mb i 0 + at_ col i 0) as Hmax.
  { intros i Hi. unfold at_ at 1 2. subst ma mb. rewrite !get_tabulate by lia.
    rewrite (Hab i 0%nat Hi ltac:(lia)).
    rewrite <- fold_maximum_shift. f_equal.
    rewrite map_map. apply map_ext_in. intros j Hj. apply in_seq in Hj.
    apply Hab; lia. }
  assert (np_sub a ma = np_sub b mb) as ->; [|reflexivity].
  unfold np_sub, broadcast2.
  change (nrows a) with (nrows x). change (ncols a) with (S k).
  change (nrows b) with (nrows x). change (ncols b) with (S k).
  change (nrows ma) with (nrows x). change (ncols ma) with 1%nat.
  change (nrows mb) with (nrows x). change (ncols mb) with 1%nat.
  rewrite broadcast_dim_same, broadcast_dim_one. f_equal.
  apply tabulate_ext. intros i j Hi Hj.
  rewrite !broadcast_index_lt by assumption.
  change (broadcast_index 1 j) with 0%nat.
  specialize (Hab i j Hi Hj). specialize (Hmax i Hi).
  unfold at_ in Hab, Hmax. rewrite Hab, Hmax.
  cbn [fsub R_scalar]. lra.
Qed.

(** Softmax does not change when a number is added to every entry of a
    row, a different number for each row: with a column [col] of one
    number per row, [softmax(x + col)] is [softmax(x)]. *)
Theorem softmax_shift_invariant (x col shifted : ndarray R) :
  rectangular x -> nrows col = nrows x -> ncols col = 1%nat ->
  np_add x col = Ok shifted ->
  softmax shifted = softmax x.
Proof.
  intros Hrect Hn Hc Hadd. rewrite (softmax_shift x col shifted Hn Hc Hadd).
  f_equal. apply (rectangular_tabulate 0 x Hrect).
Qed.

(** ** The loss *)

Lemma fsum_squares (l : list R) :
  Forall (fun e => 0 <= e) l ->
  0 <= fsum l /\ (fsum l = 0 <-> Forall (fun e => e = 0) l).
Proof.
  intros Hl. induction Hl as [|e l He Hl [IH0 IH]].
  - split; [unfold fsum; cbn; lra|]. split; [constructor | reflexivity].
  - rewrite fsum_cons. split; [lra|]. split.
    + intros Hs. assert (e = 0) by lra. assert (fsum l = 0) as Hz by lra.
      constructor; [assumption | apply IH, Hz].
    + intros Hz. inversion Hz as [|? ? -> Hz']; subst.
      apply IH in Hz'. lra.
Qed.

Lemma in_concat_tabulate {A : Type} (n m : nat) (f : nat -> nat -> A) (e : A) :
  In e (concat (rows (tabulate n m f))) <->
  exists i j, (i < n)%nat /\ (j < m)%nat /\ e = f i j.
Proof.
  unfold tabulate. cbn [rows]. rewrite in_concat. split.
  - intros (row & Hrow & He). apply in_map_iff in Hrow.
    destruct Hrow as (i & <- & Hi). apply in_map_iff in He.
    destruct He as (j & <- & Hj). apply in_seq in Hi, Hj.
    exists i, j. repeat split; lia.
  - intros (i & j & Hi & Hj & ->).
    exists (map (fun j => f i j) (seq 0 m)). split.
    + apply in_map_iff. exists i. split; [reflexivity | apply in_seq; lia].
    + apply in_map_iff. exists j. split; [reflexivity | apply in_seq; lia].
Qed.

Lemma np_sub_same_shape (a b : ndarray R) :
  nrows a = nrows b -> ncols a = ncols b ->
  np_sub a b =
  Ok (tabulate (nrows a) (ncols a) (fun i j => at_ a i j - at_ b i j)).
Proof.
  intros Hn Hm. unfold np_sub, broadcast2.
  rewrite <- Hn, <- Hm, !broadcast_dim_same. f_equal.
  apply tabulate_ext. intros i j Hi Hj.
  rewrite !broadcast_index_lt by assumption. reflexivity.
Qed.

(** In exact arithmetic the loss of lines 63 and 66, on two arrays of
    one shape that are not empty, is never negative, and it is 0 exactly
    when every prediction is its target. *)
Theorem mean_square_zero (a b : ndarray R) :
  nrows a = nrows b -> ncols a = ncols b ->
  (0 < nrows a)%nat -> (0 < ncols a)%nat ->
  exists l,
    mean_square a b = Ok l /\ 0 <= l /\
    (l = 0 <->
     forall i j, (i < nrows a)%nat -> (j < ncols a)%nat -> at_ a i j = at_ b i j).
Proof.
  intros Hn Hm Hr Hc. unfold mean_square.
  rewrite (np_sub_same_shape a b Hn Hm). cbn [Py.bind].
  set (d := tabulate (nrows a) (ncols a) (fun i j => at_ a i j - at_ b i j)).
  eexists. split; [reflexivity|].
  assert (forall i j, (i < nrows a)%nat -> (j < ncols a)%nat ->
            at_ d i j = at_ a i j - at_ b i j) as Hd.
  { intros i j Hi Hj. unfold at_ at 1. subst d. rewrite get_tabulate by assumption.
    reflexivity. }
  unfold mean, square, amap.
  change (nrows d) with (nrows a). change (ncols d) with (ncols a).
  set (sq := tabulate (nrows a) (ncols a) (fun i j => fmul (at_ d i j) (at_ d i j))).
  change (nrows sq) with (nrows a). change (ncols sq) with (ncols a).
  assert (Forall (fun e => 0 <= e) (concat (rows sq))) as Hsq.
  { apply List.Forall_forall. intros e He. apply in_concat_tabulate in He.
    destruct He as (i & j & _ & _ & ->). cbn [fmul R_scalar]. nra. }
  destruct (fsum_squares _ Hsq) as [Hge Hzero].
  assert (0 < IZR (Z.of_nat (nrows a * ncols a))) as Hcount.
  { apply IZR_lt. nia. }
  cbn [fdiv of_int R_scalar]. split.
  - apply Rmult_le_pos; [exact Hge|]. apply Rlt_le, Rinv_0_lt_compat, Hcount.
  - split.
    + intros Hl. assert (fsum (concat (rows sq)) = 0) as Hs.
      { apply (Rmult_eq_reg_r (/ IZR (Z.of_nat (nrows a * ncols a))));
          [unfold Rdiv in Hl; lra|]. apply Rinv_neq_0_compat. lra. }
      apply Hzero in Hs. rewrite List.Forall_forall in Hs.
      intros i j Hi Hj.
      assert (at_ d i j * at_ d i j = 0) as Hz.
      { apply Hs. apply in_concat_tabulate. exists i, j. repeat split; assumption. }
      rewrite Hd in Hz by assumption. nra.
    + intros Heq. assert (fsum (concat (rows sq)) = 0) as ->; [|unfold Rdiv; lra].
      apply Hzero, List.Forall_forall. intros e He. apply in_concat_tabulate in He.
      destruct He as (i & j & Hi & Hj & ->).
      rewrite Hd, Heq by assumption. cbn [fmul R_scalar]. lra.
Qed.

End ExactArithmetic.
(** * A loss that is not a number *)

Section EmptyValidation.

Import NetworkCore TrainingController TrainerScript.

(** In binary64 arithmetic the mean over an empty array is 0 / 0: the
    loss of an empty batch is NaN, and NaN is below no number. *)
Lemma mean_square_empty (a b : ndarray float) (l : float) :
  nrows a = 0%nat \/ nrows b = 0%nat ->
  mean_square a b = Ok l ->
  fisnan l = true /\ forall best, flt l best = false.
Proof.
  intros Hempty. unfold mean_square, np_sub, broadcast2.
  destruct (broadcast_dim (nrows a) (nrows b)) as [n|] eqn:Hn; [|discriminate].
  destruct (broadcast_dim (ncols a) (ncols b)) as [m|]; [|discriminate].
  assert (n = 0%nat) as ->.
  { unfold broadcast_dim in Hn.
    destruct Hempty as [H0 | H0]; rewrite H0 in Hn;
      repeat match type of Hn with
             | (if ?c then _ else _) = _ => destruct c eqn:?
             end; try discriminate; injection Hn as <-;
      repeat match goal with
             | E : (_ =? _)%nat = true |- _ => apply Nat.eqb_eq in E
             end; lia. }
  cbn [Py.bind]. intros [= <-].
  unfold mean, square, amap. cbn [nrows ncols rows tabulate seq map concat].
  change (fsum (@nil float)) with PrimFloat.zero.
  change (of_int (Z.of_nat (0 * m))) with (float_of_int 0).
  split; [reflexivity|].
  intros best. cbn [flt float64_scalar]. rewrite FloatAxioms.ltb_spec.
  reflexivity.
Qed.

Context {exponential : Exponential float}.

Variable report : nat -> float -> nat -> float -> result unit.
Variables X y X_val y_val : ndarray float.
Variable learning_rate : float.
Variable batch_size : nat.
Variable p : nat.
Variables n_in n_out : nat.

Hypothesis outputs : (0 < n_out)%nat.
Hypothesis X_width : ncols X = n_in.
Hypothesis y_rows : nrows y = nrows X.
Hypothesis y_width : ncols y = n_out.
Hypothesis X_val_width : ncols X_val = n_in.
Hypothesis X_val_empty : nrows X_val = 0%nat.
Hypothesis y_val_rows : nrows y_val = nrows X_val.
Hypothesis y_val_width : ncols y_val = n_out.
Hypothesis batch_size_positive : (0 < batch_size)%nat.
Hypothesis report_returns :
  forall epoch epoch_loss val_loss, report epoch epoch_loss (len X) val_loss = Ok tt.

(** With the counter at [c] below the patience [p], the loop goes on for
    [p - c] more epochs, none of which improves, and breaks in the last
    of them if the budget reaches that far. *)
Lemma train_loop_empty_validation (remaining epoch c : nat) (best : float)
    (self : NeuralNetwork float) :
  (c < p)%nat -> trainable n_in n_out self ->
  exists self',
    train_loop forward backward mean_square slice len fadd fzero flt report
      X y X_val y_val learning_rate batch_size (Z.of_nat p) remaining epoch
      {| best_val_loss := best; patience_counter := Z.of_nat c |} self =
    (Ok (if (p - c <=? remaining)%nat then EarlyStopping (epoch + (p - c) - 1)
         else Exhausted), self').
Proof.
  revert epoch c self. induction remaining as [|r IH]; intros epoch c self Hc Ht.
  - exists self. destruct (Nat.leb_spec (p - c) 0); [lia | reflexivity].
  - cbn [train_loop].
    destruct (epoch_pass_returns report X y X_val y_val learning_rate batch_size
                n_in n_out outputs X_width y_rows y_width X_val_width y_val_rows
                y_val_width batch_size_positive report_returns epoch self Ht)
      as (val_loss & self1 & out & -> & Ht1 & Hout & Hloss).
    destruct (mean_square_empty y_val out val_loss) as [_ Hnan];
      [right; congruence | exact Hloss |].
    unfold stops_here, improvement_check. cbn [best_val_loss patience_counter].
    rewrite Hnan. cbn [negb andb].
    destruct (Z.leb_spec (Z.of_nat p) (Z.of_nat c + 1)) as [Hstop | Hgo].
    + exists self1. destruct (Nat.leb_spec (p - c) (S r)); [|lia].
      do 2 f_equal. f_equal. lia.
    + destruct (IH (S epoch) (S c) self1 ltac:(lia) Ht1) as (self' & Hrun).
      exists self'.
      replace (Z.of_nat c + 1) with (Z.of_nat (S c)) by lia. rewrite Hrun.
      destruct (Nat.leb_spec (p - S c) r), (Nat.leb_spec (p - c) (S r));
        try lia; [|reflexivity].
      do 2 f_equal. f_equal. lia.
Qed.

End EmptyValidation.

Section EmptyValidationRun.

Import NetworkCore TrainingController TrainerScript.

Context {exponential : Exponential float}.

(** In binary64 arithmetic, training with an empty validation set never
    sees an improvement: the validation loss is NaN at every epoch, which
    is not below [float('inf')], so that with a patience of [p >= 1]
    [train] stops at epoch [p - 1] when the budget has that many epochs,
    and runs through the budget otherwise. *)
Theorem fit_empty_validation
    (report : nat -> float -> nat -> float -> result unit)
    (X y X_val y_val : ndarray float) (epochs : nat) (learning_rate : float)
    (batch_size p : nat) (self : NeuralNetwork float) :
  well_shaped self -> (0 < output_size self)%nat ->
  ncols X = input_size self -> nrows y = nrows X -> ncols y = output_size self ->
  ncols X_val = input_size self -> nrows X_val = 0%nat ->
  nrows y_val = 0%nat -> ncols y_val = output_size self ->
  (0 < batch_size)%nat -> (1 <= p)%nat ->
  (forall epoch epoch_loss val_loss,
     report epoch epoch_loss (len X) val_loss = Ok tt) ->
  fst (fit infinity report X y X_val y_val epochs learning_rate batch_size
         (Z.of_nat p) self) =
  Ok (if (p <=? epochs)%nat then EarlyStopping (p - 1) else Exhausted).
Proof.
  intros Hw Ho HX Hyr Hyc HXv HXv0 Hyvr Hyvc Hb Hp Hreport.
  unfold fit, train, initial_state.
  destruct (train_loop_empty_validation report X y X_val y_val learning_rate
              batch_size p (input_size self) (output_size self)
              Ho HX Hyr Hyc HXv HXv0 ltac:(congruence) Hyvc Hb Hreport
              epochs 0 0 infinity self ltac:(lia))
    as (self' & Hrun); [split; [exact Hw | split; reflexivity]|].
  change (Z.of_nat 0) with 0 in Hrun. rewrite Hrun. cbn [fst].
  rewrite Nat.sub_0_r. reflexivity.
Qed.

End EmptyValidationRun.
(** * From the log to the training data *)

Section PreparationFacts.

Import FeaturePipeline LabelEncoder TrainerScript.

Context {U : UnicodeData}.

(** ** [parse_input] *)

Lemma parse_line_row (line : list char) (row : list Z) (color : list char) :
  parse_line line = Some (row, color) -> List.length row = 4%nat.
Proof.
  unfold parse_line.
  destruct (search sample_pattern line) as [[|r [|g [|b [|c [|w [|]]]]]]|];
    try discriminate.
  intros [= <- _]. reflexivity.
Qed.

Lemma parse_input_rows (file : list (list char)) :
  parse_input file =
    (map fst (omap parse_line file), map snd (omap parse_line file)) /\
  Forall (fun row => List.length row = 4%nat) (fst (parse_input file)).
Proof.
  assert (parse_input file =
          (map fst (omap parse_line file), map snd (omap parse_line file))) as Hp.
  { unfold parse_input. rewrite parse_loop_acc. reflexivity. }
  split; [exact Hp|]. rewrite Hp. cbn [fst].
  apply List.Forall_forall. intros row Hrow. apply in_map_iff in Hrow.
  destruct Hrow as ([row' color] & <- & Hin). cbn [fst].
  apply list_elem_of_In, list_elem_of_omap in Hin. destruct Hin as (line & _ & Hline).
  exact (parse_line_row line row' color Hline).
Qed.

(** The samples of a log are found line by line: the samples of two logs
    one after the other are those of the first followed by those of the
    second; there is one label per row, at most one sample per line, and
    every row has four readings. *)
Theorem parse_input_concatenation (file1 file2 : list (list char)) :
  parse_input (file1 ++ file2) =
    (fst (parse_input file1) ++ fst (parse_input file2),
     snd (parse_input file1) ++ snd (parse_input file2)) /\
  List.length (fst (parse_input file1)) = List.length (snd (parse_input file1)) /\
  (List.length (fst (parse_input file1)) <= List.length file1)%nat /\
  Forall (fun row => List.length row = 4%nat) (fst (parse_input file1)).
Proof.
  destruct (parse_input_rows file1) as [H1 Hrows].
  destruct (parse_input_rows file2) as [H2 _].
  destruct (parse_input_rows (file1 ++ file2)) as [H12 _].
  split; [|split; [|split; [|exact Hrows]]].
  - rewrite H12, H1, H2. cbn [fst snd].
    rewrite omap_app, !map_app. reflexivity.
  - rewrite H1. cbn [fst snd]. rewrite !length_map. reflexivity.
  - rewrite H1. cbn [fst]. rewrite length_map.
    clear. induction file1 as [|line file IH]; [reflexivity|].
    cbn [omap list_omap List.length]. destruct (parse_line line); cbn [List.length]; lia.
Qed.

(** ** Labels as keys

    A label is one of the four names of the vocabulary exactly when its
    key is: the encoding of a character beyond ASCII starts with a byte
    that no name contains. *)

Lemma byte_code (n : N) : (n < 256)%N -> N_of_ascii (byte n) = n.
Proof. apply N_ascii_embedding. Qed.

Lemma utf8_head (c : char) :
  (c < 128)%N /\ utf8 c = [byte c] \/
  exists b rest, utf8 c = b :: rest /\ (128 <= N_of_ascii b)%N.
Proof.
  unfold utf8. unfold char in c.
  destruct (N.ltb_spec c 128) as [H1|H1]; [left; split; [exact H1 | reflexivity]|].
  right.
  destruct (N.ltb_spec c 2048) as [H2|H2].
  { eexists _, _. split; [reflexivity|].
    assert (c / 64 < 32)%N by (apply N.Div0.div_lt_upper_bound; lia).
    generalize dependent (c / 64)%N. intros q Hq. rewrite byte_code; lia. }
  destruct (N.ltb_spec c 65536) as [H3|H3].
  { eexists _, _. split; [reflexivity|].
    assert (c / 4096 < 16)%N by (apply N.Div0.div_lt_upper_bound; lia).
    generalize dependent (c / 4096)%N. intros q Hq. rewrite byte_code; lia. }
  destruct (N.ltb_spec c 1114112) as [H4|H4].
  { eexists _, _. split; [reflexivity|].
    assert (c / 262144 < 5)%N by (apply N.Div0.div_lt_upper_bound; lia).
    generalize dependent (c / 262144)%N. intros q Hq. rewrite byte_code; lia. }
  eexists _, _. split; [reflexivity|]. vm_compute. discriminate.
Qed.

Lemma utf8_ascii_text (w : list char) (t : list ascii) :
  Forall (fun a => (N_of_ascii a < 128)%N) t ->
  flat_map utf8 w = t -> w = map code t.
Proof.
  revert t. induction w as [|c w IH]; intros t Ht Hw.
  - cbn in Hw. subst t. reflexivity.
  - cbn [flat_map] in Hw.
    destruct (utf8_head c) as [[Hc Hu] | (b & rest & Hu & Hb)]; rewrite Hu in Hw.
    + cbn [app] in Hw. subst t. inversion Ht as [|? ? _ Ht']; subst.
      cbn [map]. unfold code at 1. rewrite byte_code by lia.
      f_equal. apply (IH _ Ht' eq_refl).
    + cbn [app] in Hw. subst t. inversion Ht as [|? ? Hb' _]; subst. lia.
Qed.

Lemma key_of_vocabulary (label : list char) :
  key_of label ∈ unique_labels <->
  exists name, name ∈ unique_labels /\ label = str name.
Proof.
  split.
  - intros Hin. exists (key_of label). split; [exact Hin|].
    unfold str, text. apply utf8_ascii_text.
    + unfold unique_labels in Hin.
      repeat (apply elem_of_cons in Hin; destruct Hin as [-> | Hin];
              [repeat constructor|]).
      inversion Hin.
    + unfold key_of. rewrite list_ascii_of_string_of_list_ascii. reflexivity.
  - intros (name & Hin & ->). unfold unique_labels in Hin.
    repeat (apply elem_of_cons in Hin; destruct Hin as [-> | Hin];
            [vm_compute; repeat constructor|]).
    inversion Hin.
Qed.

(** ** [int] *)

Lemma int_fold (s : list char) (acc : Z) :
  fold_left (fun a c => 10 * a + digit_value c) s acc =
  acc * 10 ^ Z.of_nat (List.length s) + int s.
Proof.
  unfold int. revert acc. induction s as [|c s IH]; intros acc.
  - cbn. lia.
  - cbn [fold_left List.length]. rewrite IH, (IH (10 * 0 + digit_value c)).
    rewrite Nat2Z.inj_succ, Z.pow_succ_r by lia. lia.
Qed.

(** [int] reads a string of digits in base 10 and in full, however long
    it is: the value of [s ++ t] is the value of [s] shifted by the
    length of [t] plus the value of [t], so that leading zeros do not
    count, and a string of [n] digits is below [10 ^ n]. *)
Theorem int_positional {L : UnicodeLaws U} (s t : list char) :
  Forall (fun c => is_digit c = true) s ->
  int (s ++ t) = int s * 10 ^ Z.of_nat (List.length t) + int t /\
  int (code "0" :: s) = int s /\
  0 <= int s < 10 ^ Z.of_nat (List.length s).
Proof.
  intros Hs. split; [|split].
  - unfold int at 1. rewrite fold_left_app. apply int_fold.
  - unfold int at 1. cbn [fold_left]. rewrite int_fold.
    rewrite (digit_value_ascii (code "0")) by reflexivity.
    change (Z.of_N (code "0") - 48) with 0. lia.
  - induction Hs as [|c s Hc Hs IH]; [cbn; lia|]. revert IH.
    unfold int at 3 4. cbn [fold_left]. rewrite int_fold.
    pose proof (digit_value_range c Hc) as Hd.
    cbn [List.length]. rewrite Nat2Z.inj_succ, Z.pow_succ_r by lia.
    set (P := 10 ^ Z.of_nat (List.length s)). intros IH.
    assert (0 <= digit_value c * P <= 9 * P) by nia.
    replace (10 * 0 + digit_value c) with (digit_value c) by lia. lia.
Qed.

(** ** [normalize_data] on other shapes *)

Section Shapes.

Context {F : Type} `{Scalar F}.

Lemma normalize_data_empty :
  normalize_data (F := F) (np_array []) = Raise broadcast_error.
Proof. reflexivity. Qed.

(** [normalize_data] takes rows of four readings and nothing else,
    except rows of one, which NumPy broadcasts: on no rows at all, and
    on rows of any other width, the division raises [ValueError]; on
    rows of one reading it returns four equal quotients per row. *)
Theorem normalize_data_widths (data : list (list Z)) (width : nat) :
  Forall (fun row => List.length row = width) data ->
  (data = [] \/ (width <> 4%nat /\ width <> 1%nat) ->
   normalize_data (F := F) (np_array data) = Raise broadcast_error) /\
  (data <> [] -> width = 1%nat ->
   exists X : features F,
     normalize_data (np_array data) = Ok X /\
     shape (feat_values X) = (List.length data, 4%nat) /\
     forall i j r, data !! i = Some [r] -> (j < 4)%nat ->
       get fzero (feat_values X) i j = fdiv (of_int r) (of_int 2048)).
Proof.
  intros Hrows. split.
  - intros [-> | [H4 H1]]; [reflexivity|].
    destruct data as [|r0 data']; [reflexivity|].
    assert (List.length r0 = width) as Hr0 by (inversion Hrows; assumption).
    unfold normalize_data, broadcast2, sensor_range, np_array.
    cbn [nrows ncols List.length]. rewrite Hr0.
    destruct (broadcast_dim (S (List.length data')) 1); [|reflexivity].
    unfold broadcast_dim.
    destruct (Nat.eqb_spec width 4); [contradiction|].
    destruct (Nat.eqb_spec width 1); [contradiction|]. reflexivity.
  - intros Hne ->. destruct data as [|r0 data']; [congruence|].
    assert (List.length r0 = 1%nat) as Hr0 by (inversion Hrows; assumption).
    unfold normalize_data, broadcast2, sensor_range.
    set (data := r0 :: data') in *.
    assert (nrows (np_array data) = List.length data) as Hn by reflexivity.
    assert (ncols (np_array data) = 1%nat) as Hm by exact Hr0.
    rewrite Hn, Hm.
    change (nrows (np_array [[2048; 2048; 2048; 2048]])) with 1%nat.
    change (ncols (np_array [[2048; 2048; 2048; 2048]])) with 4%nat.
    rewrite broadcast_dim_one. change (broadcast_dim 1 4) with (Some 4%nat).
    cbn [Py.bind]. eexists. split; [reflexivity|].
    cbn [feat_values]. split; [reflexivity|].
    intros i j r Hrow Hj.
    assert (i < List.length data)%nat as Hi by (eapply lookup_lt_Some; exact Hrow).
    rewrite get_tabulate by assumption.
    rewrite (broadcast_index_lt (List.length data) i Hi).
    change (broadcast_index 1 j) with 0%nat. change (broadcast_index 1 i) with 0%nat.
    change (broadcast_index 4 j) with j.
    rewrite (get_np_array 0 data i 0 [r] r Hrow eq_refl).
    assert (get 0 (np_array [[2048; 2048; 2048; 2048]]) 0 j = 2048) as ->.
    { do 4 (destruct j as [|j]; [reflexivity|]). lia. }
    reflexivity.
Qed.

(** ** Lines 107-109 *)

Lemma one_hot_encode_rows (labels : list string) :
  Forall (fun s => s ∈ unique_labels) labels ->
  one_hot_encode (F := F) labels =
  Ok (NdArray (List.length labels) 4 (map row_of labels), unique_labels).
Proof.
  intros Hall.
  pose proof (encode_loop_rows (F := F) labels [] 0 (List.length labels) Hall) as Hloop.
  cbn [List.length app Nat.add] in Hloop.
  rewrite Nat.add_0_r, app_nil_r in Hloop. specialize (Hloop eq_refl).
  unfold one_hot_encode. cbn zeta.
  change (List.length unique_labels) with 4%nat.
  rewrite zeros_rows. fold (zero_row (F := F)).
  rewrite Hloop. reflexivity.
Qed.

Lemma one_hot_encode_raises (labels : list string) (s : string) :
  s ∈ labels -> s ∉ unique_labels ->
  exists bad, bad ∈ labels /\ (bad ∉ unique_labels) /\
    one_hot_encode (F := F) labels = Raise (KeyError bad).
Proof.
  intros Hin Hs.
  destruct (first_unknown_label labels s Hin Hs)
    as (good & bad & rest & -> & Hgood & Hbad).
  exists bad. split; [|split; [exact Hbad|]].
  - apply elem_of_app. right. apply elem_of_cons. left. reflexivity.
  - pose proof (encode_loop_KeyError (F := F) good bad rest [] (S (List.length rest))
                  (List.length (good ++ bad :: rest)) Hgood Hbad) as Hloop.
    cbn [List.length app Nat.add] in Hloop.
    unfold one_hot_encode. cbn zeta.
    change (List.length unique_labels) with 4%nat.
    rewrite zeros_rows. fold (zero_row (F := F)).
    rewrite length_app at 2. cbn [List.length].
    rewrite Hloop; [reflexivity|]. rewrite length_app. simpl. lia.
Qed.

(** The preparation of lines 107-109, for the samples and labels
    [parse_input] finds in a log, the labels taken by their keys.
    Without a sample, [normalize_data] raises [ValueError].  With samples whose labels are all in the
    vocabulary, the features and the targets have one row of four per
    sample.  With a label outside the vocabulary, which the pattern
    admits, [one_hot_encode] raises [KeyError] on the first such label. *)
Theorem prepare_samples (file : list (list char)) :
  let data := fst (parse_input file) in
  let labels := map key_of (snd (parse_input file)) in
  (data = [] -> prepare (F := F) file = Raise broadcast_error) /\
  (data <> [] -> Forall (fun s => s ∈ unique_labels) labels ->
   exists (X : features F) (y : ndarray F),
     prepare file = Ok (X, y, unique_labels) /\
     shape (feat_values X) = (List.length data, 4%nat) /\
     shape y = (List.length data, 4%nat)) /\
  (data <> [] -> forall s, s ∈ labels -> s ∉ unique_labels ->
   exists bad, bad ∈ labels /\ (bad ∉ unique_labels) /\
     prepare (F := F) file = Raise (KeyError bad)).
Proof.
  intros data labels.
  destruct (parse_input_rows file) as [Hp Hrows].
  assert (List.length (fst (parse_input file)) =
          List.length (snd (parse_input file))) as Hlen
    by (rewrite Hp; cbn [fst snd]; rewrite !length_map; reflexivity).
  clear Hp. unfold prepare. subst data labels.
  destruct (parse_input file) as [data labels]. cbn [fst snd] in *.
  split; [|split].
  - intros ->. reflexivity.
  - intros Hne Hall.
    destruct (normalize_data_value (F := F) data Hne Hrows)
      as (X & -> & _ & Hshape & _).
    cbn [Py.bind]. rewrite (one_hot_encode_rows _ Hall). cbn [Py.bind fst snd].
    exists X. eexists. split; [reflexivity|]. split; [exact Hshape|].
    unfold shape. cbn [nrows ncols]. rewrite length_map. congruence.
  - intros Hne s Hin Hs.
    destruct (normalize_data_value (F := F) data Hne Hrows)
      as (X & -> & _).
    destruct (one_hot_encode_raises _ s Hin Hs) as (bad & Hbad & Hnot & ->).
    exists bad. split; [exact Hbad|]. split; [exact Hnot | reflexivity].
Qed.

End Shapes.

End PreparationFacts.
(** * Predictions *)

Section PredictionFacts.

Import LabelEncoder NetworkCore FeaturePipeline TrainerScript.

Context {F : Type} `{Scalar F}.

Local Open Scope method_scope.

Lemma argmax_loop_bound (l : list F) (mp : F) (max_ind i : nat) :
  (max_ind < i)%nat -> (argmax_loop mp max_ind i l < i + List.length l)%nat.
Proof.
  revert mp max_ind i. induction l as [|x l IH]; intros mp max_ind i Hlt;
    cbn [argmax_loop List.length]; [lia|].
  destruct (fle x mp).
  - specialize (IH mp max_ind (S i) ltac:(lia)). lia.
  - destruct (fisnan x); [lia|].
    specialize (IH x i (S i) ltac:(lia)). lia.
Qed.

Lemma argmax_returns (a : ndarray F) :
  concat (rows a) <> [] ->
  exists k, argmax a = Ok k /\ (k < List.length (concat (rows a)))%nat.
Proof.
  intros Hne. unfold argmax. destruct (concat (rows a)) as [|x l]; [congruence|].
  eexists. split; [reflexivity|]. cbn [List.length].
  destruct (fisnan x); [lia|].
  pose proof (argmax_loop_bound l x 0 1 ltac:(lia)). lia.
Qed.

Lemma rectangular_flat_length {A : Type} (a : ndarray A) :
  rectangular a -> List.length (concat (rows a)) = (nrows a * ncols a)%nat.
Proof.
  destruct a as [n m l]. unfold rectangular. cbn [nrows ncols rows].
  intros [<- Hrows]. induction Hrows as [|row l Hrow _ IH]; [reflexivity|].
  cbn [concat List.length]. rewrite length_app, IH, Hrow. lia.
Qed.

Lemma tabulate_rectangular {A : Type} (n m : nat) (f : nat -> nat -> A) :
  rectangular (tabulate n m f).
Proof.
  unfold rectangular, tabulate. cbn [nrows ncols rows]. split.
  - rewrite length_map, length_seq. reflexivity.
  - apply List.Forall_forall. intros row Hrow. apply in_map_iff in Hrow.
    destruct Hrow as (i & <- & _). rewrite length_map, length_seq. reflexivity.
Qed.

Lemma broadcast2_rectangular {A B C : Type} (dA : A) (dB : B) (f : A -> B -> C)
    (a : ndarray A) (b : ndarray B) (c : ndarray C) :
  broadcast2 dA dB f a b = Ok c -> rectangular c.
Proof.
  unfold broadcast2.
  destruct (broadcast_dim (nrows a) (nrows b)); [|discriminate].
  destruct (broadcast_dim (ncols a) (ncols b)); [|discriminate].
  intros [= <-]. apply tabulate_rectangular.
Qed.

Lemma forward_rectangular `{Exponential F} (X out : ndarray F)
    (self self' : NeuralNetwork F) :
  forward X self = (Ok out, self') -> rectangular out.
Proof.
  rewrite forward_calls.
  destruct (affine X _ _) as [z1|]; [|discriminate]. cbv zeta.
  destruct (affine (relu z1) _ _) as [z2|]; [|discriminate].
  destruct (affine (relu z2) _ _) as [z3|]; [|discriminate].
  destruct (softmax z3) as [o|] eqn:Ho; [|discriminate].
  intros [= <- _]. unfold softmax in Ho.
  destruct (max_axis1 z3) as [m|]; [|discriminate]. cbn [Py.bind] in Ho.
  destruct (np_sub z3 m) as [shifted|]; [|discriminate]. cbn [Py.bind] in Ho.
  apply (broadcast2_rectangular _ _ _ _ _ _ Ho).
Qed.

(** The label read off one row of four outputs. *)
Lemma predicted_label_returns (out : ndarray F) :
  rectangular out -> nrows out = 1%nat -> ncols out = 4%nat ->
  exists label, predicted_label out = Ok label /\ label ∈ unique_labels.
Proof.
  intros Hrect Hn Hm. pose proof (rectangular_flat_length out Hrect) as Hlen.
  rewrite Hn, Hm in Hlen.
  destruct (argmax_returns out) as (k & Hk & Hlt).
  { intros Hnil. rewrite Hnil in Hlen. discriminate. }
  rewrite Hlen in Hlt. unfold predicted_label. rewrite Hk. cbn [Py.bind].
  destruct (unique_labels !! k) as [label|] eqn:Hlabel.
  - exists label. split; [reflexivity|]. eapply list_elem_of_lookup_2. exact Hlabel.
  - apply lookup_ge_None in Hlabel. cbn in Hlabel. lia.
Qed.

Lemma forward_keeps_well_shaped `{Exponential F} (X : ndarray F)
    (self : NeuralNetwork F) :
  well_shaped self ->
  well_shaped (snd (forward X self)) /\
  input_size (snd (forward X self)) = input_size self /\
  output_size (snd (forward X self)) = output_size self.
Proof.
  intros Hw. rewrite forward_calls.
  destruct (affine X _ _) as [z1|]; [|repeat split; exact Hw]. cbv zeta.
  destruct (affine (relu z1) _ _) as [z2|]; [|repeat split; exact Hw].
  destruct (affine (relu z2) _ _) as [z3|]; [|repeat split; exact Hw].
  destruct (softmax z3) as [o|]; repeat split; exact Hw.
Qed.

Lemma sample_prediction_returns `{Exponential F} (X : ndarray F) (i : nat)
    (self : NeuralNetwork F) :
  well_shaped self -> ncols X = input_size self -> output_size self = 4%nat ->
  (i < len X)%nat ->
  exists label,
    sample_prediction X i self = (Ok label, snd (forward (slice X i (i + 1)) self)) /\
    label ∈ unique_labels.
Proof.
  intros Hw HX Ho Hi. unfold sample_prediction, mbind, len in *.
  destruct (forward_well_shaped (slice X i (i + 1)) self Hw)
    as (out & z1 & z2 & Hf & [Hor Hoc] & _);
    [cbn [slice ncols]; exact HX | lia |].
  pose proof (forward_rectangular _ _ _ _ Hf) as Hrect.
  rewrite Hf. cbn [snd].
  destruct (predicted_label_returns out Hrect) as (label & Hlabel & Hin).
  - rewrite Hor. cbn [slice nrows]. lia.
  - congruence.
  - exists label. unfold call. rewrite Hlabel. split; [reflexivity | exact Hin].
Qed.

(** The debug loop of lines 141-145, on a well-shaped network with four
    outputs and samples of its input width: it raises nothing, and prints
    a label of the vocabulary for each of the first five samples, or for
    all of them when there are fewer; the parameters stay as they are. *)
Theorem debug_predictions_return `{Exponential F} (X : ndarray F)
    (self : NeuralNetwork F) :
  well_shaped self -> ncols X = input_size self -> output_size self = 4%nat ->
  exists labels self',
    debug_predictions X self = (Ok labels, self') /\
    List.length labels = Nat.min 5 (len X) /\
    Forall (fun label => label ∈ unique_labels) labels /\
    parameters self' = parameters self.
Proof.
  intros Hw HX Ho. unfold debug_predictions.
  assert (forall indices (self0 : NeuralNetwork F),
            Forall (fun i => (i < len X)%nat) indices ->
            well_shaped self0 -> input_size self0 = input_size self ->
            output_size self0 = 4%nat -> parameters self0 = parameters self ->
            exists labels self',
              sample_predictions X indices self0 = (Ok labels, self') /\
              List.length labels = List.length indices /\
              Forall (fun label => label ∈ unique_labels) labels /\
              parameters self' = parameters self) as Hloop.
  { induction indices as [|i rest IH]; intros self0 Hidx Hw0 Hi0 Ho0 Hp0.
    - exists [], self0. repeat split; [constructor | exact Hp0].
    - inversion Hidx as [|? ? Hi Hrest]; subst.
      cbn [sample_predictions]. unfold mbind at 1.
      destruct (sample_prediction_returns X i self0 Hw0 ltac:(congruence) Ho0 Hi)
        as (label & -> & Hlabel).
      destruct (forward_keeps_well_shaped (slice X i (i + 1)) self0 Hw0)
        as (Hw1 & Hi1 & Ho1).
      pose proof (forward_keeps_parameters (slice X i (i + 1)) self0) as Hp1.
      destruct (IH (snd (forward (slice X i (i + 1)) self0)) Hrest Hw1
                  ltac:(congruence) ltac:(congruence) ltac:(congruence))
        as (labels & self' & Hrun & Hlen & Hall & Hp).
      exists (label :: labels), self'. unfold mbind. rewrite Hrun.
      split; [reflexivity|]. split; [cbn [List.length]; congruence|].
      split; [constructor; assumption | exact Hp]. }
  destruct (Hloop (seq 0 (Nat.min 5 (len X))) self) as (labels & self' & Hrun & Hlen & Hrest).
  - apply List.Forall_forall. intros i Hi. apply in_seq in Hi. lia.
  - exact Hw.
  - reflexivity.
  - exact Ho.
  - reflexivity.
  - exists labels, self'. split; [exact Hrun|]. rewrite length_seq in Hlen.
    split; [exact Hlen | exact Hrest].
Qed.

(** The test prediction of lines 156-162, on a well-shaped network with
    four inputs and four outputs, so on the trained network of the
    script: normalization and [forward] return, and the predicted colour
    is one of the four labels; no index is out of range. *)
Theorem test_prediction_returns `{Exponential F} (self : NeuralNetwork F) :
  well_shaped self -> input_size self = 4%nat -> output_size self = 4%nat ->
  exists label self',
    test_prediction self = (Ok label, self') /\
    label ∈ unique_labels /\ parameters self' = parameters self.
Proof.
  intros Hw Hi Ho. unfold test_prediction, test_input.
  destruct (normalize_data_value (F := F) [[1794; 2164; 1742; 1996]])
    as (X & HX & _ & Hshape & _); [discriminate | repeat constructor |].
  rewrite mbind_call, HX. injection Hshape as Hxr Hxc. cbn [List.length] in Hxr.
  unfold mbind.
  destruct (forward_well_shaped (feat_values X) self Hw)
    as (out & z1 & z2 & Hf & [Hor Hoc] & _); [congruence | lia |].
  pose proof (forward_rectangular _ _ _ _ Hf) as Hrect.
  pose proof (forward_keeps_parameters (feat_values X) self) as Hp.
  rewrite Hf in *. cbn [snd] in Hp.
  destruct (predicted_label_returns out Hrect) as (label & Hlabel & Hin);
    [congruence | congruence |].
  exists label. eexists. unfold call. rewrite Hlabel.
  split; [reflexivity|]. split; [exact Hin | exact Hp].
Qed.

End PredictionFacts.

(** ** Encoding a label and reading it back *)

Section RoundTrip.

Import LabelEncoder TrainerScript.

Lemma slice_row {A : Type} (l : list (list A)) (n m i : nat) (row : list A) :
  l !! i = Some row -> List.length l = n ->
  slice (NdArray n m l) i (i + 1) = NdArray 1 m [row].
Proof.
  intros Hrow Hlen. pose proof (lookup_lt_Some _ _ _ Hrow) as Hi.
  unfold slice. cbn [nrows ncols rows].
  replace (Nat.min (i + 1) n - Nat.min i n)%nat with 1%nat by lia.
  rewrite (Nat.min_l i n) by lia. f_equal.
  rewrite (drop_S _ _ _ Hrow). reflexivity.
Qed.

(** Encoding and prediction are inverse on the vocabulary: in the
    float64 array [one_hot_encode] returns, the row of every label is
    read back by [unique_labels[np.argmax(row)]] as that label. *)
Theorem one_hot_round_trip (labels : list string) :
  Forall (fun s => s ∈ unique_labels) labels ->
  exists encoded : ndarray float,
    one_hot_encode labels = Ok (encoded, unique_labels) /\
    forall i s, labels !! i = Some s ->
      predicted_label (slice encoded i (i + 1)) = Ok s.
Proof.
  intros Hall. rewrite (one_hot_encode_rows labels Hall).
  eexists. split; [reflexivity|]. intros i s Hs.
  rewrite (slice_row _ _ _ i (row_of s));
    [|rewrite list_lookup_fmap, Hs; reflexivity | apply length_map].
  assert (s ∈ unique_labels) as Hin.
  { rewrite List.Forall_forall in Hall. apply Hall.
    eapply list_elem_of_In, list_elem_of_lookup_2. exact Hs. }
  destruct (label_dict_Some s Hin) as (j & Hj & Hu & Hlt).
  unfold row_of. rewrite Hj. change (default 0%nat (Some j)) with j.
  unfold predicted_label.
  assert (argmax (NdArray 1 4 [one_hot (F := float) j]) = Ok j) as ->.
  { do 4 (destruct j as [|j]; [vm_compute; reflexivity|]). lia. }
  cbn [Py.bind]. rewrite Hu. reflexivity.
Qed.

End RoundTrip.
(** * More on the exported literals *)

Section LiteralFacts.

Import WeightExporter.

(** Two values with different bit patterns, +0.0 and -0.0 or two NaNs
    with different payloads included, are never exported as the same
    literal. *)
Theorem float_to_hex_injective (f g : float32) :
  float32_wf f -> float32_wf g ->
  float_to_hex f = float_to_hex g -> f = g.
Proof.
  intros Hf Hg Heq.
  pose proof (hex_to_float_float_to_hex f Hf) as Hdf.
  pose proof (hex_to_float_float_to_hex g Hg) as Hdg.
  rewrite Heq, Hdg in Hdf. injection Hdf as ->. reflexivity.
Qed.

(** Which values are exported with all eight digits: the negative ones,
    whose sign bit is the leading bit of the pattern, and those with a
    biased exponent of at least 32, of magnitude 2^-95 and above.  A
    positive value below that, 0.0 included, has a shorter literal. *)
Theorem float_to_hex_eight_digits (f : float32) :
  float32_wf f ->
  exists ds,
    float_to_hex f = "0"%char :: "x"%char :: ds /\
    (List.length ds = 8%nat <-> f_sign f = true \/ 32 <= f_exponent f).
Proof.
  intros Hwf. destruct (float_to_hex_digits f Hwf) as (ds & Hhex & _ & _ & Hlen).
  exists ds. split; [exact Hhex|]. rewrite Hlen.
  rewrite (float32_bits_arith f Hwf). destruct Hwf as [He Hf].
  destruct (f_sign f); cbn [Z.b2z]; split; intros Hx.
  - left. reflexivity.
  - lia.
  - right. lia.
  - destruct Hx as [Hx | Hx]; [discriminate | lia].
Qed.

End LiteralFacts.

(** * The ReLU mask *)

Section ReluFacts.

Import NetworkCore.

Context {F : Type} `{ScalarOrder F}.

(** [backward] takes the ReLU derivative of the cached activations, not
    of the pre-activations (lines 42-43).  The two masks are the same,
    because ReLU applied twice is ReLU, and so is every shape. *)
Theorem relu_mask_of_activation (z : ndarray F) :
  relu (relu z) = relu z /\
  relu_derivative (relu z) = relu_derivative z /\
  shape (relu_derivative (relu z)) = shape z.
Proof.
  split; [|split; [apply relu_derivative_relu | reflexivity]].
  unfold relu, amap. cbn [nrows ncols tabulate].
  apply tabulate_ext. intros i j Hi Hj.
  unfold at_ at 1. rewrite get_tabulate by assumption.
  unfold fmaximum. destruct (fle (at_ z i j) fzero || fisnan fzero) eqn:Hc.
  - destruct (fle fzero fzero || fisnan fzero); reflexivity.
  - rewrite Hc. reflexivity.
Qed.

End ReluFacts.

(** * The predicted class *)

Section ArgmaxFacts.

Import TrainerScript.

Local Open Scope R_scope.

Lemma argmax_loop_first_maximum (l done : list R) (mp : R) (max_ind : nat) :
  (max_ind < List.length done)%nat ->
  nth max_ind (done ++ l) 0 = mp ->
  (forall j, (j < List.length done)%nat -> nth j (done ++ l) 0 <= mp) ->
  (forall j, (j < max_ind)%nat -> nth j (done ++ l) 0 < mp) ->
  let k := argmax_loop mp max_ind (List.length done) l in
  (k < List.length (done ++ l))%nat /\
  (forall j, (j < List.length (done ++ l))%nat ->
     nth j (done ++ l) 0 <= nth k (done ++ l) 0) /\
  (forall j, (j < k)%nat -> nth j (done ++ l) 0 < nth k (done ++ l) 0).
Proof.
  revert done mp max_ind. induction l as [|x l IH]; intros done mp max_ind Hlt Hmp Hle Hfirst.
  - cbn [argmax_loop]. rewrite app_nil_r in *. rewrite Hmp.
    split; [exact Hlt|]. split; assumption.
  - cbn [argmax_loop fle fisnan R_scalar]. unfold Rleb.
    assert (nth (List.length done) (done ++ x :: l) 0 = x) as Hx
      by (rewrite app_nth2, Nat.sub_diag by lia; reflexivity).
    assert (done ++ x :: l = (done ++ [x]) ++ l) as Happ
      by (rewrite <- app_assoc; reflexivity).
    assert (List.length (done ++ [x]) = S (List.length done)) as Hlen
      by (rewrite length_app; cbn; lia).
    destruct (Rle_dec x mp) as [Hxm | Hxm].
    + specialize (IH (done ++ [x]) mp max_ind).
      rewrite Hlen, <- Happ in IH. apply IH; [lia | exact Hmp | | exact Hfirst].
      intros j Hj. destruct (Nat.eq_dec j (List.length done)) as [-> | Hne];
        [rewrite Hx; exact Hxm | apply Hle; lia].
    + specialize (IH (done ++ [x]) x (List.length done)).
      rewrite Hlen, <- Happ in IH. apply IH; [lia | exact Hx | |].
      * intros j Hj. destruct (Nat.eq_dec j (List.length done)) as [-> | Hne];
          [rewrite Hx; lra|]. specialize (Hle j ltac:(lia)). lra.
      * intros j Hj. specialize (Hle j Hj). lra.
Qed.

(** In exact arithmetic [np.argmax] returns the position of the first
    largest entry of the flattened array: no entry is above the one it
    points to, and every entry before it is below; of an empty array it
    raises [ValueError]. *)
Theorem argmax_first_maximum (a : ndarray R) :
  (concat (rows a) = [] ->
   argmax a = Raise (ValueError "attempt to get argmax of an empty sequence")) /\
  (concat (rows a) <> [] ->
   exists k,
     argmax a = Ok k /\ (k < List.length (concat (rows a)))%nat /\
     (forall j, (j < List.length (concat (rows a)))%nat ->
        nth j (concat (rows a)) 0 <= nth k (concat (rows a)) 0) /\
     (forall j, (j < k)%nat ->
        nth j (concat (rows a)) 0 < nth k (concat (rows a)) 0)).
Proof.
  unfold argmax. split.
  - intros ->. reflexivity.
  - intros Hne. destruct (concat (rows a)) as [|x l]; [congruence|].
    cbn [fisnan R_scalar]. eexists. split; [reflexivity|].
    apply (argmax_loop_first_maximum l [x] x 0).
    + cbn. lia.
    + reflexivity.
    + intros j Hj. cbn in Hj. destruct j; [cbn; lra | lia].
    + intros j Hj. lia.
Qed.

End ArgmaxFacts.
(** * [forward], row by row *)

Section RowByRow.

Import NetworkCore TrainerScript.

Context {F : Type} `{Scalar F} `{Exponential F}.

(** One layer, ReLU and softmax on one row, given by its entries. *)
Definition layer_row (W b : ndarray F) (v : nat -> F) (j : nat) : F :=
  fadd (fsum (map (fun k => fmul (v k) (at_ W k j)) (seq 0 (nrows W)))) (at_ b 0 j).

Definition relu_row (v : nat -> F) (j : nat) : F := fmaximum fzero (v j).

Definition softmax_row (width : nat) (v : nat -> F) (j : nat) : F :=
  let m := fold_left fmaximum (map (fun j' => v (S j')) (seq 0 (width - 1))) (v 0%nat) in
  fdiv (fexp (fsub (v j) m))
       (fsum (map (fun j' => fexp (fsub (v j') m)) (seq 0 width))).

Definition forward_row (self : NeuralNetwork F) (v : nat -> F) : nat -> F :=
  softmax_row (output_size self)
    (layer_row (hidden_weights2 self) (output_bias self)
       (relu_row (layer_row (hidden_weights1 self) (hidden_bias2 self)
                    (relu_row (layer_row (input_weights self) (hidden_bias1 self) v))))).

Lemma layer_row_ext (W b : ndarray F) (v w : nat -> F) (j : nat) :
  (forall k, (k < nrows W)%nat -> v k = w k) -> layer_row W b v j = layer_row W b w j.
Proof.
  intros Hvw. unfold layer_row. do 2 f_equal.
  apply map_ext_in. intros k Hk. apply in_seq in Hk. rewrite Hvw by lia. reflexivity.
Qed.

Lemma softmax_row_ext (width : nat) (v w : nat -> F) (j : nat) :
  (forall k, (k < width)%nat -> v k = w k) -> (j < width)%nat ->
  softmax_row width v j = softmax_row width w j.
Proof.
  intros Hvw Hj. unfold softmax_row. cbv zeta.
  assert (fold_left fmaximum (map (fun j' => v (S j')) (seq 0 (width - 1))) (v 0%nat) =
          fold_left fmaximum (map (fun j' => w (S j')) (seq 0 (width - 1))) (w 0%nat))
    as ->.
  { rewrite (Hvw 0%nat) by lia. f_equal.
    apply map_ext_in. intros k Hk. apply in_seq in Hk. apply Hvw. lia. }
  rewrite (Hvw j Hj). do 2 f_equal.
  apply map_ext_in. intros k Hk. apply in_seq in Hk. rewrite Hvw by lia. reflexivity.
Qed.

Lemma affine_rows (x W b : ndarray F) :
  ncols x = nrows W -> nrows b = 1%nat -> ncols b = ncols W ->
  affine x W b =
  Ok (tabulate (nrows x) (ncols W) (fun i j => layer_row W b (fun k => at_ x i k) j)).
Proof.
  intros Hx Hbr Hbc. unfold affine, dot. rewrite Hx, Nat.eqb_refl. cbn [Py.bind].
  unfold np_add, broadcast2. cbn [nrows ncols tabulate].
  rewrite Hbr, Hbc, broadcast_dim_one, broadcast_dim_same. f_equal.
  apply tabulate_ext. intros i j Hi Hj.
  rewrite !broadcast_index_lt by assumption.
  change (broadcast_index 1 i) with 0%nat.
  fold (tabulate (nrows x) (ncols W)
          (fun i j => fsum (map (fun k => fmul (at_ x i k) (at_ W k j))
                              (seq 0 (nrows W))))).
  rewrite get_tabulate by assumption. reflexivity.
Qed.

Lemma softmax_rows_formula (z : ndarray F) :
  (0 < ncols z)%nat ->
  softmax z =
  Ok (tabulate (nrows z) (ncols z)
        (fun i j => softmax_row (ncols z) (fun k => at_ z i k) j)).
Proof.
  intros Hc. unfold softmax, max_axis1.
  destruct (ncols z) as [|m] eqn:Hm; [lia|]. cbn [Py.bind].
  set (mx := tabulate (nrows z) 1 _).
  assert (forall i, (i < nrows z)%nat ->
            at_ mx i 0 =
            fold_left fmaximum (map (fun j' => at_ z i (S j')) (seq 0 m)) (at_ z i 0))
    as Hmx.
  { intros i Hi. unfold at_ at 1. subst mx. rewrite get_tabulate by lia. reflexivity. }
  assert (np_sub z mx =
          Ok (tabulate (nrows z) (S m) (fun i j => fsub (at_ z i j) (at_ mx i 0)))) as ->.
  { unfold np_sub, broadcast2. change (nrows mx) with (nrows z).
    change (ncols mx) with 1%nat.
    rewrite Hm, broadcast_dim_same, broadcast_dim_one. f_equal.
    apply tabulate_ext. intros i j Hi Hj.
    rewrite !broadcast_index_lt by assumption. reflexivity. }
  cbn [Py.bind]. set (shifted := tabulate (nrows z) (S m) _).
  set (exp_x := amap fexp shifted).
  assert (forall i j, (i < nrows z)%nat -> (j < S m)%nat ->
            at_ exp_x i j = fexp (fsub (at_ z i j) (at_ mx i 0))) as Hexp.
  { intros i j Hi Hj. unfold at_ at 1. subst exp_x. unfold amap.
    rewrite get_tabulate by (subst shifted; assumption).
    unfold at_ at 1. subst shifted. rewrite get_tabulate by assumption. reflexivity. }
  unfold np_div, broadcast2.
  change (nrows exp_x) with (nrows z). change (ncols exp_x) with (S m).
  change (nrows (sum_axis1 exp_x)) with (nrows z).
  change (ncols (sum_axis1 exp_x)) with 1%nat.
  rewrite broadcast_dim_same, broadcast_dim_one. f_equal.
  apply tabulate_ext. intros i j Hi Hj.
  rewrite !broadcast_index_lt by assumption.
  change (broadcast_index 1 j) with 0%nat.
  change (get fzero exp_x i j) with (at_ exp_x i j). rewrite Hexp by assumption.
  unfold sum_axis1. rewrite get_tabulate by (try assumption; lia).
  change (ncols exp_x) with (S m).
  unfold softmax_row. cbv zeta. cbn [Nat.sub]. rewrite Nat.sub_0_r.
  rewrite Hmx by assumption. f_equal. f_equal.
  apply map_ext_in. intros k Hk. apply in_seq in Hk.
  rewrite Hexp by lia. rewrite Hmx by assumption. reflexivity.
Qed.

(** On a well-shaped network every row of the output is a function of
    the same row of the batch and of nothing else. *)
Lemma forward_rows_formula (X : ndarray F) (self : NeuralNetwork F) :
  well_shaped self -> ncols X = input_size self -> (0 < output_size self)%nat ->
  fst (forward X self) =
  Ok (tabulate (nrows X) (output_size self)
        (fun i j => forward_row self (fun k => at_ X i k) j)).
Proof.
  intros Hw HX Ho.
  destruct (well_shaped_shapes self Hw)
    as ([Hw0r Hw0c] & [Hw1r Hw1c] & [Hw2r Hw2c] & [Hb1r Hb1c] & [Hb2r Hb2c] & [Hb3r Hb3c]).
  rewrite forward_calls.
  rewrite (affine_rows X) by congruence. cbv zeta.
  set (z1 := tabulate (nrows X) (ncols (input_weights self)) _).
  rewrite (affine_rows (relu z1)) by (try assumption; cbn; congruence).
  set (z2 := tabulate (nrows (relu z1)) (ncols (hidden_weights1 self)) _).
  rewrite (affine_rows (relu z2)) by (try assumption; cbn; congruence).
  set (z3 := tabulate (nrows (relu z2)) (ncols (hidden_weights2 self)) _).
  rewrite (softmax_rows_formula z3) by (cbn; lia). cbn [fst].
  change (nrows z3) with (nrows X). change (ncols z3) with (ncols (hidden_weights2 self)).
  rewrite Hw2c. f_equal. apply tabulate_ext. intros i j Hi Hj.
  unfold forward_row. apply softmax_row_ext; [|exact Hj].
  intros k3 Hk3. unfold at_ at 1. subst z3.
  rewrite get_tabulate by (try exact Hi; congruence).
  apply layer_row_ext. intros k2 Hk2.
  unfold relu, amap, at_ at 1. rewrite get_tabulate by (try exact Hi; cbn; congruence).
  unfold relu_row. f_equal. unfold at_ at 1. subst z2.
  rewrite get_tabulate by (try exact Hi; congruence).
  apply layer_row_ext. intros k1 Hk1.
  unfold relu, amap, at_ at 1. rewrite get_tabulate by (try exact Hi; cbn; congruence).
  unfold relu_row. f_equal. unfold at_ at 1. subst z1.
  rewrite get_tabulate by (try exact Hi; congruence). reflexivity.
Qed.

Lemma softmax_row_pointwise (width : nat) (v w : nat -> F) (j : nat) :
  (forall k, v k = w k) -> softmax_row width v j = softmax_row width w j.
Proof.
  intros Hvw. unfold softmax_row. cbv zeta.
  assert (fold_left fmaximum (map (fun j' => v (S j')) (seq 0 (width - 1))) (v 0%nat) =
          fold_left fmaximum (map (fun j' => w (S j')) (seq 0 (width - 1))) (w 0%nat))
    as ->.
  { rewrite (Hvw 0%nat). f_equal. apply map_ext. intros k. apply Hvw. }
  rewrite (Hvw j). do 2 f_equal.
  apply map_ext. intros k. rewrite Hvw. reflexivity.
Qed.

Lemma forward_row_ext (self : NeuralNetwork F) (v w : nat -> F) (j : nat) :
  (forall k, (k < nrows (input_weights self))%nat -> v k = w k) ->
  forward_row self v j = forward_row self w j.
Proof.
  intros Hvw. unfold forward_row. apply softmax_row_pointwise. intros j3.
  apply layer_row_ext. intros j2 _. unfold relu_row. f_equal.
  apply layer_row_ext. intros j1 _. unfold relu_row. f_equal.
  apply layer_row_ext, Hvw.
Qed.

Lemma slice_entry (X : ndarray F) (i k : nat) :
  rectangular X -> (i < nrows X)%nat ->
  nrows (slice X i (i + 1)) = 1%nat /\ at_ (slice X i (i + 1)) 0 k = at_ X i k.
Proof.
  intros [Hlen _] Hi. unfold slice, at_, get. cbn [nrows rows].
  replace (Nat.min (i + 1) (nrows X) - Nat.min i (nrows X))%nat with 1%nat by lia.
  split; [reflexivity|]. rewrite (Nat.min_l i) by lia.
  destruct (skipn i (rows X)) as [|row rest] eqn:Hskip.
  - exfalso. apply (f_equal (@List.length _)) in Hskip.
    rewrite length_skipn in Hskip. cbn in Hskip. lia.
  - cbn [firstn nth]. f_equal.
    rewrite <- (firstn_skipn i (rows X)), Hskip.
    rewrite app_nth2; rewrite length_firstn; [|lia].
    replace (i - Nat.min i (List.length (rows X)))%nat with 0%nat by lia. reflexivity.
Qed.

(** With every dot product added up in index order, as [dot] does it,
    row [i] of the output for a batch is the one row of the output for
    [X[i:i+1]].  NumPy leaves the order of the additions to the BLAS
    kernel, which chooses it by the shapes of the operands; the lemma
    speaks of the script where the order does not matter. *)
Lemma forward_rows_agree (X : ndarray F) (self : NeuralNetwork F) (i : nat) :
  well_shaped self -> ncols X = input_size self -> (0 < output_size self)%nat ->
  rectangular X -> (i < nrows X)%nat ->
  exists out sample_output row,
    fst (forward X self) = Ok out /\
    fst (forward (slice X i (i + 1)) self) = Ok sample_output /\
    rows out !! i = Some row /\ rows sample_output = [row].
Proof.
  intros Hw HX Ho Hrect Hi.
  rewrite (forward_rows_formula X self Hw HX Ho).
  rewrite (forward_rows_formula (slice X i (i + 1)) self Hw HX Ho).
  destruct (slice_entry X i 0 Hrect Hi) as [Hone _]. rewrite Hone.
  eexists. eexists.
  exists (map (fun j => forward_row self (fun k => at_ X i k) j)
            (seq 0 (output_size self))).
  split; [reflexivity|]. split; [reflexivity|]. split.
  - unfold tabulate. cbn [rows]. rewrite list_lookup_fmap.
    rewrite (proj2 (lookup_seq 0 (nrows X) i i) (conj eq_refl Hi)). reflexivity.
  - unfold tabulate. cbn [rows seq map]. f_equal.
    apply map_ext. intros j. apply forward_row_ext. intros k _.
    apply (slice_entry X i k Hrect Hi).
Qed.

End RowByRow.

(** X5.  In exact arithmetic, where the order in which a dot product is
    added up does not matter, a prediction does not depend on the batch
    the sample is in: row [i] of the output [forward] returns for a batch
    is the one row it returns for the batch [X[i:i+1]] of sample [i]
    alone, as lines 141-145 and an inference on one reading compute it. *)
Theorem forward_row_independent
    (X : ndarray R) (self : NetworkCore.NeuralNetwork R) (i : nat) :
  TrainerScript.well_shaped self ->
  ncols X = NetworkCore.input_size self ->
  (0 < NetworkCore.output_size self)%nat ->
  TrainerScript.rectangular X -> (i < nrows X)%nat ->
  exists out sample_output row,
    fst (NetworkCore.forward X self) = Ok out /\
    fst (NetworkCore.forward (TrainerScript.slice X i (i + 1)) self) =
      Ok sample_output /\
    rows out !! i = Some row /\ rows sample_output = [row].
Proof. apply forward_rows_agree. Qed.

(** * Dead units *)

Section UniformSoftmax.

Import NetworkCore.

Local Open Scope R_scope.

Lemma fsum_ones {A : Type} (f : A -> R) (l : list A) :
  (forall x, In x l -> f x = 1) -> fsum (map f l) = INR (List.length l).
Proof.
  induction l as [|x l IH]; intros Hf.
  - reflexivity.
  - cbn [map]. rewrite fsum_cons, IH by (intros y Hy; apply Hf; right; exact Hy).
    rewrite (Hf x (or_introl eq_refl)). cbn [List.length]. rewrite S_INR. lra.
Qed.

(** In exact arithmetic, a row of equal scores, as a layer of dead ReLU
    units under equal biases gives, comes out of softmax as the uniform
    distribution: every class gets 1 / n. *)
Theorem softmax_uniform (x out : ndarray R) (i : nat) (c : R) :
  softmax x = Ok out -> (i < nrows x)%nat ->
  (forall j, (j < ncols x)%nat -> at_ x i j = c) ->
  forall j, (j < ncols x)%nat -> at_ out i j = 1 / INR (ncols x).
Proof.
  intros Hout Hi Hrow j Hj.
  rewrite softmax_rows_formula in Hout by lia. injection Hout as <-.
  unfold at_ at 1. rewrite get_tabulate by assumption.
  unfold softmax_row. cbv zeta.
  set (m := fold_left fmaximum _ _).
  assert (m = c) as ->.
  { subst m.
    destruct (fold_maximum_bounds
                (map (fun j' => at_ x i (S j')) (seq 0 (ncols x - 1))) (at_ x i 0))
      as (_ & _ & [Heq | Hin]).
    - rewrite Heq. apply Hrow. lia.
    - apply in_map_iff in Hin. destruct Hin as (k & Hk & Hin). apply in_seq in Hin.
      rewrite <- Hk. apply Hrow. lia. }
  rewrite (Hrow j Hj). cbn [fexp fsub fdiv R_scalar R_exponential].
  rewrite Rminus_diag, exp_0. f_equal.
  rewrite fsum_ones; [rewrite length_seq; reflexivity|].
  intros k Hk. apply in_seq in Hk. rewrite Hrow by lia.
  rewrite Rminus_diag. apply exp_0.
Qed.

End UniformSoftmax.
(** * Runs on small inputs *)

Section SmallRuns.

Import WeightExporter FeaturePipeline LabelEncoder NetworkCore TrainingController
       TrainerScript.

(** A network of the default sizes with every weight 1, three samples
    and their targets. *)
Definition sample_network : NeuralNetwork R :=
  init (fun _ _ => 1%R) (fun _ _ => 1%R) (fun _ _ => 1%R) 4 16 8 4.

Definition sample_batch : ndarray R :=
  np_array [[1; 2; 3; 4]; [5; 6; 7; 8]; [0; 0; 0; 0]]%R.

Definition sample_targets : ndarray R :=
  np_array [[1; 0; 0; 0]; [0; 1; 0; 0]; [0; 0; 0; 1]]%R.

Lemma training_step_returns_witness :
  exists out self1 self2,
    forward sample_batch sample_network = (Ok out, self1) /\
    shape out = (3%nat, 4%nat) /\
    backward sample_batch sample_targets out (1 / 1000)%R self1 = (Ok tt, self2) /\
    well_shaped self2 /\ output self2 = Some out /\
    input_size self2 = 4%nat /\ output_size self2 = 4%nat.
Proof.
  apply (training_step_returns sample_batch sample_targets (1 / 1000)%R sample_network);
    [reflexivity | reflexivity | cbn; lia | reflexivity | reflexivity].
Defined.

Lemma forward_raises_witness :
  forward (np_array [[1; 2; 3]]%R) sample_network =
  (Raise (ValueError "shapes not aligned"), sample_network).
Proof.
  refine (proj1 (forward_raises (np_array [[1; 2; 3]]%R) sample_network _) _);
    [reflexivity | cbn; lia].
Defined.

Lemma backward_before_forward_witness :
  backward sample_batch sample_targets sample_targets (1 / 1000)%R sample_network =
  (Raise (AttributeError "NeuralNetwork object has no such attribute"), sample_network).
Proof.
  refine (proj2 (backward_before_forward sample_batch sample_targets sample_targets
                   (1 / 1000)%R sample_network _) _ _ _ _); reflexivity.
Defined.

Lemma fit_returns_witness :
  exists stopped self',
    fit 1000000%R print_report sample_batch sample_targets
      sample_batch sample_targets 3 (1 / 1000)%R 2 50 sample_network =
      (Ok stopped, self') /\
    well_shaped self' /\
    input_size self' = 4%nat /\ output_size self' = 4%nat.
Proof.
  apply (fit_returns 1000000%R sample_batch sample_targets
           sample_batch sample_targets (1 / 1000)%R 2 50 3 sample_network);
    try reflexivity; cbn; lia.
Defined.

Lemma batches_partition_witness :
  exists starts,
    range_step (len (np_array [[1]; [2]; [3]])) 2 = Ok starts /\
    List.length starts = 2%nat /\
    (forall k i, starts !! k = Some i ->
       i = (k * 2)%nat /\ (i < 3)%nat /\
       nrows (slice (np_array [[1]; [2]; [3]]) i (i + 2)) = Nat.min 2 (3 - i)) /\
    concat (map (fun i => rows (slice (np_array [[1]; [2]; [3]]) i (i + 2))) starts) =
    [[1]; [2]; [3]].
Proof.
  apply (batches_partition (np_array [[1]; [2]; [3]]) 2); [reflexivity | lia].
Defined.

(** The network with activations in place, as after a call of [forward]. *)
Definition active_network : NeuralNetwork R :=
  set_cache Hidden2 (tabulate 3 8 (fun _ _ => 1%R))
    (set_cache Hidden1 (tabulate 3 16 (fun _ _ => 1%R)) sample_network).

Lemma backward_without_error_witness :
  parameters
    (snd (backward sample_batch sample_targets sample_targets (1 / 1000)%R
            active_network)) =
  parameters active_network.
Proof.
  apply (backward_without_error sample_batch sample_targets sample_targets
           (1 / 1000)%R active_network (tabulate 3 16 (fun _ _ => 1%R))
           (tabulate 3 8 (fun _ _ => 1%R)));
    [reflexivity | reflexivity | | left; reflexivity].
  repeat (constructor; [apply tabulate_rectangular|]). constructor.
Defined.

Lemma softmax_exponents_witness :
  exists m shifted,
    max_axis1 (np_array [[1; 2]; [3; 0]]%R) = Ok m /\
    np_sub (np_array [[1; 2]; [3; 0]]%R) m = Ok shifted /\
    shape shifted = (2%nat, 2%nat).
Proof.
  eexists. eexists. split; [reflexivity|]. split; [reflexivity|].
  refine (proj1 (softmax_exponents (np_array [[1; 2]; [3; 0]]%R) _ _ eq_refl eq_refl)).
Defined.

Lemma softmax_shift_invariant_witness :
  exists shifted,
    np_add (np_array [[1; 2]; [3; 0]]%R) (np_array [[5]; [7]]%R) = Ok shifted /\
    softmax shifted = softmax (np_array [[1; 2]; [3; 0]]%R).
Proof.
  eexists. split; [reflexivity|].
  apply (softmax_shift_invariant (np_array [[1; 2]; [3; 0]]%R) (np_array [[5]; [7]]%R));
    [split; [reflexivity | repeat constructor] | reflexivity | reflexivity | reflexivity].
Defined.

Lemma mean_square_zero_witness :
  exists l,
    mean_square (np_array [[1; 2]]%R) (np_array [[1; 3]]%R) = Ok l /\ (0 <= l)%R /\
    (l = 0%R <->
     forall i j, (i < 1)%nat -> (j < 2)%nat ->
       at_ (np_array [[1; 2]]%R) i j = at_ (np_array [[1; 3]]%R) i j).
Proof.
  apply (mean_square_zero (np_array [[1; 2]]%R) (np_array [[1; 3]]%R));
    try reflexivity; cbn; lia.
Defined.

(** On binary64 the theorems hold for any exponential; here its
    first-order approximation. *)
Definition first_order_exp : Exponential float :=
  {| fexp := fun x => PrimFloat.add 1 x |}.

Definition half_network : NeuralNetwork float :=
  init (fun _ _ => 0.5%float) (fun _ _ => 0.5%float) (fun _ _ => 0.5%float) 4 16 8 4.

Lemma fit_empty_validation_witness :
  fst (@fit float float64_scalar first_order_exp infinity (fun _ _ _ _ => Ok tt)
         (np_array [[0.5; 0.5; 0.5; 0.5]]%float) (np_array [[1; 0; 0; 0]]%float)
         (NdArray 0 4 []) (NdArray 0 4 []) 10 0.5%float 32 (Z.of_nat 3)
         half_network) =
  Ok (if (3 <=? 10)%nat then EarlyStopping (3 - 1) else Exhausted).
Proof.
  apply (fit_empty_validation (exponential := first_order_exp)
           (fun _ _ _ _ => Ok tt)
           (np_array [[0.5; 0.5; 0.5; 0.5]]%float) (np_array [[1; 0; 0; 0]]%float)
           (NdArray 0 4 []) (NdArray 0 4 []) 10 0.5%float 32 3 half_network);
    try reflexivity; cbn; lia.
Defined.

(** The loop of the run above, and one whose loss is never a number. *)
Definition stalled_train (epochs : nat) (patience : Z) : result outcome * nat :=
  train (net := nat) (array := nat) (F := float)
    (fun _ self => (Ok self, self))
    (fun _ _ _ _ self => (Ok tt, S self))
    (fun _ _ => Ok nan)
    (fun a _ _ => a) (fun _ => 1%nat)
    PrimFloat.add 0%float PrimFloat.ltb infinity
    (fun _ _ _ _ => Ok tt)
    0%nat 0%nat 0%nat 0%nat epochs 0.5%float 32 patience 0%nat.

Lemma train_outcome_and_network_witness :
  exists self', toy_train 10 2 = (Ok (EarlyStopping 4), self').
Proof.
  unshelve epose proof
    (train_outcome_and_network (net := nat) (array := nat)
      (fun _ self => (Ok self, self))
      (fun _ _ _ _ self => (Ok tt, S self))
      (fun _ output => Ok (toy_loss output))
      (fun a _ _ => a) (fun _ => 1%nat)
      PrimFloat.add 0%float PrimFloat.ltb infinity
      (fun _ _ _ _ => Ok tt)
      0%nat 0%nat 0%nat 0%nat 0.5%float 32 2 0%nat
       toy_losses 10 4 _ _) as Hrun.
  - intros e He. do 4 (destruct e as [|e]; [reflexivity|]). lia.
  - intros e He. do 4 (destruct e as [|e]; [reflexivity|]). lia.
  - destruct (proj1 Hrun ltac:(lia) eq_refl eq_refl) as (self' & _ & Hstop).
    exists self'. exact Hstop.
Defined.

Lemma train_without_improvement_witness :
  exists self', stalled_train 10 3 = (Ok (EarlyStopping (3 - 1)), self').
Proof.
  unshelve epose proof
    (train_without_improvement (net := nat) (array := nat)
       (fun _ self => (Ok self, self))
       (fun _ _ _ _ self => (Ok tt, S self))
       (fun _ _ => Ok nan)
       (fun a _ _ => a) (fun _ => 1%nat)
       PrimFloat.add 0%float PrimFloat.ltb infinity
       (fun _ _ _ _ => Ok tt)
       0%nat 0%nat 0%nat 0%nat 0.5%float 32 3 0%nat (fun _ => nan) 10 3 _ _ _ _)
    as Hrun.
  - lia.
  - reflexivity.
  - intros e. reflexivity.
  - intros e He. do 3 (destruct e as [|e]; [reflexivity|]). lia.
  - destruct Hrun as (self' & _ & Hrun). exists self'. exact Hrun.
Defined.

Lemma train_always_improving_witness :
  exists self', toy_train 3 0 = (Ok Exhausted, self').
Proof.
  unshelve epose proof
    (train_always_improving (net := nat) (array := nat)
      (fun _ self => (Ok self, self))
      (fun _ _ _ _ self => (Ok tt, S self))
      (fun _ output => Ok (toy_loss output))
      (fun a _ _ => a) (fun _ => 1%nat)
      PrimFloat.add 0%float PrimFloat.ltb infinity
      (fun _ _ _ _ => Ok tt)
      0%nat 0%nat 0%nat 0%nat 0.5%float 32 0 0%nat
       toy_losses 3 _ _) as Hrun.
  - intros e He. do 3 (destruct e as [|e]; [reflexivity|]). lia.
  - intros e He. do 3 (destruct e as [|e]; [reflexivity|]). lia.
  - destruct Hrun as (self' & _ & Hrun). exists self'. exact Hrun.
Defined.

Lemma int_positional_witness :
  int (U := sample_unicode) (str "17" ++ str "94") =
    int (U := sample_unicode) (str "17") * 10 ^ Z.of_nat 2 +
    int (U := sample_unicode) (str "94") /\
  int (U := sample_unicode) (code "0" :: str "17") =
    int (U := sample_unicode) (str "17") /\
  0 <= int (U := sample_unicode) (str "17") < 10 ^ Z.of_nat 2.
Proof.
  apply (int_positional (L := sample_unicode_laws) (str "17") (str "94")).
  repeat constructor.
Defined.

Lemma normalize_data_widths_witness :
  normalize_data (F := Q) (np_array [[1; 2; 3]]) = Raise broadcast_error.
Proof.
  refine (proj1 (normalize_data_widths [[1; 2; 3]] 3 _) _);
    [repeat constructor | right; split; lia].
Defined.

Lemma debug_predictions_return_witness :
  exists labels self',
    debug_predictions sample_batch sample_network = (Ok labels, self') /\
    List.length labels = Nat.min 5 3 /\
    Forall (fun label => label ∈ unique_labels) labels /\
    parameters self' = parameters sample_network.
Proof.
  apply (debug_predictions_return sample_batch sample_network); reflexivity.
Defined.

Lemma test_prediction_returns_witness :
  exists label self',
    test_prediction sample_network = (Ok label, self') /\
    label ∈ unique_labels /\ parameters self' = parameters sample_network.
Proof. apply (test_prediction_returns sample_network); reflexivity. Defined.

Lemma one_hot_round_trip_witness :
  exists encoded : ndarray float,
    one_hot_encode ["White"; "Red"]%string = Ok (encoded, unique_labels) /\
    forall i s, ["White"; "Red"]%string !! i = Some s ->
      predicted_label (slice encoded i (i + 1)) = Ok s.
Proof.
  apply (one_hot_round_trip ["White"; "Red"]%string).
  repeat constructor.
Defined.

Lemma float_to_hex_injective_witness :
  Float32 true 127 0 = Float32 true (126 + 1) 0.
Proof.
  apply (float_to_hex_injective (Float32 true 127 0) (Float32 true (126 + 1) 0));
    [split; cbn; lia | split; cbn; lia | reflexivity].
Defined.

Lemma float_to_hex_eight_digits_witness :
  exists ds,
    float_to_hex one_f = "0"%char :: "x"%char :: ds /\
    (List.length ds = 8%nat <-> f_sign one_f = true \/ 32 <= f_exponent one_f).
Proof. apply (float_to_hex_eight_digits one_f). split; cbn; lia. Defined.

Lemma relu_mask_of_activation_witness :
  relu (relu (np_array [[1; -3]]%Q)) = relu (np_array [[1; -3]]%Q) /\
  relu_derivative (relu (np_array [[1; -3]]%Q)) =
    relu_derivative (np_array [[1; -3]]%Q) /\
  shape (relu_derivative (relu (np_array [[1; -3]]%Q))) = (1%nat, 2%nat).
Proof. apply (relu_mask_of_activation (np_array [[1; -3]]%Q)). Defined.

Lemma forward_row_independent_witness :
  exists out sample_output row,
    fst (forward sample_batch sample_network) = Ok out /\
    fst (forward (slice sample_batch 1 (1 + 1)) sample_network) = Ok sample_output /\
    rows out !! 1%nat = Some row /\ rows sample_output = [row].
Proof.
  apply (forward_row_independent sample_batch sample_network 1);
    [reflexivity | reflexivity | cbn; lia | split; [reflexivity | repeat constructor]
    | cbn; lia].
Defined.

Lemma softmax_uniform_witness :
  exists out,
    softmax (np_array [[2; 2]; [1; 3]]%R) = Ok out /\
    forall j, (j < 2)%nat -> at_ out 0 j = (1 / INR 2)%R.
Proof.
  destruct (softmax_returns (np_array [[2; 2]; [1; 3]]%R)) as (out & Hout & _);
    [cbn; lia|].
  exists out. split; [exact Hout|].
  apply (softmax_uniform (np_array [[2; 2]; [1; 3]]%R) out 0 2%R Hout); [cbn; lia|].
  intros j Hj. do 2 (destruct j as [|j]; [reflexivity|]). cbn in Hj. lia.
Defined.

End SmallRuns.
